(** * Pre-commit hook scanners: a shallow embedding and its properties

    The repository is a set of stand-alone Python scripts under [hooks/].
    Each definition below is the translation of one Python function (or of
    one standard-library routine the scripts call); the names are the
    source's.  Texts are Python [str] values restricted to code points
    below 256, represented as lists of 8-bit characters. *)

From Stdlib Require Import Ascii String List Bool Arith NArith Lia Sorted.
Import ListNotations.

(* ================================================================== *)
(** ** Python strings *)
(* ================================================================== *)

Module Text.

Definition str := list ascii.

(** A literal of the source, as a character list. *)
Definition s (x : string) : str := list_ascii_of_string x.
Arguments s x%_string.

Definition code (c : ascii) : N := N_of_ascii c.
Definition chr (n : N) : ascii := ascii_of_N n.

Definition dquote : ascii := chr 34.
Definition squote : ascii := chr 39.
Definition newline : ascii := chr 10.

Definition between (lo hi : N) (c : ascii) : bool :=
  (lo <=? code c)%N && (code c <=? hi)%N.

(** [str.isspace] on one character; also what [\s] matches in a [str]
    pattern: TAB..CR, FS..US, SPACE, NEL and NBSP. *)
Definition is_space (c : ascii) : bool :=
  between 9 13 c || between 28 32 c
  || (code c =? 133)%N || (code c =? 160)%N.

Definition is_digit (c : ascii) : bool := between 48 57 c.
Definition is_upper_ascii (c : ascii) : bool := between 65 90 c.
Definition is_lower_ascii (c : ascii) : bool := between 97 122 c.

(** [str.lower] on one character: A-Z, and the Latin-1 capitals
    0xC0..0xDE without the multiplication sign 0xD7. *)
Definition lower_char (c : ascii) : ascii :=
  if is_upper_ascii c || (between 192 222 c && negb (code c =? 215)%N)
  then chr (code c + 32) else c.

(** [str.upper] on one character, where the result is again one
    character below 256: a-z, and the Latin-1 small letters 0xE0..0xFE
    without the division sign 0xF7.  (The scripts upper-case the keys of
    the pattern tables only, which are ASCII.) *)
Definition upper_char (c : ascii) : ascii :=
  if is_lower_ascii c || (between 224 254 c && negb (code c =? 247)%N)
  then chr (code c - 32) else c.

Definition lower (t : str) : str := map lower_char t.
Definition upper (t : str) : str := map upper_char t.

Fixpoint dropWhile (p : ascii -> bool) (t : str) : str :=
  match t with
  | [] => []
  | c :: t' => if p c then dropWhile p t' else t
  end.

Definition lstrip_by (p : ascii -> bool) (t : str) : str := dropWhile p t.
Definition rstrip_by (p : ascii -> bool) (t : str) : str :=
  rev (dropWhile p (rev t)).
Definition strip_by (p : ascii -> bool) (t : str) : str :=
  rstrip_by p (lstrip_by p t).

(** [t.strip()] *)
Definition strip (t : str) : str := strip_by is_space t.

Definition ascii_eqb (a b : ascii) : bool := (code a =? code b)%N.

Definition mem_char (c : ascii) (cs : str) : bool := existsb (ascii_eqb c) cs.

(** [t.strip(chars)] *)
Definition strip_chars (chars : str) (t : str) : str :=
  strip_by (fun c => mem_char c chars) t.

Fixpoint str_eqb (a b : str) : bool :=
  match a, b with
  | [], [] => true
  | x :: a', y :: b' => ascii_eqb x y && str_eqb a' b'
  | _, _ => false
  end.

(** [t.startswith(p)] *)
Fixpoint startswith (p t : str) : bool :=
  match p, t with
  | [], _ => true
  | x :: p', y :: t' => ascii_eqb x y && startswith p' t'
  | _ :: _, [] => false
  end.

(** [t.endswith(p)] *)
Definition endswith (p t : str) : bool := startswith (rev p) (rev t).

(** [sub in t] *)
Fixpoint contains (sub t : str) : bool :=
  startswith sub t ||
  match t with
  | [] => false
  | _ :: t' => contains sub t'
  end.

(** [x in S] for a set (or list) of strings. *)
Definition mem_str (x : str) (S : list str) : bool := existsb (str_eqb x) S.

(** [t.split(sep)] for a one-character separator: always at least one
    field, the fields never contain the separator. *)
Fixpoint split (sep : ascii) (t : str) : list str :=
  match t with
  | [] => [[]]
  | c :: t' =>
      if ascii_eqb c sep then [] :: split sep t'
      else match split sep t' with
           | [] => [[c]]
           | f :: fs => (c :: f) :: fs
           end
  end.

(** Iterating over a text file: the lines keep their newline, the last
    one has none when the file does not end in one, and an empty file
    has no line. *)
Fixpoint readlines (t : str) : list str :=
  match t with
  | [] => []
  | c :: t' =>
      if ascii_eqb c newline then [c] :: readlines t'
      else match readlines t' with
           | [] => [[c]]
           | l :: ls => (c :: l) :: ls
           end
  end.

(** [enumerate(xs, start)] *)
Fixpoint enumerate {A} (start : nat) (xs : list A) : list (nat * A) :=
  match xs with
  | [] => []
  | x :: xs' => (start, x) :: enumerate (S start) xs'
  end.

(** [len(set(t))] *)
Definition distinct_chars (t : str) : nat := length (nodup ascii_dec t).

(** [''.join(parts)] *)
Definition join (parts : list str) : str := concat parts.

End Text.

(* ================================================================== *)
(** ** The fragment of Python's [re] the pattern tables use *)
(* ================================================================== *)

Module Regex.
Import Text.

(** One item of a bracket expression. *)
Inductive item :=
| IChar (c : ascii)          (* a literal character        *)
| IRange (lo hi : ascii)     (* [lo-hi]                    *)
| ISpace                     (* \s                         *)
| IDigit.                    (* \d                         *)

Inductive re :=
| Eps
| Lit (c : ascii)                      (* one literal character   *)
| Any                                  (* .  (no newline)         *)
| Cls (negated : bool) (items : list item)   (* [...] and [^...]  *)
| Seq (a b : re)
| Alt (a b : re)                       (* a|b, a tried first      *)
| Star (a : re)                        (* greedy a*               *)
| Group (a : re)                       (* capturing group 1       *)
| NotAhead (a : re)                    (* (?!a)                   *)
| Bol                                  (* ^                       *)
| Eol.                                 (* $                       *)

Arguments IChar c%_char.
Arguments IRange (lo hi)%_char.
Arguments Lit c%_char.

Record flags := { ignorecase : bool; multiline : bool }.

Definition NOFLAGS := {| ignorecase := false; multiline := false |}.
Definition IGNORECASE := {| ignorecase := true; multiline := false |}.
Definition IGNORECASE_MULTILINE := {| ignorecase := true; multiline := true |}.

Definition item_has (i : item) (c : ascii) : bool :=
  match i with
  | IChar x => ascii_eqb x c
  | IRange lo hi => between (code lo) (code hi) c
  | ISpace => is_space c
  | IDigit => is_digit c
  end.

(** Under IGNORECASE a character is tried as it is, lower-cased and
    upper-cased. *)
Definition item_has_fl (f : flags) (i : item) (c : ascii) : bool :=
  item_has i c ||
  (ignorecase f && (item_has i (lower_char c) || item_has i (upper_char c))).

Definition lit_eq (f : flags) (p c : ascii) : bool :=
  ascii_eqb p c ||
  (ignorecase f && ascii_eqb (lower_char p) (lower_char c)).

Definition cls_has (f : flags) (negated : bool) (items : list item)
  (c : ascii) : bool :=
  xorb negated (existsb (fun i => item_has_fl f i c) items).

(** A position of the matcher: the character before it (if any), the
    text that remains, and what group 1 captured so far. *)
Record pos := { before : option ascii; rest : str; grp : option str }.

Definition step (p : pos) (c : ascii) (t : str) : pos :=
  {| before := Some c; rest := t; grp := grp p |}.

Definition at_bol (f : flags) (p : pos) : bool :=
  match before p with
  | None => true
  | Some c => multiline f && ascii_eqb c newline
  end.

Definition at_eol (f : flags) (p : pos) : bool :=
  match rest p with
  | [] => true
  | c :: t =>
      ascii_eqb c newline &&
      (multiline f || match t with [] => true | _ => false end)
  end.

Definition one (p : pos) (ok : ascii -> bool) {A} (k : pos -> option A)
  : option A :=
  match rest p with
  | c :: t => if ok c then k (step p c t) else None
  | [] => None
  end.

(** The greedy repetition of [body]: one more round of [body] is tried
    first, and only if it moved forward; [fuel] bounds the rounds by the
    length of the text that remains. *)
Fixpoint star_loop {A} (body : pos -> (pos -> option A) -> option A)
  (k : pos -> option A) (fuel : nat) (q : pos) {struct fuel} : option A :=
  match fuel with
  | O => k q
  | S fuel' =>
      match body q (fun q' =>
              if length (rest q') <? length (rest q)
              then star_loop body k fuel' q' else None) with
      | Some v => Some v
      | None => k q
      end
  end.

(** The backtracking matcher, in continuation-passing style: [run f r p k]
    tries the ways [r] can match at [p] in the priority order of [re]
    (left alternative first, longest repetition first) and returns the
    first for which the continuation [k] succeeds. *)
Fixpoint run {A} (f : flags) (r : re) (p : pos) (k : pos -> option A)
  : option A :=
  match r with
  | Eps => k p
  | Lit c => one p (lit_eq f c) k
  | Any => one p (fun c => negb (ascii_eqb c newline)) k
  | Cls n items => one p (cls_has f n items) k
  | Seq a b => run f a p (fun p' => run f b p' k)
  | Alt a b =>
      match run f a p k with
      | Some v => Some v
      | None => run f b p k
      end
  | Star a => star_loop (run f a) k (length (rest p)) p
  | Group a =>
      run f a p (fun p' =>
        k {| before := before p'; rest := rest p';
             grp := Some (firstn (length (rest p) - length (rest p'))
                                 (rest p)) |})
  | NotAhead a =>
      match run f a p (fun _ => Some tt) with
      | Some _ => None
      | None => k p
      end
  | Bol => if at_bol f p then k p else None
  | Eol => if at_eol f p then k p else None
  end.

(** A match object: the matched text [group()] and [group(1)]. *)
Record match_obj := { group0 : str; group1 : option str }.

(** Try the pattern at one position of the text. *)
Definition match_at (f : flags) (r : re) (prev : option ascii) (t : str)
  : option match_obj :=
  run f r {| before := prev; rest := t; grp := None |}
    (fun p' => Some {| group0 := firstn (length t - length (rest p')) t;
                       group1 := grp p' |}).

(** [re.match(r, t, flags)] *)
Definition re_match (f : flags) (r : re) (t : str) : option match_obj :=
  match_at f r None t.

Fixpoint search_from (f : flags) (r : re) (prev : option ascii) (t : str)
  : option match_obj :=
  match match_at f r prev t with
  | Some m => Some m
  | None =>
      match t with
      | [] => None
      | c :: t' => search_from f r (Some c) t'
      end
  end.

(** [re.search(r, t, flags)] *)
Definition re_search (f : flags) (r : re) (t : str) : option match_obj :=
  search_from f r None t.

(** [re.finditer]: the leftmost match, then the leftmost match that
    starts where the previous one ended, and so on.  [skip] counts the
    characters of the current match still to step over. *)
Fixpoint finditer_from (f : flags) (r : re) (prev : option ascii) (t : str)
  (skip : nat) : list match_obj :=
  match skip with
  | S n =>
      match t with
      | [] => []
      | c :: t' => finditer_from f r (Some c) t' n
      end
  | O =>
      match match_at f r prev t with
      | Some m =>
          m :: match t with
               | [] => []
               | c :: t' =>
                   finditer_from f r (Some c) t' (pred (length (group0 m)))
               end
      | None =>
          match t with
          | [] => []
          | c :: t' => finditer_from f r (Some c) t' 0
          end
      end
  end.

Definition finditer (f : flags) (r : re) (t : str) : list match_obj :=
  finditer_from f r None t 0.

(** *** Pattern syntax *)

Fixpoint lit_chars (t : str) : re :=
  match t with
  | [] => Eps
  | [c] => Lit c
  | c :: t' => Seq (Lit c) (lit_chars t')
  end.

(** A run of literal characters. *)
Definition lit (x : string) : re := lit_chars (s x).
Arguments lit x%_string.

(** a? *)
Definition Opt (a : re) : re := Alt a Eps.
(** a+ *)
Definition Plus (a : re) : re := Seq a (Star a).

(** a{n} *)
Fixpoint Rep (n : nat) (a : re) : re :=
  match n with
  | O => Eps
  | S O => a
  | S n' => Seq a (Rep n' a)
  end.

(** a{n,} *)
Definition RepMin (n : nat) (a : re) : re :=
  match n with
  | O => Star a
  | _ => Seq (Rep n a) (Star a)
  end.

(** a{0,n} *)
Fixpoint RepMax (n : nat) (a : re) : re :=
  match n with
  | O => Eps
  | S n' => Opt (Seq a (RepMax n' a))
  end.

(** The characters of a bracket expression given as a string. *)
Definition chars (x : string) : list item := map IChar (s x).
Arguments chars x%_string.

(** a|b|c, the alternatives tried from the left *)
Definition alts (xs : list re) : re :=
  match xs with
  | [] => Eps
  | x :: xs' => fold_left Alt xs' x
  end.

(** Pieces many patterns share: [ws] is \s, [quote] the class of the two
    quote characters and [nonquote] its complement. *)
Definition ws := Cls false [ISpace].
Definition quote := Cls false [IChar dquote; IChar squote].
Definition nonquote := Cls true [IChar dquote; IChar squote].

End Regex.

Module RegexNotations.
Declare Scope re_scope.
Delimit Scope re_scope with re.
Infix "+++" := Regex.Seq (at level 60, right associativity) : re_scope.
End RegexNotations.

(* ================================================================== *)
(** ** Standard-library codecs used by the credential scanner *)
(* ================================================================== *)

Module Codec.
Import Text.

Definition bytes := list N.

(** The value of a character of the base64 alphabet. *)
Definition b64_value (c : ascii) : option N :=
  if is_upper_ascii c then Some (code c - 65)%N
  else if is_lower_ascii c then Some (code c - 97 + 26)%N
  else if is_digit c then Some (code c - 48 + 52)%N
  else if (code c =? 43)%N then Some 62%N
  else if (code c =? 47)%N then Some 63%N
  else None.

Definition is_pad (c : ascii) : bool := (code c =? 61)%N.

(** [binascii.a2b_base64] in its default, lenient mode: characters
    outside the alphabet are skipped, padding ends the data once a group
    of four is complete, and a group left incomplete at the end of the
    input is an error ([None] stands for [binascii.Error]). *)
Fixpoint a2b_base64 (t : str) (quad_pos : nat) (leftchar : N) (pads : nat)
  (out : bytes) : option bytes :=
  match t with
  | [] => if quad_pos =? 0 then Some (rev out) else None
  | c :: t' =>
      if is_pad c then
        if 2 <=? quad_pos then
          if 4 <=? quad_pos + S pads then Some (rev out)
          else a2b_base64 t' quad_pos leftchar (S pads) out
        else a2b_base64 t' quad_pos leftchar pads out
      else
        match b64_value c with
        | None => a2b_base64 t' quad_pos leftchar pads out
        | Some v =>
            match quad_pos with
            | 0 => a2b_base64 t' 1 v 0 out
            | 1 => a2b_base64 t' 2 (N.land v 15) 0
                     (N.lor (N.shiftl leftchar 2) (N.shiftr v 4) :: out)
            | 2 => a2b_base64 t' 3 (N.land v 3) 0
                     (N.lor (N.shiftl leftchar 4) (N.shiftr v 2) :: out)
            | _ => a2b_base64 t' 0 0%N 0
                     (N.lor (N.shiftl leftchar 6) v :: out)
            end
        end
  end.

(** [base64.b64decode(text)] for a [str] argument: the text is first
    encoded as ASCII, which fails on any code point above 127. *)
Definition b64decode (t : str) : option bytes :=
  if forallb (fun c => (code c <? 128)%N) t
  then a2b_base64 t 0 0%N 0 []
  else None.

Definition cont (b : N) : bool := ((128 <=? b) && (b <=? 191))%N.
Definition in_range (lo hi b : N) : bool := ((lo <=? b) && (b <=? hi))%N.

(** Whether [decoded.decode('utf-8')] succeeds: the well-formed byte
    sequences of the Unicode standard (no overlong forms, no surrogates,
    nothing above U+10FFFF). *)
Fixpoint utf8_ok (b : bytes) : bool :=
  match b with
  | [] => true
  | b0 :: t =>
      if (b0 <=? 127)%N then utf8_ok t
      else if in_range 194 223 b0 then
        match t with
        | b1 :: t1 => cont b1 && utf8_ok t1
        | _ => false
        end
      else if in_range 224 239 b0 then
        match t with
        | b1 :: b2 :: t2 =>
            (if (b0 =? 224)%N then in_range 160 191 b1
             else if (b0 =? 237)%N then in_range 128 159 b1
             else cont b1)
            && cont b2 && utf8_ok t2
        | _ => false
        end
      else if in_range 240 244 b0 then
        match t with
        | b1 :: b2 :: b3 :: t3 =>
            (if (b0 =? 240)%N then in_range 144 191 b1
             else if (b0 =? 244)%N then in_range 128 143 b1
             else cont b1)
            && cont b2 && cont b3 && utf8_ok t3
        | _ => false
        end
      else false
  end.

End Codec.

(* ================================================================== *)
(** ** Exceptions *)
(* ================================================================== *)

Module Exn.
Import Text.

(** The exception classes that matter to the scripts, with
    [AnyException] for the class [Exception] itself and [OtherError] for
    every subclass of [Exception] not named here.  Exceptions that are not
    instances of [Exception] (a keyboard interrupt, an exit request) are
    raised by the interpreter between instructions and are not part of
    the model. *)
Inductive cls :=
| AnyException
| ParseError            (* xml.etree.ElementTree.ParseError *)
| ExpatError            (* xml.parsers.expat.ExpatError     *)
| OSError
| FileNotFoundError
| OtherError.

Record exn := { class : cls; text : str }.

Definition cls_eqb (a b : cls) : bool :=
  match a, b with
  | AnyException, AnyException | ParseError, ParseError
  | ExpatError, ExpatError | OSError, OSError
  | FileNotFoundError, FileNotFoundError | OtherError, OtherError => true
  | _, _ => false
  end.

(** [issubclass(c, d)] *)
Definition subclass (c d : cls) : bool :=
  match d with
  | AnyException => true
  | OSError => cls_eqb c OSError || cls_eqb c FileNotFoundError
  | _ => cls_eqb c d
  end.

Inductive result (A : Type) :=
| Return (a : A)
| Raise (e : exn).
Arguments Return {A} a.
Arguments Raise {A} e.

Definition bind {A B} (m : result A) (k : A -> result B) : result B :=
  match m with
  | Return a => k a
  | Raise e => Raise e
  end.

(** The first clause whose class the exception is an instance of. *)
Fixpoint handle {A} (clauses : list (cls * (exn -> result A))) (e : exn)
  : result A :=
  match clauses with
  | [] => Raise e
  | (c, h) :: clauses' =>
      if subclass (class e) c then h e else handle clauses' e
  end.

(** [try: body  except c1 as e: ...  except c2 as e: ...] *)
Definition try_except {A} (body : result A)
  (clauses : list (cls * (exn -> result A))) : result A :=
  match body with
  | Return a => Return a
  | Raise e => handle clauses e
  end.

End Exn.

(* ================================================================== *)
(** ** Files *)
(* ================================================================== *)

Module Fs.
Import Text Exn.

(** What [open(path, 'r', encoding='utf-8', errors='ignore')] followed by
    reading gives.  [Content text]: the file opens and reading delivers
    the decoded text (newlines already translated).  [OpenError e]:
    [open] raises [e].  [ReadError read e]: the file opens and reading
    fails part of the way with [e].  Then [f.read()] raises [e] and
    returns nothing, while a loop over the lines of the file runs through
    the lines of [read], the part handed over before the failure, and
    raises [e] when it asks for the next one. *)
Inductive file :=
| Content (text : str)
| OpenError (e : exn)
| ReadError (read : str) (e : exn).

Definition fs := str -> file.

End Fs.

(* ================================================================== *)
(** ** hooks/detect-hardcoded-credentials.py *)
(* ================================================================== *)

Module Credentials.
Import Text Regex RegexNotations Codec Fs.
Local Open Scope re_scope.

(** Pieces the patterns share: [assign] is the class of colon and equals
    sign, and [sep] an optional underscore or hyphen. *)
Definition assign := Cls false (chars ":=").
Definition sep := Opt (Cls false (chars "_-")).
Definition alnum :=
  Cls false [IRange "A" "Z"; IRange "a" "z"; IRange "0" "9"].

(** key \s* assign \s* quote body quote *)
Definition assigned (key body : re) : re :=
  key +++ Star ws +++ assign +++ Star ws +++ quote +++ body +++ quote.

(** the same with a body of at least [n] characters that are not quotes *)
Definition quoted (key : re) (n : nat) : re :=
  assigned key (RepMin n nonquote).

Definition CREDENTIAL_PATTERNS : list (str * list re) :=
  [ (s "password",
      [ quoted (lit "password") 3;
        quoted (lit "pwd") 3;
        quoted (lit "passwd") 3;
        quoted (lit "secret") 8 ]);
    (s "api_key",
      [ quoted (lit "api" +++ sep +++ lit "key") 10;
        quoted (lit "apikey") 10;
        assigned (lit "key") (RepMin 20 alnum) ]);
    (s "token",
      [ quoted (lit "token") 10;
        quoted (lit "auth" +++ sep +++ lit "token") 10;
        quoted (lit "access" +++ sep +++ lit "token") 10;
        quoted (lit "bearer") 10 ]);
    (s "database",
      [ quoted (lit "db" +++ sep +++ lit "password") 3;
        quoted (lit "database" +++ sep +++ lit "password") 3;
        assigned (lit "connection" +++ sep +++ lit "string")
          (Star nonquote +++ lit "password" +++ Star nonquote) ]);
    (s "private_key",
      [ quoted (lit "private" +++ sep +++ lit "key") 20;
        lit "-----BEGIN" +++ Plus ws +++ Opt (lit "RSA" +++ Plus ws)
          +++ lit "PRIVATE" +++ Plus ws +++ lit "KEY-----";
        lit "-----BEGIN" +++ Plus ws +++ lit "OPENSSH" +++ Plus ws
          +++ lit "PRIVATE" +++ Plus ws +++ lit "KEY-----" ]);
    (s "aws",
      [ quoted (lit "aws" +++ sep +++ lit "secret" +++ sep +++ lit "access"
                +++ sep +++ lit "key") 20;
        assigned (lit "aws" +++ sep +++ lit "access" +++ sep +++ lit "key"
                  +++ sep +++ lit "id")
          (lit "AKIA"
           +++ Rep 16 (Cls false [IRange "0" "9"; IRange "A" "Z"])) ]);
    (s "generic_secret",
      [ quoted (lit "secret" +++ sep +++ lit "key") 10;
        quoted (lit "client" +++ sep +++ lit "secret") 10;
        quoted (lit "app" +++ sep +++ lit "secret") 10 ]) ].

Definition SAFE_VALUES : list str :=
  map s
    [ "password"; "secret"; "key"; "token"; "your_password_here"; "change_me";
      "example"; "sample"; "test"; "demo"; "placeholder"; "dummy"; "fake";
      "***"; "..."; "xxx"; "yyy"; "zzz"; "your_api_key_here";
      "your_secret_here"; "insert_your_key_here"; "replace_with_your_key";
      "your_token_here"; "12345"; "123456"; "qwerty"; "admin"; "root";
      "user" ]%string.

Definition SKIP_EXTENSIONS : list str :=
  map s [ ".png"; ".jpg"; ".jpeg"; ".gif"; ".ico"; ".svg"; ".pdf"; ".zip";
          ".tar"; ".gz" ]%string.

Definition SAFE_CONTEXT_PATTERNS : list re :=
  [ Bol +++ Star ws +++ lit "#";
    Bol +++ Star ws +++ lit "//";
    Bol +++ Star ws +++ lit "/*";
    Bol +++ Star ws +++ lit "*";
    Bol +++ Star ws +++ lit "<!--";
    lit "test" +++ Star Any;
    Star Any +++ lit "test" +++ Star Any;
    lit "example" +++ Star Any;
    Star Any +++ lit "example" +++ Star Any;
    lit "sample" +++ Star Any;
    Star Any +++ lit "sample" +++ Star Any;
    lit "mock" +++ Star Any;
    Star Any +++ lit "mock" +++ Star Any;
    lit "placeholder" +++ Star Any;
    Star Any +++ lit "placeholder" +++ Star Any ].

Definition is_some {A} (o : option A) : bool :=
  match o with Some _ => true | None => false end.

Definition TEST_INDICATORS : list str :=
  map s [ "test"; "spec"; "mock"; "example"; "sample"; "demo" ]%string.

Definition is_safe_context (line file_path : str) : bool :=
  if existsb (fun test_indicator => contains test_indicator (lower file_path))
       TEST_INDICATORS
  then true
  else existsb (fun pattern => is_some (re_match NOFLAGS pattern (lower line)))
         SAFE_CONTEXT_PATTERNS.

Definition placeholder_indicators : list str :=
  map s [ "your_"; "insert_"; "replace_"; "change_"; "enter_"; "add_";
          "put_" ]%string.

Definition is_safe_value (value : str) : bool :=
  let clean_value := lower (strip_chars [squote; dquote] value) in
  if mem_str clean_value SAFE_VALUES then true
  else if length clean_value <? 4 then true
  else if distinct_chars clean_value =? 1 then true
  else if existsb (fun indicator => contains indicator clean_value)
            placeholder_indicators then true
  else false.

(** [m.group(1)] of a match whose pattern always fills group 1. *)
Definition group_1 (m : match_obj) : str :=
  match group1 m with Some g => g | None => [] end.

Definition extract_credential_value (match_text : str) : str :=
  match re_search NOFLAGS (quote +++ Group (Plus nonquote) +++ quote)
          match_text with
  | Some quote_match => group_1 quote_match
  | None =>
      match re_search NOFLAGS
              (assign +++ Star ws +++
               Group (Plus (Cls true [ISpace; IChar squote; IChar dquote])))
              match_text with
      | Some value_match => group_1 value_match
      | None => match_text
      end
  end.

(** ^[A-Za-z0-9+/]*={0,2}$ *)
Definition BASE64_RE : re :=
  Bol +++ Star (Cls false [IRange "A" "Z"; IRange "a" "z"; IRange "0" "9";
                           IChar "+"; IChar "/"])
      +++ RepMax 2 (Lit "=") +++ Eol.

Definition is_base64_encoded (text : str) : bool :=
  if (length text mod 4 =? 0) && is_some (re_match NOFLAGS BASE64_RE text)
  then
    match b64decode text with
    | Some decoded =>
        if utf8_ok decoded then 20 <? length text else false
    | None => false
    end
  else false.

(** An entry of [issues]: (line_num, line_content, cred_type, value). *)
Definition issue := (nat * str * str * str)%type.

Definition line_num (i : issue) : nat := fst (fst (fst i)).
Definition line_content (i : issue) : str := snd (fst (fst i)).
Definition cred_type (i : issue) : str := snd (fst i).
Definition value (i : issue) : str := snd i.

(** The body of the innermost loop: what one match adds to [issues]. *)
Definition check_match (file_path : str) (n : nat) (line cred : str)
  (m : match_obj) : list issue :=
  let match_text := group0 m in
  let credential_value := extract_credential_value match_text in
  if is_safe_value credential_value then []
  else if is_safe_context line file_path then
    if (30 <? length credential_value) || is_base64_encoded credential_value
    then [(n, strip line, cred, credential_value)]
    else []
  else [(n, strip line, cred, credential_value)].

(** The body of the loop over the lines. *)
Definition scan_line (file_path : str) (n : nat) (line : str) : list issue :=
  match strip line with
  | [] => []
  | _ =>
      flat_map (fun entry : str * list re =>
        let (cred, patterns) := entry in
        flat_map (fun pattern =>
          flat_map (check_match file_path n line cred)
                   (finditer IGNORECASE pattern line))
          patterns)
        CREDENTIAL_PATTERNS
  end.

Definition scan_content (file_path content : str) : list issue :=
  flat_map (fun nl : nat * str => scan_line file_path (fst nl) (snd nl))
           (enumerate 1 (split newline content)).

(** What the script writes, one constructor per [print] call. *)
Inductive line :=
| ErrorReading (file_path msg : str)          (* to stderr *)
| FoundIn (file_path : str)
| IssueLine (n : nat) (cred_upper : str)
| IssueValue (shown : str)
| IssueContext (line_content : str)
| FoundTotal (total : nat)
| Advice (k : nat)
| NoneDetected.

Inductive event := Stdout (l : line) | Stderr (l : line).

(** [find_hardcoded_credentials]: the issues and what went to stderr.
    The text is read whole before the first line is scanned, so a read
    that fails leaves [issues] empty. *)
Definition find_hardcoded_credentials (disk : fs) (file_path : str)
  : list issue * list event :=
  if existsb (fun ext => endswith ext file_path) SKIP_EXTENSIONS then ([], [])
  else
    match disk file_path with
    | Content content => (scan_content file_path content, [])
    | OpenError e | ReadError _ e =>
        ([], [Stderr (ErrorReading file_path (Exn.text e))])
    end.

Record args := { files : list str; show_values : bool }.

Record state := { exit_code : nat; total_issues : nat; trace : list event }.

Definition print_issue (a : args) (i : issue) : list event :=
  [ Stdout (IssueLine (line_num i) (upper (cred_type i)));
    Stdout (IssueValue
              (if show_values a then value i
               else repeat "*"%char (Nat.min (length (value i)) 20)));
    Stdout (IssueContext (line_content i)) ].

(** One iteration of the loop of [main]. *)
Definition main_step (disk : fs) (a : args) (st : state) (file_path : str)
  : state :=
  let (issues, err) := find_hardcoded_credentials disk file_path in
  match issues with
  | [] => {| exit_code := exit_code st; total_issues := total_issues st;
             trace := trace st ++ err |}
  | _ => {| exit_code := 1;
            total_issues := total_issues st + length issues;
            trace := trace st ++ err ++ Stdout (FoundIn file_path)
                       :: flat_map (print_issue a) issues |}
  end.

Definition main_loop (disk : fs) (a : args) : state :=
  fold_left (main_step disk a) (files a)
    {| exit_code := 0; total_issues := 0; trace := [] |}.

(** [main]: the exit code and everything written. *)
Definition main (disk : fs) (a : args) : nat * list event :=
  let st := main_loop disk a in
  (exit_code st,
   trace st ++
   (if 0 <? total_issues st
    then [Stdout (FoundTotal (total_issues st)); Stdout (Advice 1);
          Stdout (Advice 2); Stdout (Advice 3)]
    else [Stdout NoneDetected])).

End Credentials.

(* ================================================================== *)
(** ** hooks/detect-hardcoded-urls.py *)
(* ================================================================== *)

Module Urls.
Import Text Regex RegexNotations Fs.
Local Open Scope re_scope.

(** The class of what may not occur in a URL: white space, the two
    quotes, the closing angle and the closing square bracket. *)
Definition url_char :=
  Cls true [ISpace; IChar squote; IChar dquote; IChar ">"; IChar "]"].

Definition URL_PATTERNS : list re :=
  [ lit "http" +++ Opt (Lit "s") +++ lit "://" +++ Plus url_char;
    lit "ftp://" +++ Plus url_char;
    alts [lit "jdbc"; lit "mongodb"; lit "mysql"; lit "postgresql"]
      +++ lit "://" +++ Plus url_char;
    Alt (lit "api.") (lit "www.")
      +++ Plus (Cls false [IRange "a" "z"; IRange "A" "Z"; IRange "0" "9";
                           IChar "."; IChar "-"])
      +++ Lit "."
      +++ RepMin 2 (Cls false [IRange "a" "z"; IRange "A" "Z"])
      +++ Opt (Lit "/" +++ Star url_char) ].

(** https?:// followed by [r] *)
Definition web (r : re) : re :=
  lit "http" +++ Opt (Lit "s") +++ lit "://" +++ r.

Definition SAFE_URL_PATTERNS : list re :=
  [ web (lit "localhost");
    web (lit "127.0.0.1");
    web (lit "0.0.0.0");
    web (lit "example.com");
    web (lit "example.org");
    web (lit "example.net");
    web (Star Any +++ lit ".example.com");
    web (Star Any +++ lit ".test");
    web (Star Any +++ lit ".local");
    web (Star Any +++ lit ".localhost");
    web (lit "github.com/" +++ Star Any);
    web (lit "docs." +++ Star Any);
    web (lit "www.w3.org/" +++ Star Any);
    web (lit "tools.ietf.org/" +++ Star Any);
    web (lit "schemas." +++ Star Any);
    web (lit "registry.npmjs.org/" +++ Star Any);
    web (lit "pypi.org/" +++ Star Any);
    web (lit "central.maven.org/" +++ Star Any) ].

Definition SKIP_EXTENSIONS : list str :=
  map s [ ".png"; ".jpg"; ".jpeg"; ".gif"; ".ico"; ".svg"; ".pdf"; ".zip";
          ".tar"; ".gz" ]%string.

Definition COMMENT_PATTERNS : list re :=
  [ Bol +++ Star ws +++ lit "#";
    Bol +++ Star ws +++ lit "//";
    Bol +++ Star ws +++ lit "/*";
    Bol +++ Star ws +++ lit "*";
    Bol +++ Star ws +++ lit "<!--" ].

Definition is_some {A} (o : option A) : bool :=
  match o with Some _ => true | None => false end.

Definition is_in_comment (line : str) : bool :=
  existsb (fun pattern => is_some (re_match NOFLAGS pattern line))
          COMMENT_PATTERNS.

Definition is_safe_url (url : str) : bool :=
  existsb (fun pattern => is_some (re_match IGNORECASE pattern url))
          SAFE_URL_PATTERNS.

Definition SUSPICIOUS_KEYWORDS : list str :=
  map s [ "api"; "prod"; "staging"; "internal"; "admin" ]%string.

(** An entry of [issues]: (line_num, line_content, url). *)
Definition issue := (nat * str * str)%type.

Definition line_num (i : issue) : nat := fst (fst i).
Definition line_content (i : issue) : str := snd (fst i).
Definition url_of (i : issue) : str := snd i.

(** The body of the innermost loop. *)
Definition check_match (n : nat) (line : str) (m : match_obj) : list issue :=
  let url := group0 m in
  if is_safe_url url then []
  else if is_in_comment line then
    if existsb (fun keyword => contains keyword (lower url))
         SUSPICIOUS_KEYWORDS
    then [(n, strip line, url)]
    else []
  else [(n, strip line, url)].

Definition scan_line (n : nat) (line : str) : list issue :=
  match strip line with
  | [] => []
  | _ =>
      flat_map (fun pattern =>
        flat_map (check_match n line) (finditer IGNORECASE pattern line))
        URL_PATTERNS
  end.

Definition scan_content (content : str) : list issue :=
  flat_map (fun nl : nat * str => scan_line (fst nl) (snd nl))
           (enumerate 1 (readlines content)).

Inductive line :=
| ErrorReading (file_path msg : str)          (* to stderr *)
| FoundIn (file_path : str)
| IssueLine (n : nat) (url : str)
| IssueContext (line_content : str)
| FoundTotal (total : nat)
| Advice (k : nat)
| NoneDetected.

Inductive event := Stdout (l : line) | Stderr (l : line).

(** [find_hardcoded_urls]: the issues and what went to stderr.  The
    lines are scanned as the loop reads them, inside the [try], so a
    read that fails part of the way leaves in [issues] what the lines
    read so far have put there. *)
Definition find_hardcoded_urls (disk : fs) (file_path : str)
  : list issue * list event :=
  if existsb (fun ext => endswith ext file_path) SKIP_EXTENSIONS then ([], [])
  else
    match disk file_path with
    | Content content => (scan_content content, [])
    | OpenError e => ([], [Stderr (ErrorReading file_path (Exn.text e))])
    | ReadError read e =>
        (scan_content read, [Stderr (ErrorReading file_path (Exn.text e))])
    end.

(** [--exclude-comments] is parsed and never read. *)
Record args := { files : list str; exclude_comments : bool }.

Record state := { exit_code : nat; total_issues : nat; trace : list event }.

Definition print_issue (i : issue) : list event :=
  [ Stdout (IssueLine (line_num i) (url_of i));
    Stdout (IssueContext (line_content i)) ].

Definition main_step (disk : fs) (st : state) (file_path : str) : state :=
  let (issues, err) := find_hardcoded_urls disk file_path in
  match issues with
  | [] => {| exit_code := exit_code st; total_issues := total_issues st;
             trace := trace st ++ err |}
  | _ => {| exit_code := 1;
            total_issues := total_issues st + length issues;
            trace := trace st ++ err ++ Stdout (FoundIn file_path)
                       :: flat_map print_issue issues |}
  end.

Definition main_loop (disk : fs) (a : args) : state :=
  fold_left (main_step disk) (files a)
    {| exit_code := 0; total_issues := 0; trace := [] |}.

Definition main (disk : fs) (a : args) : nat * list event :=
  let st := main_loop disk a in
  (exit_code st,
   trace st ++
   (if 0 <? total_issues st
    then [Stdout (FoundTotal (total_issues st)); Stdout (Advice 1);
          Stdout (Advice 2)]
    else [Stdout NoneDetected])).

End Urls.

(* ================================================================== *)
(** ** The part of [pathlib] the license checker uses (POSIX flavour) *)
(* ================================================================== *)

Module Pathlib.
Import Text.

Definition slash : ascii := chr 47.
Definition dot : ascii := chr 46.

Definition is_nil (t : str) : bool :=
  match t with [] => true | _ => false end.

(** [Path(p).parts]: the root, when there is one, then the components;
    empty components and single dots are dropped. *)
Definition parts (p : str) : list str :=
  let comps :=
    filter (fun c => negb (is_nil c) && negb (str_eqb c [dot]))
           (split slash p) in
  if startswith [slash; slash] p && negb (startswith [slash; slash; slash] p)
  then [slash; slash] :: comps
  else if startswith [slash] p then [slash] :: comps
  else comps.

(** [Path(p).name] *)
Definition name (p : str) : str :=
  last (filter (fun c => negb (is_nil c) && negb (str_eqb c [dot]))
               (split slash p)) [].

(** The position of the last dot, as [str.rfind] gives it. *)
Fixpoint rfind_dot (t : str) (i : nat) (found : option nat) : option nat :=
  match t with
  | [] => found
  | c :: t' => rfind_dot t' (S i) (if ascii_eqb c dot then Some i else found)
  end.

(** [Path(p).suffix]: from the last dot of the name on, unless that dot
    is the first or the last character of the name. *)
Definition suffix (p : str) : str :=
  let nm := name p in
  match rfind_dot nm 0 None with
  | Some i => if (0 <? i) && (i <? length nm - 1) then skipn i nm else []
  | None => []
  end.

End Pathlib.

(* ================================================================== *)
(** ** hooks/check-license.py *)
(* ================================================================== *)

Module License.
Import Text Regex RegexNotations Fs.
Local Open Scope re_scope.

Definition digit4 := Rep 4 (Cls false [IDigit]).

Definition LICENSE_PATTERNS : list (str * list re) :=
  [ (s "apache",
      [ lit "Licensed under the Apache License";
        lit "Apache License" +++ Star Any +++ lit "Version 2.0" ]);
    (s "mit",
      [ lit "MIT License";
        lit "Permission is hereby granted, free of charge" ]);
    (s "gpl",
      [ lit "GNU General Public License";
        lit "This program is free software" ]);
    (s "bsd",
      [ lit "BSD License";
        lit "Redistribution and use in source and binary forms" ]);
    (s "copyright",
      [ lit "Copyright" +++ Star Any +++ digit4;
        lit "(c)" +++ Star Any +++ digit4;
        Lit (chr 169) +++ Star Any +++ digit4 ]) ].

Definition HEADER_REQUIRED_EXTENSIONS : list str :=
  map s [ ".py"; ".java"; ".js"; ".ts"; ".cpp"; ".c"; ".h"; ".hpp";
          ".cs"; ".go"; ".rs"; ".php"; ".rb"; ".scala"; ".swift" ]%string.

Definition SKIP_EXTENSIONS : list str :=
  map s [ ".md"; ".txt"; ".json"; ".xml"; ".yaml"; ".yml"; ".toml";
          ".png"; ".jpg"; ".jpeg"; ".gif"; ".ico"; ".svg"; ".pdf" ]%string.

Definition SKIP_DIRECTORIES : list str :=
  map s [ "node_modules"; ".git"; "vendor"; "build"; "dist"; "target";
          ".pytest_cache"; "__pycache__"; ".venv"; "venv" ]%string.

Definition should_check_file (file_path : str) : bool :=
  if existsb (fun part => mem_str part SKIP_DIRECTORIES)
       (Pathlib.parts file_path)
  then false
  else if mem_str (Pathlib.suffix file_path) SKIP_EXTENSIONS then false
  else mem_str (Pathlib.suffix file_path) HEADER_REQUIRED_EXTENSIONS.

(** [read_file_head(file_path, lines)]; the empty text when [open] or
    the loop over the lines raises.  The loop leaves by [break] on the
    line after the last one it keeps: a read that fails later than that
    line goes unnoticed, an earlier failure gives the empty text. *)
Definition read_file_head (disk : fs) (file_path : str) (lines : nat) : str :=
  match disk file_path with
  | Content text => join (firstn lines (readlines text))
  | OpenError _ => []
  | ReadError read _ =>
      if lines <? length (readlines read)
      then join (firstn lines (readlines read))
      else []
  end.

Definition is_some {A} (o : option A) : bool :=
  match o with Some _ => true | None => false end.

(** The license types found in a head: one entry per type, for the first
    of its patterns that matches. *)
Definition found_in (head_content : str) : list str :=
  flat_map (fun entry : str * list re =>
    let (license_type, patterns) := entry in
    if existsb (fun pattern =>
         is_some (re_search IGNORECASE_MULTILINE pattern head_content))
         patterns
    then [license_type] else [])
    LICENSE_PATTERNS.

Definition has_license_header (disk : fs) (file_path : str)
  : bool * list str :=
  let head_content := read_file_head disk file_path 20 in
  let found_licenses := found_in head_content in
  (0 <? length found_licenses, found_licenses).

Record args :=
  { files : list str; require_license : bool; license_type : option str }.

Inductive line :=
| WrongLicense (file_path wanted : str) (found : list str)
| HeaderFound (file_path : str) (found : list str)
| MissingHeader (file_path : str)             (* with --require-license *)
| NoHeaderFound (file_path : str)             (* the warning without it  *)
| Summary (checked with_license without_license : nat)
| ConsiderAdding
| AddTo (file_path : str)
| AndMore (more : nat)
| NoSourceFiles.

Record state :=
  { exit_code : nat; checked_files : nat; files_with_license : nat;
    files_without_license : list str; trace : list line }.

Definition set_exit (b : bool) (old : nat) : nat := if b then 1 else old.

Definition main_step (disk : fs) (a : args) (st : state) (file_path : str)
  : state :=
  if negb (should_check_file file_path) then st
  else
    let (has_license, found_licenses) := has_license_header disk file_path in
    if has_license then
      match license_type a with
      | Some wanted =>
          if negb (mem_str wanted found_licenses) then
            {| exit_code := set_exit (require_license a) (exit_code st);
               checked_files := S (checked_files st);
               files_with_license := S (files_with_license st);
               files_without_license := files_without_license st;
               trace := trace st ++
                        [WrongLicense file_path wanted found_licenses] |}
          else
            {| exit_code := exit_code st;
               checked_files := S (checked_files st);
               files_with_license := S (files_with_license st);
               files_without_license := files_without_license st;
               trace := trace st ++ [HeaderFound file_path found_licenses] |}
      | None =>
          {| exit_code := exit_code st;
             checked_files := S (checked_files st);
             files_with_license := S (files_with_license st);
             files_without_license := files_without_license st;
             trace := trace st ++ [HeaderFound file_path found_licenses] |}
      end
    else
      {| exit_code := set_exit (require_license a) (exit_code st);
         checked_files := S (checked_files st);
         files_with_license := files_with_license st;
         files_without_license := files_without_license st ++ [file_path];
         trace := trace st ++
                  [if require_license a then MissingHeader file_path
                   else NoHeaderFound file_path] |}.

Definition main_loop (disk : fs) (a : args) : state :=
  fold_left (main_step disk a) (files a)
    {| exit_code := 0; checked_files := 0; files_with_license := 0;
       files_without_license := []; trace := [] |}.

Definition summary (a : args) (st : state) : list line :=
  if 0 <? checked_files st then
    Summary (checked_files st) (files_with_license st)
            (length (files_without_license st))
    :: match files_without_license st with
       | [] => []
       | missing =>
           if require_license a then []
           else ConsiderAdding :: map AddTo (firstn 5 missing)
                ++ (if 5 <? length missing
                    then [AndMore (length missing - 5)] else [])
       end
  else [NoSourceFiles].

Definition main (disk : fs) (a : args) : nat * list line :=
  let st := main_loop disk a in
  (exit_code st, trace st ++ summary a st).

End License.

(* ================================================================== *)
(** ** hooks/check_xml.py *)
(* ================================================================== *)

Module Xml.
Import Text Exn Fs.

Inductive message :=
| XmlParseError (e : str)      (* XML Parse Error: e   *)
| XmlSyntaxError (e : str)     (* XML Syntax Error: e  *)
| UnexpectedError (e : str).   (* Unexpected error: e  *)

Inductive line :=
| ValidXml (file_path : str)
| Invalid (file_path : str) (error_msg : option message)
| FileNotFound (file_path : str).

Record state := { exit_code : nat; trace : list line }.

Section WithParser.

(** The library's parser on the text of a file: it either returns a tree
    (which the script drops) or raises.  The parser is fed as the file
    is read: [expat_fed read] is the exception it has raised, if any,
    once it has been fed [read], the part of a text read before a
    failure. *)
Variable expat : str -> result unit.
Variable expat_fed : str -> option exn.
Variable disk : fs.

(** [ET.parse(file_path)]: it opens and reads the file itself, so the
    exception of a failed [open] or of a failed read is raised from
    here, the latter unless the part read has made the parser raise
    first. *)
Definition ET_parse (file_path : str) : result unit :=
  match disk file_path with
  | Content text => expat text
  | OpenError e => Raise e
  | ReadError read e =>
      match expat_fed read with
      | Some parse_error => Raise parse_error
      | None => Raise e
      end
  end.

Definition validate_xml_file (file_path : str)
  : result (bool * option message) :=
  try_except
    (bind (ET_parse file_path) (fun _ => Return (true, None)))
    [ (ParseError, fun e => Return (false, Some (XmlParseError (text e))));
      (ExpatError, fun e => Return (false, Some (XmlSyntaxError (text e))));
      (AnyException,
        fun e => Return (false, Some (UnexpectedError (text e)))) ].

(** One iteration of the loop of [main]; an exception that no clause
    handles leaves [main]. *)
Definition main_step (st : state) (file_path : str) : result state :=
  try_except
    (bind (validate_xml_file file_path) (fun r =>
       let (is_valid, error_msg) := r in
       if is_valid
       then Return {| exit_code := exit_code st;
                      trace := trace st ++ [ValidXml file_path] |}
       else Return {| exit_code := 1;
                      trace := trace st ++ [Invalid file_path error_msg] |}))
    [ (FileNotFoundError,
        fun _ => Return {| exit_code := 1;
                           trace := trace st ++ [FileNotFound file_path] |}) ].

Fixpoint main_loop (st : state) (files : list str) : result state :=
  match files with
  | [] => Return st
  | file_path :: files' =>
      bind (main_step st file_path) (fun st' => main_loop st' files')
  end.

Definition main (files : list str) : result (nat * list line) :=
  bind (main_loop {| exit_code := 0; trace := [] |} files)
       (fun st => Return (exit_code st, trace st)).

End WithParser.

End Xml.

(* ================================================================== *)
(** ** What detect-verbose-flags.py, dotnet-security-scan.py and
       ansible-security-scan.py share *)
(* ================================================================== *)

Module SeverityScan.
Import Text Regex RegexNotations Fs.

(** An entry of [issues]:
    (line_num, line_content, pattern_name, description). *)
Definition issue := (nat * str * str * str)%type.

Definition pattern_name (i : issue) : str := snd (fst i).

(** The value of a key of a pattern table. *)
Record entry := { patterns : list re; description : str; severity : str }.

(** [table[key]] for a dictionary written as a list of pairs. *)
Fixpoint lookup {V} (key : str) (table : list (str * V)) : option V :=
  match table with
  | [] => None
  | (k, v) :: table' => if str_eqb k key then Some v else lookup key table'
  end.

(** [table[key] = v]: an existing key keeps its place. *)
Fixpoint assign {V} (key : str) (v : V) (table : list (str * V))
  : list (str * V) :=
  match table with
  | [] => [(key, v)]
  | (k, w) :: table' =>
      if str_eqb k key then (k, v) :: table'
      else (k, w) :: assign key v table'
  end.

Definition severity_levels : list (str * nat) :=
  [ (s "low", 1); (s "medium", 2); (s "high", 3) ].

(** [severity_levels.get(name, 1)] *)
Definition level (name : str) : nat :=
  match lookup name severity_levels with Some n => n | None => 1 end.

Definition is_some {A} (o : option A) : bool :=
  match o with Some _ => true | None => false end.

Definition is_nil (t : str) : bool :=
  match t with [] => true | _ => false end.

(** The loop over the table that the three checks run on a line: one
    issue for every pattern that is found in the line, unless [muted]
    says that the entry is to be passed over. *)
Definition scan_patterns (PATTERNS : list (str * entry))
  (muted : entry -> bool) (n : nat) (line : str) : list issue :=
  flat_map (fun item : str * entry =>
    let (name, pattern_info) := item in
    flat_map (fun pattern =>
      if is_some (re_search IGNORECASE pattern line) then
        if muted pattern_info then []
        else [(n, strip line, name, description pattern_info)]
      else [])
      (patterns pattern_info))
    PATTERNS.

(** What the scripts write, one constructor per [print] call; all but
    the first go to stdout. *)
Inductive line :=
| ErrorAnalyzing (file_path msg : str)        (* to stderr *)
| FoundIn (file_path : str)
| IssueLine (n : nat) (name : str)
| IssueDescription (description : str)
| IssueCode (line_content : str)
| JsonDump (all_results : list (str * list issue))
| FoundTotal (total : nat)
| Advice (k : nat)
| NoneDetected.

Definition to_stderr (l : line) : bool :=
  match l with ErrorAnalyzing _ _ => true | _ => false end.

(** The [except] clause of the three checks: the issues found before
    the exception are returned, after a message on stderr. *)
Definition analysis_failed (file_path : str) (e : Exn.exn)
  (issues : list issue) : list issue * list line :=
  (issues, [ErrorAnalyzing file_path (Exn.text e)]).

Record args :=
  { files : list str; severity_option : option str; json : bool;
    exclude_safe_contexts : bool }.

Record state :=
  { exit_code : nat; total_issues : nat;
    all_results : list (str * list issue); trace : list line }.

Section Main.

(** The three scripts share their [main], up to three things: the
    per-file check ([check_verbose_flags], [check_dotnet_security] or
    [check_ansible_security]), which gives the issues it returns and
    what it writes to stderr; the pattern table; and the files that
    [--exclude-safe-contexts] leaves out (only detect-verbose-flags.py
    has the option). *)
Variable check : fs -> str -> list issue * list line.
Variable PATTERNS : list (str * entry).
Variable excluded : str -> bool.

Definition min_severity (a : args) : nat :=
  match severity_option a with
  | Some name => level name
  | None => 1
  end.

(** The filter [main] applies when [--severity] is given. *)
Definition keep (a : args) (i : issue) : bool :=
  match lookup (pattern_name i) PATTERNS with
  | Some pattern_info => min_severity a <=? level (severity pattern_info)
  | None => true
  end.

Definition filtered (a : args) (issues : list issue) : list issue :=
  match severity_option a with
  | Some _ => filter (keep a) issues
  | None => issues
  end.

Definition print_issue (i : issue) : list line :=
  IssueLine (fst (fst (fst i))) (pattern_name i)
  :: IssueDescription (snd i)
  :: match snd (fst (fst i)) with
     | [] => []
     | line_content => [IssueCode line_content]
     end.

Definition main_step (disk : fs) (a : args) (st : state) (file_path : str)
  : state :=
  if exclude_safe_contexts a && excluded file_path then st
  else
    let (found, err) := check disk file_path in
    match filtered a found with
    | [] =>
        {| exit_code := exit_code st; total_issues := total_issues st;
           all_results := all_results st; trace := trace st ++ err |}
    | issues =>
        {| exit_code := 1;
           total_issues := total_issues st + length issues;
           all_results :=
             if json a then assign file_path issues (all_results st)
             else all_results st;
           trace :=
             if json a then trace st ++ err
             else trace st ++ err ++ FoundIn file_path
                                  :: flat_map print_issue issues |}
    end.

Definition main_loop (disk : fs) (a : args) : state :=
  fold_left (main_step disk a) (files a)
    {| exit_code := 0; total_issues := 0; all_results := []; trace := [] |}.

Definition main (disk : fs) (a : args) : nat * list line :=
  let st := main_loop disk a in
  (exit_code st,
   trace st ++
   (if json a then [JsonDump (all_results st)]
    else if 0 <? total_issues st
    then [FoundTotal (total_issues st); Advice 1; Advice 2; Advice 3]
    else [NoneDetected])).

End Main.

End SeverityScan.

(* ================================================================== *)
(** ** hooks/detect-verbose-flags.py *)
(* ================================================================== *)

Module Verbose.
Import Text Regex RegexNotations Fs SeverityScan.
Local Open Scope re_scope.

Definition VERBOSE_PATTERNS : list (str * entry) :=
  [ (s "debug_flags",
     {| patterns :=
          [ lit "logging.basicConfig(" +++ Star (Cls true [IChar ")"])
              +++ lit "level" +++ Star ws +++ Lit "=" +++ Star ws
              +++ lit "logging.DEBUG";
            lit "logger.setLevel(logging.DEBUG)";
            lit "debug" +++ Star ws +++ Lit "=" +++ Star ws +++ lit "True";
            lit "verbose" +++ Star ws +++ Lit "=" +++ Star ws +++ lit "True";
            lit "DJANGO_DEBUG" +++ Star ws +++ Lit "=" +++ Star ws
              +++ lit "True";
            lit "DEBUG" +++ Star ws +++ Lit "=" +++ Star ws +++ lit "True";
            lit "console.debug(";
            lit "console.trace(";
            lit "logger.debug(";
            lit "debug:" +++ Star ws +++ lit "true";
            lit "verbose:" +++ Star ws +++ lit "true";
            lit "NODE_ENV" +++ Star Any +++ lit "development";
            lit "process.env.DEBUG";
            lit "Logger.getLogger(" +++ Star (Cls true [IChar ")"])
              +++ lit ").setLevel(Level.DEBUG)";
            lit "Logger.getLogger(" +++ Star (Cls true [IChar ")"])
              +++ lit ").setLevel(Level.ALL)";
            lit "System.setProperty(" +++ quote
              +++ lit "java.util.logging.level" +++ quote +++ Lit ","
              +++ Star ws +++ quote +++ lit "DEBUG" +++ quote;
            lit "@EnableDebugLogs";
            lit ".debug(" +++ Star Any +++ Lit ")";
            lit "LogLevel.Debug";
            lit "LogLevel.Trace";
            lit ".AddDebug()";
            lit ".SetMinimumLevel(LogLevel.Debug)";
            lit "#if" +++ Plus ws +++ lit "DEBUG";
            lit "Debugger.IsAttached";
            lit "Environment.GetEnvironmentVariable(" +++ quote
              +++ lit "ASPNETCORE_ENVIRONMENT" +++ quote +++ Star Any
              +++ quote +++ lit "Development" +++ quote;
            lit "log.SetLevel(logrus.DebugLevel)";
            lit "log.SetLevel(logrus.TraceLevel)";
            lit "gin.SetMode(gin.DebugMode)";
            lit "debug:" +++ Star ws +++ lit "true";
            lit "verbose:" +++ Star ws +++ lit "true";
            lit "error_reporting(E_ALL)";
            lit "ini_set(" +++ quote +++ lit "display_errors" +++ quote
              +++ Lit "," +++ Star ws +++ quote +++ Lit "1" +++ quote;
            lit "ini_set(" +++ quote +++ lit "display_startup_errors"
              +++ quote +++ Lit "," +++ Star ws +++ quote +++ Lit "1"
              +++ quote;
            lit "WP_DEBUG" +++ Star Any +++ lit "true";
            lit "define(" +++ quote +++ lit "WP_DEBUG" +++ quote +++ Lit ","
              +++ Star ws +++ lit "true)";
            lit "Rails.logger.level" +++ Star ws +++ Lit "=" +++ Star ws
              +++ lit "Logger::DEBUG";
            lit "config.log_level" +++ Star ws +++ Lit "=" +++ Star ws
              +++ lit ":debug";
            lit "logger.level" +++ Star ws +++ Lit "=" +++ Star ws
              +++ lit "Logger::DEBUG";
            lit "set" +++ Plus ws +++ lit "-x";
            lit "bash" +++ Plus ws +++ lit "-x";
            lit "sh" +++ Plus ws +++ lit "-x";
            lit "set" +++ Plus ws +++ lit "-v";
            lit "PS4=" ];
        description :=
          s "Debug/verbose logging enabled - should be disabled in production";
        severity := s "medium" |});
    (s "verbose_cli_flags",
     {| patterns :=
          [ ws +++ lit "-v" +++ ws;
            ws +++ lit "--verbose" +++ ws;
            ws +++ lit "-vv" +++ ws;
            ws +++ lit "-vvv" +++ ws;
            ws +++ lit "--debug" +++ ws;
            ws +++ lit "-d" +++ ws;
            ws +++ lit "--trace" +++ ws;
            lit "VERBOSE=1";
            lit "DEBUG=1";
            lit "TRACE=1";
            lit "docker" +++ Star Any +++ lit "--log-level" +++ Star ws
              +++ lit "debug";
            lit "docker" +++ Star Any +++ lit "--debug";
            lit "dockerfile" +++ Star Any +++ lit "--progress=plain";
            lit "kubectl" +++ Star Any +++ lit "--v="
              +++ Cls false [IRange "5" "9"];
            lit "kubectl" +++ Star Any +++ lit "--v=1"
              +++ Cls false [IRange "0" "9"];
            lit "helm" +++ Star Any +++ lit "--debug";
            lit "TF_LOG=DEBUG";
            lit "TF_LOG=TRACE";
            lit "terraform" +++ Star Any +++ lit "-verbose";
            lit "ansible" +++ Star Any +++ lit "-vvv";
            lit "ansible" +++ Star Any +++ lit "-vv";
            lit "ansible" +++ Star Any +++ lit "--verbose";
            lit "ANSIBLE_DEBUG=1";
            lit "git" +++ Star Any +++ lit "--verbose";
            lit "GIT_TRACE=1";
            lit "GIT_CURL_VERBOSE=1" ];
        description :=
          s ("Verbose command line flags detected"
             ++ " - may expose sensitive information");
        severity := s "low" |});
    (s "configuration_debug",
     {| patterns :=
          [ lit "log_level:" +++ Star ws +++ lit "debug";
            lit "log_level:" +++ Star ws +++ lit "trace";
            lit "verbosity:" +++ Star ws +++ Cls false [IRange "3" "9"];
            lit "debug_mode:" +++ Star ws +++ lit "true";
            lit "enable_debug:" +++ Star ws +++ lit "true";
            lit "development_mode:" +++ Star ws +++ lit "true";
            lit "ENV" +++ Plus ws +++ lit "DEBUG" +++ Star ws +++ Lit "="
              +++ Star ws +++ lit "true";
            lit "ENV" +++ Plus ws +++ lit "VERBOSE" +++ Star ws +++ Lit "="
              +++ Star ws +++ lit "true";
            lit "environment:" +++ Star ws +++ lit "development";
            lit "SHOW_SQL" +++ Star ws +++ Lit "=" +++ Star ws +++ lit "true";
            lit "hibernate.show_sql" +++ Star ws +++ Lit "=" +++ Star ws
              +++ lit "true";
            lit "spring.jpa.show-sql" +++ Star ws +++ Lit "=" +++ Star ws
              +++ lit "true";
            lit "DATABASE_DEBUG" +++ Star ws +++ Lit "=" +++ Star ws
              +++ lit "true";
            lit "ErrorDocument" +++ Plus ws +++ lit "500" +++ Star Any
              +++ lit "debug";
            lit "display_errors" +++ Star ws +++ Lit "=" +++ Star ws
              +++ lit "On";
            lit "display_startup_errors" +++ Star ws +++ Lit "=" +++ Star ws
              +++ lit "On" ];
        description :=
          s "Debug configuration detected - should be disabled in production";
        severity := s "medium" |});
    (s "test_debug_remnants",
     {| patterns :=
          [ lit "console.log(" +++ Star (Cls true [IChar ")"]) +++ quote
              +++ lit "DEBUG" +++ quote;
            lit "print(" +++ Star (Cls true [IChar ")"]) +++ quote
              +++ lit "DEBUG" +++ quote;
            lit "System.out.println(" +++ Star (Cls true [IChar ")"])
              +++ quote +++ lit "DEBUG" +++ quote;
            lit "fmt.Println(" +++ Star (Cls true [IChar ")"]) +++ quote
              +++ lit "DEBUG" +++ quote;
            lit "echo" +++ Plus ws +++ quote +++ lit "DEBUG";
            lit "logger." +++ Star (Cls true [IChar "("]) +++ Lit "("
              +++ Star (Cls true [IChar ")"]) +++ quote +++ lit "DEBUG"
              +++ quote;
            lit "//" +++ Star ws +++ lit "TODO" +++ Opt (Lit ":") +++ Star ws
              +++ lit "remove" +++ Star Any +++ lit "debug";
            lit "//" +++ Star ws +++ lit "FIXME" +++ Opt (Lit ":")
              +++ Star ws +++ lit "remove" +++ Star Any +++ lit "debug";
            Lit "#" +++ Star ws +++ lit "TODO" +++ Opt (Lit ":") +++ Star ws
              +++ lit "remove" +++ Star Any +++ lit "debug";
            lit "/*" +++ Star Any +++ lit "DEBUG" +++ Star Any +++ lit "*/";
            lit "<!--" +++ Star Any +++ lit "DEBUG" +++ Star Any
              +++ lit "-->";
            lit "console.time(";
            lit "console.timeEnd(";
            lit "performance.now()";
            lit "System.currentTimeMillis()" +++ Star Any +++ lit "print";
            lit "time.time()" +++ Star Any +++ lit "print" ];
        description :=
          s "Debug/test code remnants - should be removed before production";
        severity := s "low" |}) ].

Definition SUPPORTED_EXTENSIONS : list str :=
  map s [ ".py"; ".js"; ".ts"; ".jsx"; ".tsx"; ".java"; ".cs"; ".vb"; ".fs";
          ".go"; ".php"; ".rb"; ".sh"; ".bash"; ".zsh"; ".yml"; ".yaml";
          ".json"; ".xml"; ".config"; ".properties"; ".env"; ".dockerfile";
          ".tf"; ".tfvars" ]%string.

Definition DEBUG_CONFIG_FILES : list str :=
  map s [ "docker-compose.yml"; "docker-compose.yaml"; "dockerfile";
          "makefile"; "package.json"; "webpack.config.js"; "gulpfile.js";
          "gruntfile.js"; "ansible.cfg"; "playbook.yml"; "playbook.yaml";
          ".env"; ".env.local"; "appsettings.json";
          "appsettings.development.json"; "web.config";
          "application.properties"; "application.yml"; "logback.xml";
          "log4j.xml" ]%string.

Definition SAFE_CONTEXTS : list re :=
  let starts x := lit x +++ Star Any in
  let has x := Star Any +++ lit x +++ Star Any in
  [ starts "test"; has "test"; starts "spec"; has "spec";
    starts "mock"; has "mock"; starts "example"; has "example";
    starts "sample"; has "sample"; starts "demo";
    starts "debug"; has "debug"; starts "dev"; has "dev";
    starts "development"; starts "local"; has "local" ]%string.

Definition is_safe_context (file_path : str) : bool :=
  let path_lower := lower file_path in
  existsb (fun pattern => is_some (re_match NOFLAGS pattern path_lower))
          SAFE_CONTEXTS.

Definition should_check_file (file_path : str) : bool :=
  if mem_str (lower (Pathlib.suffix file_path)) SUPPORTED_EXTENSIONS
  then true
  else if mem_str (lower (Pathlib.name file_path)) DEBUG_CONFIG_FILES
  then true
  else false.

(** The body of the loop over the lines: blank lines and lines that
    start with a hash sign are passed over, and so are, in a safe
    context, the entries of low severity. *)
Definition scan_line (in_safe_context : bool) (n : nat) (line : str)
  : list issue :=
  let stripped_line := strip line in
  if is_nil stripped_line || startswith (s "#") stripped_line then []
  else scan_patterns VERBOSE_PATTERNS
         (fun pattern_info =>
            in_safe_context && str_eqb (severity pattern_info) (s "low"))
         n line.

(** [check_verbose_flags]: the issues and what went to stderr.  The
    text is read whole before the first line is scanned: a file that
    cannot be opened or read gives no issue and a message. *)
Definition check_verbose_flags (disk : fs) (file_path : str)
  : list issue * list line :=
  if negb (should_check_file file_path) then ([], [])
  else
    let in_safe_context := is_safe_context file_path in
    match disk file_path with
    | Content content =>
        (flat_map (fun nl : nat * str =>
                     scan_line in_safe_context (fst nl) (snd nl))
                  (enumerate 1 (split newline content)), [])
    | OpenError e | ReadError _ e => analysis_failed file_path e []
    end.

Definition main : fs -> args -> nat * list line :=
  SeverityScan.main check_verbose_flags VERBOSE_PATTERNS is_safe_context.

End Verbose.

(* ================================================================== *)
(** ** hooks/dotnet-security-scan.py *)
(* ================================================================== *)

Module Dotnet.
Import Text Regex RegexNotations Fs SeverityScan.
Local Open Scope re_scope.

Definition DOTNET_SECURITY_PATTERNS : list (str * entry) :=
  [ (s "sql_injection",
     {| patterns :=
          [ lit "new" +++ Plus ws +++ lit "SqlCommand" +++ Star ws
              +++ Lit "(" +++ Star (Cls true [IChar ")"]) +++ Lit "+"
              +++ Star (Cls true [IChar ")"]) +++ Lit ")";
            lit "CommandText" +++ Star ws +++ Lit "=" +++ Star ws
              +++ Star (Cls true [IChar ";"]) +++ Lit "+"
              +++ Star (Cls true [IChar ";"]);
            lit "ExecuteQuery" +++ Star ws +++ Lit "("
              +++ Star (Cls true [IChar ")"]) +++ Lit "+"
              +++ Star (Cls true [IChar ")"]) +++ Lit ")";
            lit "ExecuteScalar" +++ Star ws +++ Lit "("
              +++ Star (Cls true [IChar ")"]) +++ Lit "+"
              +++ Star (Cls true [IChar ")"]) +++ Lit ")";
            lit "string.Format" +++ Star ws +++ Lit "("
              +++ Star (Cls true [IChar ")"]) +++ lit "SELECT"
              +++ Star (Cls true [IChar ")"]) +++ Lit ")";
            lit "string.Concat" +++ Star ws +++ Lit "("
              +++ Star (Cls true [IChar ")"]) +++ lit "SELECT"
              +++ Star (Cls true [IChar ")"]) +++ Lit ")" ];
        description :=
          s "Potential SQL injection - use parameterized queries";
        severity := s "high" |});
    (s "path_traversal",
     {| patterns :=
          [ lit "Path.Combine" +++ Star ws +++ Lit "("
              +++ Star (Cls true [IChar ")"]) +++ lit "Request.";
            lit "File.ReadAllText" +++ Star ws +++ Lit "("
              +++ Star (Cls true [IChar ")"]) +++ lit "Request.";
            lit "File.WriteAllText" +++ Star ws +++ Lit "("
              +++ Star (Cls true [IChar ")"]) +++ lit "Request.";
            lit "FileStream" +++ Star ws +++ Lit "("
              +++ Star (Cls true [IChar ")"]) +++ lit "Request.";
            lit ".." +++ Cls false [IChar "\"; IChar "/"] ];
        description :=
          s "Potential path traversal vulnerability";
        severity := s "high" |});
    (s "deserialization",
     {| patterns :=
          [ lit "BinaryFormatter.Deserialize";
            lit "XmlSerializer.Deserialize" +++ Star Any +++ lit "untrusted";
            lit "JsonConvert.DeserializeObject" +++ Star Any
              +++ lit "Request.";
            lit "JavaScriptSerializer.Deserialize";
            lit "DataContractJsonSerializer.ReadObject" ];
        description :=
          s "Insecure deserialization - validate input sources";
        severity := s "high" |});
    (s "weak_crypto",
     {| patterns :=
          [ lit "MD5.Create()";
            lit "SHA1.Create()";
            lit "DESCryptoServiceProvider";
            lit "RC2CryptoServiceProvider";
            lit "new" +++ Plus ws +++ lit "MD5CryptoServiceProvider";
            lit "new" +++ Plus ws +++ lit "SHA1CryptoServiceProvider" ];
        description :=
          s "Weak cryptographic algorithm - use SHA-256 or stronger";
        severity := s "medium" |});
    (s "hardcoded_secrets",
     {| patterns :=
          [ lit "connectionString" +++ Star ws +++ Lit "=" +++ Star ws
              +++ quote +++ Star nonquote +++ lit "password"
              +++ Star nonquote +++ quote;
            lit "Password" +++ Star ws +++ Lit "=" +++ Star ws +++ quote
              +++ RepMin 3 nonquote +++ quote;
            lit "ApiKey" +++ Star ws +++ Lit "=" +++ Star ws +++ quote
              +++ RepMin 10 nonquote +++ quote;
            lit "SecretKey" +++ Star ws +++ Lit "=" +++ Star ws +++ quote
              +++ RepMin 10 nonquote +++ quote ];
        description :=
          s "Hardcoded credentials detected - use configuration/secrets";
        severity := s "high" |});
    (s "request_validation",
     {| patterns :=
          [ lit "ValidateRequest" +++ Star ws +++ Lit "=" +++ Star ws
              +++ lit "false";
            lit "RequestValidationMode.Disabled";
            lit "[ValidateInput" +++ Star ws +++ Lit "(" +++ Star ws
              +++ lit "false" +++ Star ws +++ lit ")]";
            lit "HttpRequestValidationException" +++ Star Any
              +++ lit "ignore" ];
        description :=
          s "Request validation disabled - security risk";
        severity := s "medium" |});
    (s "csrf_missing",
     {| patterns :=
          [ lit "[HttpPost]"
              +++ (NotAhead (Star Any +++ lit "[ValidateAntiForgeryToken]"));
            lit ".MapPost(";
            lit "app.Post(" ];
        description :=
          s "POST action without CSRF protection";
        severity := s "medium" |});
    (s "debug_info",
     {| patterns :=
          [ lit "customErrors" +++ Star ws +++ lit "mode" +++ Star ws
              +++ Lit "=" +++ Star ws +++ quote +++ lit "Off" +++ quote;
            lit "debug" +++ Star ws +++ Lit "=" +++ Star ws +++ quote
              +++ lit "true" +++ quote;
            lit "compilation" +++ Star Any +++ lit "debug" +++ Star ws
              +++ Lit "=" +++ Star ws +++ quote +++ lit "true" +++ quote;
            lit "<system.web>" +++ Star Any +++ lit "<compilation"
              +++ Star Any +++ lit "debug=" +++ Lit dquote +++ lit "true"
              +++ Lit dquote ];
        description :=
          s "Debug mode enabled in production config";
        severity := s "low" |});
    (s "open_redirect",
     {| patterns :=
          [ lit "Response.Redirect" +++ Star ws +++ Lit "("
              +++ Star (Cls true [IChar ")"]) +++ lit "Request.";
            lit "RedirectToAction" +++ Star ws +++ Lit "("
              +++ Star (Cls true [IChar ")"]) +++ lit "Request.";
            lit "Redirect" +++ Star ws +++ Lit "("
              +++ Star (Cls true [IChar ")"]) +++ lit "Request.QueryString" ];
        description :=
          s "Potential open redirect vulnerability";
        severity := s "medium" |});
    (s "xxe_vulnerability",
     {| patterns :=
          [ lit "XmlDocument.Load" +++ Star Any +++ lit "Request.";
            lit "XmlTextReader" +++ Star Any +++ lit "Request.";
            lit "XPathDocument" +++ Star Any +++ lit "Request.";
            lit "XmlReaderSettings" +++ Star Any +++ lit "DtdProcessing"
              +++ Star Any +++ lit "Parse" ];
        description :=
          s "Potential XXE vulnerability - disable external entities";
        severity := s "medium" |});
    (s "information_disclosure",
     {| patterns :=
          [ lit "Exception.ToString()";
            lit "ex.Message" +++ Star Any +++ lit "Response.Write";
            lit "Exception" +++ Star Any +++ lit "InnerException";
            lit "StackTrace" +++ Star Any +++ lit "Response" ];
        description :=
          s "Potential information disclosure through error messages";
        severity := s "low" |}) ].

Definition DOTNET_EXTENSIONS : list str :=
  map s [ ".cs"; ".vb"; ".fs"; ".aspx"; ".ascx"; ".ashx"; ".asmx";
          ".config" ]%string.

(** The last name holds an asterisk: as a file name, or as a part of
    one, it is the name with the asterisk in it. *)
Definition CONFIG_FILES : list str :=
  map s [ "web.config"; "app.config"; "appsettings.json";
          "appsettings.*.json" ]%string.

Definition should_check_file (file_path : str) : bool :=
  if mem_str (lower (Pathlib.suffix file_path)) DOTNET_EXTENSIONS then true
  else if mem_str (lower (Pathlib.name file_path)) CONFIG_FILES then true
  else if is_some (re_match NOFLAGS
                     (lit "appsettings." +++ Star Any +++ lit ".json" +++ Eol)
                     (lower (Pathlib.name file_path)))
  then true
  else false.

Definition SECRET_KEYWORDS : list str :=
  map s [ "password="; "pwd="; "secret="; "key=" ]%string.

Definition SAFE_MARKERS : list str :=
  map s [ "$("; "${"; "%"; "placeholder"; "your_" ]%string.

(** The three checks [analyze_config_file] makes on a line. *)
Definition config_line (n : nat) (line : str) : list issue :=
  let line_lower := lower line in
  (if existsb (fun keyword => contains keyword line_lower) SECRET_KEYWORDS
   then
     if negb (existsb (fun safe => contains safe line_lower) SAFE_MARKERS)
     then [(n, strip line, s "config_secrets",
            s "Potential hardcoded secret in configuration file")]
     else []
   else [])
  ++ (if contains (s "customerrors") line_lower
         && contains (s "mode=" ++ [dquote] ++ s "off" ++ [dquote]) line_lower
      then [(n, strip line, s "debug_info",
             s "Custom errors disabled - may expose sensitive information")]
      else [])
  ++ (if contains (s "debug=" ++ [dquote] ++ s "true" ++ [dquote]) line_lower
      then [(n, strip line, s "debug_info",
             s "Debug mode enabled - should be disabled in production")]
      else []).

Definition analyze_config_file (file_path content : str) : list issue :=
  flat_map (fun nl : nat * str => config_line (fst nl) (snd nl))
           (enumerate 1 (split newline content)).

(** The body of the loop over the lines. *)
Definition scan_line (n : nat) (line : str) : list issue :=
  if is_nil (strip line) then []
  else scan_patterns DOTNET_SECURITY_PATTERNS (fun _ => false) n line.

(** [check_dotnet_security]: the issues and what went to stderr. *)
Definition check_dotnet_security (disk : fs) (file_path : str)
  : list issue * list line :=
  if negb (should_check_file file_path) then ([], [])
  else
    match disk file_path with
    | Content content =>
        ((if existsb (fun config =>
                        contains config (lower (Pathlib.name file_path)))
                     CONFIG_FILES
          then analyze_config_file file_path content else [])
         ++ flat_map (fun nl : nat * str => scan_line (fst nl) (snd nl))
                     (enumerate 1 (split newline content)), [])
    | OpenError e | ReadError _ e => analysis_failed file_path e []
    end.

Definition main : fs -> args -> nat * list line :=
  SeverityScan.main check_dotnet_security DOTNET_SECURITY_PATTERNS
    (fun _ => false).

End Dotnet.

(* ================================================================== *)
(** ** hooks/ansible-security-scan.py *)
(* ================================================================== *)

Module Ansible.
Import Text Regex RegexNotations Exn Fs SeverityScan.
Local Open Scope re_scope.

Definition ANSIBLE_SECURITY_PATTERNS : list (str * entry) :=
  [ (s "hardcoded_secrets",
     {| patterns :=
          [ lit "password:" +++ Star ws +++ Opt quote
              +++ RepMin 8 (Cls true [IChar dquote; IChar squote; ISpace])
              +++ Opt quote +++ Star ws +++ Eol;
            lit "secret:" +++ Star ws +++ Opt quote
              +++ RepMin 8 (Cls true [IChar dquote; IChar squote; ISpace])
              +++ Opt quote +++ Star ws +++ Eol;
            lit "api_key:" +++ Star ws +++ Opt quote
              +++ RepMin 10 (Cls true [IChar dquote; IChar squote; ISpace])
              +++ Opt quote +++ Star ws +++ Eol;
            lit "private_key:" +++ Star ws +++ Opt quote +++ lit "-----BEGIN";
            lit "token:" +++ Star ws +++ Opt quote
              +++ RepMin 10 (Cls true [IChar dquote; IChar squote; ISpace])
              +++ Opt quote +++ Star ws +++ Eol ];
        description :=
          s "Hardcoded secrets detected - use ansible-vault or variables";
        severity := s "high" |});
    (s "unencrypted_vars",
     {| patterns :=
          [ lit "vars:" +++ Star ws +++ Lit newline +++ Star Any
              +++ lit "password:";
            lit "vars:" +++ Star ws +++ Lit newline +++ Star Any
              +++ lit "secret:";
            lit "group_vars" +++ Star Any +++ lit "password";
            lit "host_vars" +++ Star Any +++ lit "password" ];
        description :=
          s "Unencrypted sensitive variables - consider ansible-vault";
        severity := s "medium" |});
    (s "shell_injection",
     {| patterns :=
          [ lit "shell:" +++ Star ws +++ Star Any +++ lit "{{" +++ Star Any
              +++ lit "}}" +++ Star Any;
            lit "command:" +++ Star ws +++ Star Any +++ lit "{{" +++ Star Any
              +++ lit "}}" +++ Star Any;
            lit "raw:" +++ Star ws +++ Star Any +++ lit "{{" +++ Star Any
              +++ lit "}}" +++ Star Any;
            lit "shell:" +++ Star Any +++ Lit "|" +++ Star Any
              +++ lit "unsafe" ];
        description :=
          s "Potential shell injection through templating";
        severity := s "high" |});
    (s "file_permissions",
     {| patterns :=
          [ lit "mode:" +++ Star ws +++ Opt quote +++ lit "777" +++ Opt quote;
            lit "mode:" +++ Star ws +++ Opt quote +++ lit "666" +++ Opt quote;
            lit "mode:" +++ Star ws +++ Opt quote +++ lit "o+w" +++ Opt quote;
            lit "mode:" +++ Star ws +++ Opt quote +++ lit "a+w" +++ Opt quote ];
        description :=
          s "Overly permissive file permissions";
        severity := s "medium" |});
    (s "http_usage",
     {| patterns :=
          [ lit "url:" +++ Star ws +++ lit "http://"
              +++ NotAhead (alts [ lit "localhost"; lit "127.0.0.1";
                                   lit "example." ]);
            lit "src:" +++ Star ws +++ lit "http://"
              +++ NotAhead (alts [ lit "localhost"; lit "127.0.0.1";
                                   lit "example." ]);
            lit "repo:" +++ Star ws +++ lit "http://"
              +++ NotAhead (alts [ lit "localhost"; lit "127.0.0.1";
                                   lit "example." ]) ];
        description :=
          s "HTTP usage instead of HTTPS for external resources";
        severity := s "medium" |});
    (s "sudo_without_validate",
     {| patterns :=
          [ lit "become:" +++ Star ws +++ lit "yes"
              +++ (NotAhead (Star Any +++ lit "validate"));
            lit "become_user:" +++ Star ws +++ lit "root"
              +++ (NotAhead (Star Any +++ lit "validate"));
            lit "sudo:" +++ Star Any +++ lit "NOPASSWD:ALL" ];
        description :=
          s "Sudo usage without validation or with NOPASSWD";
        severity := s "medium" |});
    (s "debug_exposure",
     {| patterns :=
          [ lit "debug:" +++ Star ws +++ lit "yes";
            lit "debug:" +++ Star ws +++ lit "true";
            lit "verbosity:" +++ Star ws +++ Cls false [IRange "3" "9"];
            lit "-vvv" ];
        description :=
          s "Debug mode enabled - may expose sensitive information";
        severity := s "low" |});
    (s "weak_crypto",
     {| patterns :=
          [ lit "algorithm:" +++ Star ws +++ lit "md5";
            lit "algorithm:" +++ Star ws +++ lit "sha1";
            lit "checksum_algorithm:" +++ Star ws +++ lit "md5";
            lit "checksum_algorithm:" +++ Star ws +++ lit "sha1" ];
        description :=
          s "Weak cryptographic algorithm usage";
        severity := s "medium" |});
    (s "unsafe_privileges",
     {| patterns :=
          [ lit "become_flags:" +++ Star Any +++ lit "-n";
            lit "become_flags:" +++ Star Any +++ lit "--non-interactive";
            lit "privilege_escalation:" +++ Star Any +++ lit "unsafe" ];
        description :=
          s "Unsafe privilege escalation configuration";
        severity := s "high" |});
    (s "inventory_exposure",
     {| patterns :=
          [ lit "ansible_ssh_pass:" +++ Star ws +++ Cls true [IChar "{"];
            lit "ansible_become_pass:" +++ Star ws +++ Cls true [IChar "{"];
            lit "ansible_password:" +++ Star ws +++ Cls true [IChar "{"] ];
        description :=
          s "Passwords in inventory files - use vault or ssh keys";
        severity := s "high" |});
    (s "template_injection",
     {| patterns :=
          [ lit "template:" +++ Star Any +++ lit "{{" +++ Star Any
              +++ Lit "|" +++ Star Any +++ lit "safe" +++ Star Any
              +++ lit "}}";
            lit "template:" +++ Star Any +++ lit "{{" +++ Star Any
              +++ Lit "|" +++ Star Any +++ lit "raw" +++ Star Any
              +++ lit "}}";
            lit "lineinfile:" +++ Star Any +++ lit "{{" +++ Star Any
              +++ Lit "|" +++ Star Any +++ lit "unsafe" +++ Star Any
              +++ lit "}}" ];
        description :=
          s "Unsafe template filters that disable auto-escaping";
        severity := s "high" |}) ].

Definition ANSIBLE_INDICATORS : list str :=
  map s [ "hosts"; "tasks"; "handlers"; "vars"; "roles"; "plays"; "become";
          "gather_facts"; "connection"; "ansible_" ]%string.

Definition is_ansible_file (file_path : str) : bool :=
  if mem_str (lower (Pathlib.suffix file_path)) (map s [".yml"; ".yaml"]%string)
  then true
  else if mem_str (lower (Pathlib.name file_path))
            (map s [ "ansible.cfg"; "hosts"; "inventory"; "site.yml";
                     "site.yaml" ]%string)
  then true
  else if existsb (fun ansible_dir =>
                     mem_str ansible_dir
                             (map lower (Pathlib.parts file_path)))
            (map s [ "group_vars"; "host_vars"; "roles"; "playbooks";
                     "inventories" ]%string)
  then true
  else false.

(** What [yaml.safe_load] does with a text: it raises [yaml.YAMLError],
    raises something else, or returns a Python object.  Of the object the
    script reads three things: its truth value, its [str], and what
    [analyze_yaml_structure] makes of it (a list of issues, or an
    exception when, say, the value of the key tasks cannot be iterated
    over). *)
Inductive loaded :=
| YAMLError
| OtherFailure (e : exn)
| Data (truth : bool) (as_str : str) (structure : result (list issue)).

Section WithYaml.

(** The library PyYAML, and [analyze_yaml_structure] with it. *)
Variable safe_load : str -> loaded.

Definition analyze_yaml_content (content : str) : result bool :=
  match safe_load content with
  | Data truth content_str _ =>
      if negb truth then Return false
      else Return (existsb (fun indicator =>
                              contains indicator (lower content_str))
                           ANSIBLE_INDICATORS)
  | YAMLError =>
      Return (existsb (fun indicator => contains indicator (lower content))
                      ANSIBLE_INDICATORS)
  | OtherFailure e => Raise e
  end.

Definition SENSITIVE_FILES : list str :=
  map s [ "vault"; "secret"; "password"; "credential"; "key" ]%string.

Definition check_vault_encryption (file_path content : str) : list issue :=
  if existsb (fun sensitive =>
                contains sensitive (lower (Pathlib.name file_path)))
             SENSITIVE_FILES
  then
    if negb (startswith (s "$ANSIBLE_VAULT") content)
    then [(1,
           s "File appears to contain secrets but is not vault-encrypted",
           s "unencrypted_vault",
           s "File should be encrypted with ansible-vault")]
    else []
  else [].

(** The body of the loop over the lines. *)
Definition scan_line (n : nat) (line : str) : list issue :=
  if is_nil (strip line) || startswith (s "#") (strip line) then []
  else scan_patterns ANSIBLE_SECURITY_PATTERNS (fun _ => false) n line.

Definition is_yaml_name (file_path : str) : bool :=
  endswith (s ".yml") file_path || endswith (s ".yaml") file_path.

(** The last block, which loads the text once more and extends
    [issues], here [found]; an exception other than [yaml.YAMLError]
    reaches the [except] clause of [check_ansible_security] with the
    issues found so far. *)
Definition yaml_block (file_path content : str) (found : list issue)
  : list issue * list line :=
  match safe_load content with
  | Data true _ (Return yaml_issues) => (found ++ yaml_issues, [])
  | Data true _ (Raise e) => analysis_failed file_path e found
  | Data false _ _ => (found, [])
  | YAMLError => (found, [])
  | OtherFailure e => analysis_failed file_path e found
  end.

(** [check_ansible_security]: the issues and what went to stderr. *)
Definition check_ansible_security (disk : fs) (file_path : str)
  : list issue * list line :=
  if negb (is_ansible_file file_path) then ([], [])
  else
    match disk file_path with
    | Content content =>
        let found :=
          check_vault_encryption file_path content
          ++ flat_map (fun nl : nat * str => scan_line (fst nl) (snd nl))
                      (enumerate 1 (split newline content)) in
        if is_yaml_name file_path then
          match analyze_yaml_content content with
          | Return true => yaml_block file_path content found
          | Return false => ([], [])
          | Raise e => analysis_failed file_path e []
          end
        else (found, [])
    | OpenError e | ReadError _ e => analysis_failed file_path e []
    end.

Definition main : fs -> args -> nat * list line :=
  SeverityScan.main check_ansible_security ANSIBLE_SECURITY_PATTERNS
    (fun _ => false).

End WithYaml.

End Ansible.

(* ================================================================== *)
(** ** [analyze_yaml_structure] of hooks/ansible-security-scan.py *)
(* ================================================================== *)

Module AnsibleYaml.
Import Text Exn SeverityScan.

(** The Python objects [yaml.safe_load] returns, as far as
    [analyze_yaml_structure] tells them apart: a [str], a [list], a
    [dict] (its items, the keys distinct), and any other object (None, a
    number, a date, a set, ...) with the name of its type, its truth
    value and, when it can be iterated over, what the iteration
    yields. *)
#[local] Unset Elimination Schemes.
Inductive pyobj :=
| PyStr (t : str)
| PyList (items : list pyobj)
| PyDict (items : list (pyobj * pyobj))
| PyOther (type_name : str) (truth : bool) (iter : option (list pyobj)).
#[local] Set Elimination Schemes.

Definition is_empty {A} (l : list A) : bool :=
  match l with [] => true | _ => false end.

(** [bool(o)] *)
Definition truthy (o : pyobj) : bool :=
  match o with
  | PyStr t => negb (is_empty t)
  | PyList items => negb (is_empty items)
  | PyDict items => negb (is_empty items)
  | PyOther _ truth _ => truth
  end.

(** [key == name], for a [str] literal [name]. *)
Definition is_str (name : str) (key : pyobj) : bool :=
  match key with
  | PyStr t => str_eqb t name
  | _ => false
  end.

(** [name in d], for a dict [d]. *)
Definition has_key (name : str) (d : list (pyobj * pyobj)) : bool :=
  existsb (fun kv => is_str name (fst kv)) d.

(** [d.get(name)] *)
Fixpoint get (name : str) (d : list (pyobj * pyobj)) : option pyobj :=
  match d with
  | [] => None
  | (k, v) :: d' => if is_str name k then Some v else get name d'
  end.

(** What a [for] loop over [o] runs through, or the [TypeError]. *)
Definition iterate (o : pyobj) : result (list pyobj) :=
  match o with
  | PyStr t => Return (map (fun c => PyStr [c]) t)
  | PyList items => Return items
  | PyDict items => Return (map fst items)
  | PyOther _ _ (Some items) => Return items
  | PyOther type_name _ None =>
      Raise {| class := OtherError;
               text := s "'" ++ type_name ++ s "' object is not iterable" |}
  end.

Definition sensitive_modules : list str :=
  map s [ "user"; "mysql_user"; "postgresql_user"; "uri";
          "get_url" ]%string.

Fixpoint join_with (sep : str) (parts : list str) : str :=
  match parts with
  | [] => []
  | [x] => x
  | x :: parts' => x ++ sep ++ join_with sep parts'
  end.

(** [repr] of a list of strings of plain characters. *)
Definition repr_list (l : list str) : str :=
  s "[" ++ join_with (s ", ") (map (fun m => s "'" ++ m ++ s "'") l)
  ++ s "]".

(** The body of the loop over the tasks; [i] counts from 0. *)
Definition check_task (i : nat) (task : pyobj) : list issue :=
  match task with
  | PyDict d =>
      if existsb (fun module => has_key module d) sensitive_modules then
        if negb (match get (s "no_log") d with
                 | Some v => truthy v
                 | None => false
                 end)
        then [(i + 1,
               s "Task with "
               ++ repr_list (filter (fun m => has_key m d) sensitive_modules)
               ++ s " should use no_log",
               s "missing_no_log",
               s ("Sensitive task should use no_log to prevent"
                  ++ " credential exposure"))]
        else []
      else []
  | _ => []
  end.

(** [analyze_yaml_structure(data, file_path)] *)
Definition analyze_yaml_structure (data : pyobj) (file_path : str)
  : result (list issue) :=
  match data with
  | PyDict d =>
      match get (s "tasks") d with
      | Some tasks =>
          bind (iterate tasks) (fun ts =>
            Return (flat_map (fun it : nat * pyobj =>
                                check_task (fst it) (snd it))
                             (enumerate 0 ts)))
      | None => Return []
      end
  | _ => Return []
  end.

(** What [yaml.safe_load] hands to [check_ansible_security] when it
    returns [data], whose [str] is [as_str]. *)
Definition loaded_of (data : pyobj) (as_str file_path : str)
  : Ansible.loaded :=
  Ansible.Data (truthy data) as_str (analyze_yaml_structure data file_path).

End AnsibleYaml.

(* ================================================================== *)
(** * Properties *)
(* ================================================================== *)

(** ** Strings *)

Module TextFacts.
Import Text.

Lemma ascii_eqb_eq (a b : ascii) : ascii_eqb a b = true <-> a = b.
Proof.
  unfold ascii_eqb, code. rewrite N.eqb_eq. split; [|congruence].
  intro H. rewrite <- (ascii_N_embedding a), <- (ascii_N_embedding b).
  congruence.
Qed.

Lemma str_eqb_eq (a b : str) : str_eqb a b = true <-> a = b.
Proof.
  revert b; induction a as [|x a IH]; destruct b as [|y b]; simpl;
    try (split; congruence).
  rewrite andb_true_iff, ascii_eqb_eq, IH.
  split; [intros [? ?]; congruence | intros H; inversion H; auto].
Qed.

Lemma mem_str_In (x : str) (S : list str) : mem_str x S = true <-> In x S.
Proof.
  unfold mem_str. rewrite existsb_exists. split.
  - intros [y [Hy He]]. apply str_eqb_eq in He. subst; assumption.
  - intros H; exists x; split; [assumption | apply str_eqb_eq; reflexivity].
Qed.

Lemma startswith_prefix (p t : str) :
  startswith p t = true <-> exists post, t = p ++ post.
Proof.
  revert t; induction p as [|x p IH]; intros t; simpl.
  - split; [intros _; exists t; reflexivity | reflexivity].
  - destruct t as [|y t].
    + split; [discriminate | intros [post H]; discriminate].
    + rewrite andb_true_iff, ascii_eqb_eq, IH. split.
      * intros [-> [post ->]]. exists post; reflexivity.
      * intros [post H]. inversion H; subst. split; [reflexivity|].
        exists post; reflexivity.
Qed.

Lemma contains_infix (sub t : str) :
  contains sub t = true <-> exists pre post, t = pre ++ sub ++ post.
Proof.
  induction t as [|c t IH].
  - simpl. rewrite orb_false_r, startswith_prefix. split.
    + intros [post H]. exists [], post. exact H.
    + intros [pre [post H]]. destruct pre; [|discriminate].
      exists post. exact H.
  - cbn [contains]. rewrite orb_true_iff, startswith_prefix, IH. split.
    + intros [[post H] | [pre [post H]]].
      * exists [], post. exact H.
      * exists (c :: pre), post. simpl. congruence.
    + intros [pre [post H]]. destruct pre as [|c' pre].
      * left. exists post. exact H.
      * right. simpl in H. inversion H; subst. exists pre, post. reflexivity.
Qed.

Lemma all_equal_repeat (c : ascii) (t : str) :
  (forall x, In x t -> x = c) -> t = repeat c (length t).
Proof.
  induction t as [|y t IH]; intros H; simpl; [reflexivity|].
  rewrite (H y (or_introl eq_refl)). f_equal. apply IH.
  intros x Hx. apply H. right; assumption.
Qed.

Lemma nodup_repeat (c : ascii) (n : nat) :
  nodup ascii_dec (repeat c (S n)) = [c].
Proof.
  induction n as [|n IH]; [reflexivity|].
  change (repeat c (S (S n))) with (c :: repeat c (S n)).
  cbn [nodup]. destruct (in_dec ascii_dec c (repeat c (S n))) as [_|Hn].
  - exact IH.
  - exfalso. apply Hn. left; reflexivity.
Qed.

(** [len(set(t)) == 1] says that [t] is one character, repeated. *)
Lemma distinct_chars_one (t : str) :
  distinct_chars t = 1 <-> exists c n, t = repeat c (S n).
Proof.
  unfold distinct_chars. split.
  - intros H. destruct (nodup ascii_dec t) as [|c [|d l]] eqn:E;
      try discriminate.
    assert (Hall : forall x, In x t -> x = c).
    { intros x Hx. apply (nodup_In ascii_dec) in Hx. rewrite E in Hx.
      destruct Hx as [Hx|[]]. congruence. }
    destruct t as [|y t]; [discriminate|].
    exists c, (length t). apply (all_equal_repeat c (y :: t) Hall).
  - intros [c [n ->]]. rewrite nodup_repeat. reflexivity.
Qed.

Lemma in_enumerate {A} (xs : list A) (k n : nat) (x : A) :
  In (n, x) (enumerate k xs) <-> k <= n /\ nth_error xs (n - k) = Some x.
Proof.
  revert k; induction xs as [|y xs IH]; intros k; simpl.
  - split; [tauto|]. intros [_ H]. destruct (n - k); discriminate.
  - rewrite IH. split.
    + intros [H | [Hle H]].
      * inversion H; subst. rewrite Nat.sub_diag. split; [lia|reflexivity].
      * split; [lia|]. replace (n - k) with (S (n - S k)) by lia. exact H.
    + intros [Hle H]. destruct (n - k) as [|j] eqn:E.
      * left. simpl in H. inversion H. f_equal. lia.
      * right. split; [lia|]. simpl in H.
        replace (n - S k) with j by lia. exact H.
Qed.

Lemma enumerate_functional {A} (xs : list A) (k n : nat) (x y : A) :
  In (n, x) (enumerate k xs) -> In (n, y) (enumerate k xs) -> x = y.
Proof.
  rewrite !in_enumerate. intros [_ Hx] [_ Hy]. congruence.
Qed.

Lemma existsb_flat_map {A B} (f : B -> bool) (g : A -> list B) (l : list A) :
  existsb f (flat_map g l) = existsb (fun x => existsb f (g x)) l.
Proof.
  induction l as [|x l IH]; simpl; [reflexivity|].
  rewrite existsb_app, IH. reflexivity.
Qed.

Lemma existsb_pointwise {A} (f g : A -> bool) (l : list A) :
  (forall x, f x = g x) -> existsb f l = existsb g l.
Proof.
  intros H. induction l as [|x l IH]; simpl; [reflexivity|].
  rewrite H, IH. reflexivity.
Qed.

Lemma existsb_false_all {A} (f : A -> bool) (l : list A) :
  (forall x, In x l -> f x = false) -> existsb f l = false.
Proof.
  intros H. induction l as [|x l IH]; simpl; [reflexivity|].
  rewrite (H x (or_introl eq_refl)), IH; [reflexivity|].
  intros y Hy. apply H. right; assumption.
Qed.

End TextFacts.

(** ** The matcher *)

Module RegexFacts.
Import Text Regex TextFacts.

(** [a] is what remains of [b] after some characters. *)
Definition suffix (a b : str) : Prop := exists pre, b = pre ++ a.

Lemma suffix_refl (a : str) : suffix a a.
Proof. exists []. reflexivity. Qed.

Lemma suffix_trans (a b c : str) : suffix a b -> suffix b c -> suffix a c.
Proof.
  intros [p1 H1] [p2 H2]. exists (p2 ++ p1). subst. apply app_assoc.
Qed.

Lemma suffix_tail (c : ascii) (t : str) : suffix t (c :: t).
Proof. exists [c]. reflexivity. Qed.

(** A continuation is dead from a position on when it fails at every
    position the matcher can reach from there. *)
Definition dead {A} (k : pos -> option A) (p : pos) : Prop :=
  forall p', suffix (rest p') (rest p) -> k p' = None.

Lemma dead_later {A} (k : pos -> option A) (p q : pos) :
  dead k p -> suffix (rest q) (rest p) -> dead k q.
Proof.
  intros Hk Hq p' Hp'. apply Hk. eapply suffix_trans; eassumption.
Qed.

Lemma one_dead {A} (p : pos) (ok : ascii -> bool) (k : pos -> option A) :
  dead k p -> one p ok k = None.
Proof.
  intros Hk. unfold one. destruct (rest p) as [|c t] eqn:E; [reflexivity|].
  destruct (ok c); [|reflexivity]. apply Hk. simpl. rewrite E.
  apply suffix_tail.
Qed.

Lemma star_loop_dead {A} (body : pos -> (pos -> option A) -> option A)
  (k : pos -> option A) (p : pos) :
  (forall q k', suffix (rest q) (rest p) -> dead k' q -> body q k' = None) ->
  dead k p ->
  forall fuel q, suffix (rest q) (rest p) -> star_loop body k fuel q = None.
Proof.
  intros Hbody Hk. induction fuel as [|fuel IH]; intros q Hq; simpl.
  - apply Hk. exact Hq.
  - rewrite Hbody; [apply Hk; exact Hq | exact Hq |].
    intros q' Hq'. destruct (length (rest q') <? length (rest q));
      [|reflexivity].
    apply IH. eapply suffix_trans; eassumption.
Qed.

(** The matcher only calls its continuation at positions further on in
    the text: it fails when the continuation is dead. *)
Lemma run_dead (f : flags) (r : re) :
  forall A (p : pos) (k : pos -> option A), dead k p -> run f r p k = None.
Proof.
  induction r as [ | c | | n items | a IHa b IHb | a IHa b IHb | a IHa
                 | a IHa | a IHa | | ]; intros A p k Hk; simpl.
  - apply Hk. apply suffix_refl.
  - apply one_dead. exact Hk.
  - apply one_dead. exact Hk.
  - apply one_dead. exact Hk.
  - apply IHa. intros p' Hp'. apply IHb. eapply dead_later; eassumption.
  - rewrite IHa by exact Hk. apply IHb. exact Hk.
  - apply (star_loop_dead (run f a) k p).
    + intros q k' _ Hk'. apply IHa. exact Hk'.
    + exact Hk.
    + apply suffix_refl.
  - apply IHa. intros p' Hp'. apply Hk. exact Hp'.
  - destruct (run f a p (fun _ => Some tt)); [reflexivity|].
    apply Hk. apply suffix_refl.
  - destruct (at_bol f p); [|reflexivity]. apply Hk. apply suffix_refl.
  - destruct (at_eol f p); [|reflexivity]. apply Hk. apply suffix_refl.
Qed.

(** Two continuations agree from a position on when they give the same
    answer at every position the matcher can reach from there. *)
Definition agree {A} (k1 k2 : pos -> option A) (p : pos) : Prop :=
  forall p', suffix (rest p') (rest p) -> k1 p' = k2 p'.

Lemma agree_later {A} (k1 k2 : pos -> option A) (p q : pos) :
  agree k1 k2 p -> suffix (rest q) (rest p) -> agree k1 k2 q.
Proof.
  intros Hk Hq p' Hp'. apply Hk. eapply suffix_trans; eassumption.
Qed.

Lemma one_ext {A} (p : pos) (ok : ascii -> bool) (k1 k2 : pos -> option A) :
  agree k1 k2 p -> one p ok k1 = one p ok k2.
Proof.
  intros Hk. unfold one. destruct (rest p) as [|c t] eqn:E; [reflexivity|].
  destruct (ok c); [|reflexivity]. apply Hk. simpl. rewrite E.
  apply suffix_tail.
Qed.

Lemma star_loop_ext {A} (body : pos -> (pos -> option A) -> option A)
  (k1 k2 : pos -> option A) (p : pos) :
  (forall q j1 j2, suffix (rest q) (rest p) -> agree j1 j2 q ->
                   body q j1 = body q j2) ->
  agree k1 k2 p ->
  forall fuel q, suffix (rest q) (rest p) ->
                 star_loop body k1 fuel q = star_loop body k2 fuel q.
Proof.
  intros Hbody Hk. induction fuel as [|fuel IH]; intros q Hq; simpl.
  - apply Hk. exact Hq.
  - rewrite (Hk q Hq).
    rewrite (Hbody q
               (fun q' => if length (rest q') <? length (rest q)
                          then star_loop body k1 fuel q' else None)
               (fun q' => if length (rest q') <? length (rest q)
                          then star_loop body k2 fuel q' else None) Hq);
      [reflexivity|].
    intros q' Hq'. destruct (length (rest q') <? length (rest q));
      [|reflexivity].
    apply IH. eapply suffix_trans; eassumption.
Qed.

(** The answer of the matcher depends on its continuation only through
    the positions further on in the text. *)
Lemma run_ext (f : flags) (r : re) :
  forall A (p : pos) (k1 k2 : pos -> option A),
    agree k1 k2 p -> run f r p k1 = run f r p k2.
Proof.
  induction r as [ | c | | n items | a IHa b IHb | a IHa b IHb | a IHa
                 | a IHa | a IHa | | ]; intros A p k1 k2 Hk; simpl.
  - apply Hk. apply suffix_refl.
  - apply one_ext. exact Hk.
  - apply one_ext. exact Hk.
  - apply one_ext. exact Hk.
  - apply IHa. intros p' Hp'. apply IHb. eapply agree_later; eassumption.
  - rewrite (IHa A p k1 k2 Hk), (IHb A p k1 k2 Hk). reflexivity.
  - apply (star_loop_ext (run f a) k1 k2 p).
    + intros q j1 j2 _ Hj. apply IHa. exact Hj.
    + exact Hk.
    + apply suffix_refl.
  - apply IHa. intros p' Hp'. apply Hk. exact Hp'.
  - destruct (run f a p (fun _ => Some tt)); [reflexivity|].
    apply Hk. apply suffix_refl.
  - destruct (at_bol f p); [|reflexivity]. apply Hk. apply suffix_refl.
  - destruct (at_eol f p); [|reflexivity]. apply Hk. apply suffix_refl.
Qed.

(** The fuel of a repetition is never what stops it: any amount that is
    at least the length of the remaining text gives the same answer. *)
Lemma star_fuel_enough (f : flags) (a : re) {A} (k : pos -> option A) :
  forall n q f1 f2,
    length (rest q) <= n -> n <= f1 -> n <= f2 ->
    star_loop (run f a) k f1 q = star_loop (run f a) k f2 q.
Proof.
  assert (Hstuck : forall fuel q, length (rest q) = 0 ->
                                  star_loop (run f a) k fuel q = k q).
  { intros [|fuel] q Hq; simpl; [reflexivity|].
    rewrite run_dead; [reflexivity|].
    intros q' _. rewrite Hq. reflexivity. }
  induction n as [|n IH]; intros q f1 f2 Hq H1 H2.
  - rewrite !Hstuck by lia. reflexivity.
  - destruct (Nat.eq_dec (length (rest q)) (S n)) as [Heq | Hne].
    2: { apply IH; lia. }
    destruct f1 as [|g1]; [lia|]. destruct f2 as [|g2]; [lia|]. simpl.
    rewrite (run_ext f a A q
               (fun q' => if length (rest q') <? length (rest q)
                          then star_loop (run f a) k g1 q' else None)
               (fun q' => if length (rest q') <? length (rest q)
                          then star_loop (run f a) k g2 q' else None));
      [reflexivity|].
    intros q' _. destruct (length (rest q') <? length (rest q)) eqn:E;
      [|reflexivity].
    apply Nat.ltb_lt in E. apply IH; lia.
Qed.

Lemma star_more_fuel (f : flags) (a : re) {A} (k : pos -> option A)
  (p : pos) (extra : nat) :
  star_loop (run f a) k (length (rest p) + extra) p = run f (Star a) p k.
Proof.
  simpl. apply (star_fuel_enough f a k (length (rest p))); lia.
Qed.

(** The white-space characters. *)
Definition spaces : list ascii :=
  map chr [9; 10; 11; 12; 13; 28; 29; 30; 31; 32; 133; 160]%N.

Lemma is_space_spaces (c : ascii) : is_space c = true -> In c spaces.
Proof.
  destruct c as [[] [] [] [] [] [] [] []]; vm_compute; intros H;
    try discriminate H;
    repeat (try (left; reflexivity); right).
Qed.

(** A sufficient condition for a pattern to need a character that is not
    white space: it has, in sequence, a literal or a class that no
    white-space character matches. *)
Fixpoint needs_nonspace (f : flags) (r : re) : bool :=
  match r with
  | Lit c => forallb (fun x => negb (lit_eq f c x)) spaces
  | Cls n items => forallb (fun x => negb (cls_has f n items x)) spaces
  | Seq a b => needs_nonspace f a || needs_nonspace f b
  | Alt a b => needs_nonspace f a && needs_nonspace f b
  | Group a => needs_nonspace f a
  | _ => false
  end.

Definition blank (t : str) : bool := forallb is_space t.

Lemma blank_suffix (a b : str) : suffix a b -> blank b = true -> blank a = true.
Proof.
  intros [pre ->] H. unfold blank in *. rewrite forallb_app in H.
  apply andb_true_iff in H. tauto.
Qed.

Lemma one_blank {A} (p : pos) (ok : ascii -> bool) (k : pos -> option A) :
  forallb (fun x => negb (ok x)) spaces = true ->
  blank (rest p) = true -> one p ok k = None.
Proof.
  intros Hok Hb. unfold one. destruct (rest p) as [|c t]; [reflexivity|].
  simpl in Hb. apply andb_true_iff in Hb. destruct Hb as [Hc _].
  apply is_space_spaces in Hc.
  rewrite forallb_forall in Hok. specialize (Hok c Hc).
  destruct (ok c); [discriminate|reflexivity].
Qed.

Lemma run_blank (f : flags) (r : re) :
  needs_nonspace f r = true ->
  forall A (p : pos) (k : pos -> option A),
    blank (rest p) = true -> run f r p k = None.
Proof.
  induction r as [ | c | | n items | a IHa b IHb | a IHa b IHb | a IHa
                 | a IHa | a IHa | | ]; simpl; intros Hn A p k Hb;
    try discriminate Hn.
  - apply one_blank; assumption.
  - apply one_blank; assumption.
  - apply orb_true_iff in Hn. destruct Hn as [Hn | Hn].
    + apply IHa; assumption.
    + apply run_dead. intros p' Hp'. apply IHb; [assumption|].
      eapply blank_suffix; eassumption.
  - apply andb_true_iff in Hn. destruct Hn as [Hna Hnb].
    rewrite IHa by assumption. apply IHb; assumption.
  - apply IHa; assumption.
Qed.

Lemma finditer_blank (f : flags) (r : re) :
  needs_nonspace f r = true ->
  forall t prev skip, blank t = true -> finditer_from f r prev t skip = [].
Proof.
  intros Hn. induction t as [|c t IH]; intros prev skip Hb.
  - destruct skip; simpl; [|reflexivity].
    unfold match_at. rewrite run_blank; [reflexivity | exact Hn | exact Hb].
  - assert (Ht : blank t = true).
    { simpl in Hb. apply andb_true_iff in Hb. tauto. }
    destruct skip; simpl.
    + unfold match_at. rewrite run_blank; [| exact Hn | exact Hb].
      apply IH. exact Ht.
    + apply IH. exact Ht.
Qed.

Lemma dropWhile_nil (p : ascii -> bool) (t : str) :
  dropWhile p t = [] -> forallb p t = true.
Proof.
  induction t as [|c t IH]; simpl; [reflexivity|].
  destruct (p c); [exact IH | discriminate].
Qed.

Lemma dropWhile_keeps (p : ascii -> bool) (t : str) (c : ascii) :
  In c t -> p c = false -> dropWhile p t <> [].
Proof.
  induction t as [|x t IH]; simpl; [intros []|].
  intros [-> | Hin] Hc.
  - rewrite Hc. discriminate.
  - destruct (p x); [apply IH; assumption | discriminate].
Qed.

(** A line that [strip] empties is made of white space. *)
Lemma strip_nil_blank (t : str) : strip t = [] -> blank t = true.
Proof.
  unfold strip, strip_by, rstrip_by, lstrip_by, blank. intros H.
  apply dropWhile_nil.
  destruct (dropWhile is_space t) as [|c t'] eqn:E; [reflexivity|].
  exfalso.
  assert (Hc : is_space c = false).
  { clear H. revert E. induction t as [|x t IH]; simpl; [discriminate|].
    destruct (is_space x) eqn:Ex; [exact IH|].
    intros H. inversion H; subst. exact Ex. }
  assert (Hrev : rev (dropWhile is_space (rev (c :: t'))) = []) by exact H.
  apply (f_equal (@rev ascii)) in Hrev. rewrite rev_involutive in Hrev.
  simpl rev in Hrev at 2.
  apply (dropWhile_keeps is_space (rev (c :: t')) c); [|exact Hc|exact Hrev].
  apply in_rev. rewrite rev_involutive. left. reflexivity.
Qed.

(** A pattern that needs a character other than white space has no match
    on a line that [strip] empties. *)
Lemma no_match_on_blank_line (f : flags) (r : re) (line : str) :
  needs_nonspace f r = true -> strip line = [] -> finditer f r line = [].
Proof.
  intros Hn Hs. apply finditer_blank; [exact Hn|].
  apply strip_nil_blank. exact Hs.
Qed.

End RegexFacts.

(** ** The credential scanner *)

Module CredentialsFacts.
Import Text Regex Codec Exn Fs Credentials TextFacts.

Lemma is_some_true {A} (o : option A) :
  is_some o = true <-> exists x, o = Some x.
Proof.
  destruct o; simpl; split; try discriminate; eauto.
  intros [x H]; discriminate.
Qed.

(** What [is_base64_encoded] checks, condition by condition. *)
Definition base64_conditions (text : str) : Prop :=
  20 < length text /\
  length text mod 4 = 0 /\
  (exists m, re_match NOFLAGS BASE64_RE text = Some m) /\
  (exists decoded, b64decode text = Some decoded /\ utf8_ok decoded = true).

Lemma is_base64_encoded_true (text : str) :
  is_base64_encoded text = true <-> base64_conditions text.
Proof.
  unfold is_base64_encoded, base64_conditions.
  destruct (length text mod 4 =? 0) eqn:Hm; simpl.
  2: { split; [discriminate|]. intros (_ & H & _).
       apply Nat.eqb_neq in Hm. contradiction. }
  apply Nat.eqb_eq in Hm.
  destruct (re_match NOFLAGS BASE64_RE text) as [m|] eqn:Hr; simpl.
  2: { split; [discriminate|]. intros (_ & _ & [m Hm'] & _). discriminate. }
  destruct (b64decode text) as [d|] eqn:Hd.
  2: { split; [discriminate|]. intros (_ & _ & _ & [d [H _]]). discriminate. }
  destruct (utf8_ok d) eqn:Hu.
  - rewrite Nat.ltb_lt. split.
    + intros H. repeat split; eauto.
    + intros (H & _); exact H.
  - split; [discriminate|]. intros (_ & _ & _ & [d' [H1 H2]]). congruence.
Qed.

(** The words of the description of a safe value: the value with its
    surrounding quotes stripped, in lower case, is a known safe value, or
    is shorter than four characters, or is one character repeated, or
    contains a placeholder indicator. *)
Definition clean (v : str) : str := lower (strip_chars [squote; dquote] v).

Definition safe_value_spec (v : str) : Prop :=
  In (clean v) SAFE_VALUES \/
  length (clean v) < 4 \/
  (exists c n, clean v = repeat c (S n)) \/
  (exists indicator pre post,
      In indicator placeholder_indicators /\
      clean v = pre ++ indicator ++ post).

Lemma is_safe_value_spec (v : str) :
  is_safe_value v = true <-> safe_value_spec v.
Proof.
  unfold is_safe_value, safe_value_spec. fold (clean v).
  destruct (mem_str (clean v) SAFE_VALUES) eqn:E1.
  { apply mem_str_In in E1. tauto. }
  destruct (length (clean v) <? 4) eqn:E2.
  { apply Nat.ltb_lt in E2. tauto. }
  destruct (distinct_chars (clean v) =? 1) eqn:E3.
  { apply Nat.eqb_eq, distinct_chars_one in E3. tauto. }
  destruct (existsb (fun indicator => contains indicator (clean v))
              placeholder_indicators) eqn:E4.
  { apply existsb_exists in E4. destruct E4 as [ind [Hin Hc]].
    apply contains_infix in Hc. destruct Hc as [pre [post Hc]].
    split; [|reflexivity]. intros _. right; right; right.
    exists ind, pre, post. split; assumption. }
  split; [discriminate|].
  intros [H | [H | [H | [ind [pre [post [Hin Hc]]]]]]]; exfalso.
  - apply mem_str_In in H. congruence.
  - apply Nat.ltb_lt in H. congruence.
  - apply distinct_chars_one, Nat.eqb_eq in H. congruence.
  - assert (Hex : existsb (fun indicator => contains indicator (clean v))
                    placeholder_indicators = true).
    { apply existsb_exists. exists ind. split; [assumption|].
      apply contains_infix. exists pre, post. assumption. }
    congruence.
Qed.

(** What one match adds to [issues]: nothing, or its own entry. *)
Lemma cred_in_check_match (file_path : str) (n : nat) (line cred : str)
  (m : match_obj) (i : issue) :
  In i (check_match file_path n line cred m) <->
  i = (n, strip line, cred, extract_credential_value (group0 m)) /\
  is_safe_value (extract_credential_value (group0 m)) = false /\
  (is_safe_context line file_path = true ->
   (30 <? length (extract_credential_value (group0 m)))
   || is_base64_encoded (extract_credential_value (group0 m)) = true).
Proof.
  unfold check_match.
  destruct (is_safe_value _) eqn:Es.
  { simpl. split; [tauto|]. intros (_ & H & _); discriminate. }
  destruct (is_safe_context line file_path) eqn:Ec.
  - destruct (_ || _) eqn:Eb; simpl.
    + split; [intros [H|[]]; auto | intros (H & _); auto].
    + split; [tauto|]. intros (_ & _ & H). specialize (H eq_refl).
      discriminate.
  - simpl. split; [intros [H|[]]; repeat split; auto; discriminate
                  | intros (H & _); auto].
Qed.

(** Where an entry of [issues] comes from. *)
Lemma in_scan_content (file_path content : str) (i : issue) :
  In i (scan_content file_path content) <->
  exists n line cred patterns pattern m,
    In (n, line) (enumerate 1 (split newline content)) /\
    strip line <> [] /\
    In (cred, patterns) CREDENTIAL_PATTERNS /\
    In pattern patterns /\
    In m (finditer IGNORECASE pattern line) /\
    In i (check_match file_path n line cred m).
Proof.
  unfold scan_content. rewrite in_flat_map. split.
  - intros [[n line] [Hnl Hi]]. simpl in Hi. unfold scan_line in Hi.
    destruct (strip line) eqn:Es; [contradiction|].
    apply in_flat_map in Hi. destruct Hi as [[cred patterns] [Hc Hi]].
    apply in_flat_map in Hi. destruct Hi as [pattern [Hp Hi]].
    apply in_flat_map in Hi. destruct Hi as [m [Hm Hi]].
    exists n, line, cred, patterns, pattern, m.
    rewrite Es. repeat split; try assumption. discriminate.
  - intros (n & line & cred & patterns & pattern & m
            & Hnl & Hs & Hc & Hp & Hm & Hi).
    exists (n, line). split; [assumption|]. simpl. unfold scan_line.
    destruct (strip line) eqn:Es; [congruence|].
    apply in_flat_map. exists (cred, patterns). split; [assumption|].
    apply in_flat_map. exists pattern. split; [assumption|].
    apply in_flat_map. exists m. split; assumption.
Qed.

(** The issues of a file are those of its text, when it is scanned. *)
Lemma find_issues (disk : fs) (file_path : str) (i : issue) :
  In i (fst (find_hardcoded_credentials disk file_path)) ->
  exists content,
    disk file_path = Content content /\
    existsb (fun ext => endswith ext file_path) SKIP_EXTENSIONS = false /\
    In i (scan_content file_path content).
Proof.
  unfold find_hardcoded_credentials.
  destruct (existsb _ SKIP_EXTENSIONS); [intros []|].
  destruct (disk file_path) as [content|e|read e];
    [|intros []|intros []].
  simpl. intros H. exists content. auto.
Qed.

(** Every credential pattern needs a character that is not white space,
    so a line with a match is not blank. *)
Lemma patterns_need_nonspace :
  forallb (fun entry : str * list re =>
             forallb (RegexFacts.needs_nonspace IGNORECASE) (snd entry))
          CREDENTIAL_PATTERNS = true.
Proof. vm_compute. reflexivity. Qed.

Lemma match_needs_text (cred : str) (patterns : list re) (pattern : re)
  (line : str) (m : match_obj) :
  In (cred, patterns) CREDENTIAL_PATTERNS ->
  In pattern patterns ->
  In m (finditer IGNORECASE pattern line) ->
  strip line <> [].
Proof.
  intros Hc Hp Hm Hs. pose proof patterns_need_nonspace as H.
  rewrite forallb_forall in H. specialize (H _ Hc). simpl in H.
  rewrite forallb_forall in H. specialize (H _ Hp).
  rewrite (RegexFacts.no_match_on_blank_line IGNORECASE pattern line H Hs)
    in Hm.
  destruct Hm.
Qed.

End CredentialsFacts.

(* ================================================================== *)
(** * Properties of the credential heuristics *)
(* ================================================================== *)

Module CredentialClaims.
Import Text Regex Codec Exn Fs Credentials TextFacts CredentialsFacts.

(** C4. [is_base64_encoded text] is [True] exactly when the text is longer
    than 20 characters, its length is a multiple of 4, it matches
    ^[A-Za-z0-9+/]*={0,2}$, and its base64 decoding succeeds and gives
    valid UTF-8; in every other case, a decoding that raises included,
    it is [False]. *)
Theorem is_base64_encoded_exact (text : str) :
  (is_base64_encoded text = true <-> base64_conditions text) /\
  (is_base64_encoded text = false <-> ~ base64_conditions text) /\
  (b64decode text = None -> is_base64_encoded text = false).
Proof.
  pose proof (is_base64_encoded_true text) as H.
  split; [exact H|]. split.
  - destruct (is_base64_encoded text); split; intros H1.
    + discriminate.
    + exfalso. apply H1. apply H. reflexivity.
    + intros H2. apply H in H2. discriminate.
    + reflexivity.
  - clear H. intros Hd.
    destruct (is_base64_encoded text) eqn:E; [|reflexivity].
    apply is_base64_encoded_true in E.
    destruct E as (_ & _ & _ & [d [Hd' _]]). congruence.
Qed.

(** A text that meets the four conditions, and three that each miss one:
    too short, not UTF-8 once decoded, and one whose decoding raises. *)
Example is_base64_encoded_samples :
  is_base64_encoded (s "QUJDQUJDQUJDQUJDQUJDQUJD") = true /\
  is_base64_encoded (s "QUJDQUJDQUJDQUJDQUJD") = false /\
  is_base64_encoded (s "//////////////////////8=") = false /\
  is_base64_encoded (s "QUJDQUJDQUJDQUJDQUJDQUJ" ++ [newline]) = false.
Proof. repeat split; vm_compute; reflexivity. Qed.

(** C5. A match whose extracted value is safe (a known safe value, shorter
    than four characters, one repeated character, or holding a placeholder
    indicator, after stripping quotes and lower-casing) adds nothing to
    the issues, whatever the file and the line; so no issue of any file
    carries a safe value. *)
Theorem safe_value_never_reported (v : str) :
  safe_value_spec v ->
  (forall file_path n line cred m,
      extract_credential_value (group0 m) = v ->
      check_match file_path n line cred m = []) /\
  (forall disk file_path i,
      In i (fst (find_hardcoded_credentials disk file_path)) ->
      value i <> v).
Proof.
  intros Hsafe. apply is_safe_value_spec in Hsafe. split.
  - intros file_path n line cred m Hv. unfold check_match.
    rewrite Hv, Hsafe. reflexivity.
  - intros disk file_path i Hi Hv.
    apply find_issues in Hi. destruct Hi as (content & _ & _ & Hi).
    apply in_scan_content in Hi.
    destruct Hi as (n & line & cred & patterns & pattern & m
                    & _ & _ & _ & _ & _ & Hi).
    apply cred_in_check_match in Hi. destruct Hi as (-> & Hns & _).
    unfold value in Hv. simpl in Hv. congruence.
Qed.

(** The placeholder of a configuration template is a safe value. *)
Lemma safe_value_never_reported_witness :
  safe_value_spec (s "your_key_is_here") /\
  (forall file_path n line cred m,
      extract_credential_value (group0 m) = s "your_key_is_here" ->
      check_match file_path n line cred m = []) /\
  (forall disk file_path i,
      In i (fst (find_hardcoded_credentials disk file_path)) ->
      value i <> s "your_key_is_here").
Proof.
  assert (H : safe_value_spec (s "your_key_is_here")).
  { apply is_safe_value_spec. vm_compute. reflexivity. }
  split; [exact H|].
  exact (safe_value_never_reported (s "your_key_is_here") H).
Defined.

(** The safe context in words: the file path, once [norm] is applied to
    it, holds a test indicator, or the lower-cased line matches one of the
    safe-context patterns.  The source applies [lower] to the path. *)
Definition safe_context_spec (norm : str -> str) (line file_path : str)
  : Prop :=
  (exists indicator,
      In indicator TEST_INDICATORS /\
      contains indicator (norm file_path) = true) \/
  (exists pattern m,
      In pattern SAFE_CONTEXT_PATTERNS /\
      re_match NOFLAGS pattern (lower line) = Some m).

Definition safe_context_b (norm : str -> str) (line file_path : str) : bool :=
  existsb (fun indicator => contains indicator (norm file_path))
          TEST_INDICATORS
  || existsb (fun pattern => is_some (re_match NOFLAGS pattern (lower line)))
             SAFE_CONTEXT_PATTERNS.

Lemma safe_context_b_spec (norm : str -> str) (line file_path : str) :
  safe_context_b norm line file_path = true <->
  safe_context_spec norm line file_path.
Proof.
  unfold safe_context_b, safe_context_spec.
  rewrite orb_true_iff, !existsb_exists. split.
  - intros [[ind H] | [pat [Hin H]]]; [left; exists ind; exact H|].
    apply is_some_true in H. destruct H as [m H].
    right. exists pat, m. split; assumption.
  - intros [[ind H] | [pat [m [Hin H]]]]; [left; exists ind; exact H|].
    right. exists pat. split; [assumption|]. rewrite H. reflexivity.
Qed.

Lemma is_safe_context_lower (line file_path : str) :
  is_safe_context line file_path = safe_context_b lower line file_path.
Proof.
  unfold is_safe_context, safe_context_b.
  destruct (existsb _ TEST_INDICATORS); reflexivity.
Qed.

(** The rule for reporting a match with a value that is not safe, for a
    given notion [ctx] of safe context: inside it the match is reported
    exactly when the value is longer than 30 characters or looks
    base64-encoded, outside it always. *)
Definition report_rule (ctx : str -> str -> Prop) : Prop :=
  forall (disk : fs) (file_path content : str) (n : nat) (line cred : str)
         (patterns : list re) (pattern : re) (m : match_obj),
    disk file_path = Content content ->
    existsb (fun ext => endswith ext file_path) SKIP_EXTENSIONS = false ->
    In (n, line) (enumerate 1 (split newline content)) ->
    In (cred, patterns) CREDENTIAL_PATTERNS ->
    In pattern patterns ->
    In m (finditer IGNORECASE pattern line) ->
    is_safe_value (extract_credential_value (group0 m)) = false ->
    (ctx line file_path ->
     (In (n, strip line, cred, extract_credential_value (group0 m))
         (fst (find_hardcoded_credentials disk file_path)) <->
      30 < length (extract_credential_value (group0 m)) \/
      is_base64_encoded (extract_credential_value (group0 m)) = true)) /\
    (~ ctx line file_path ->
     In (n, strip line, cred, extract_credential_value (group0 m))
        (fst (find_hardcoded_credentials disk file_path))).

(** A password assignment in a file named Test.py. *)
Definition password_line : str := s "password = 'hunter22'".
Definition capital_disk : fs := fun _ => Content password_line.

(** C6, as stated, with the test indicators looked for in the file path
    as it is: in Test.py the assignment of a short password is outside
    every safe context of the statement, and yet it is not reported
    (the source lower-cases the path first, so Test.py is a test file). *)
Lemma report_rule_fails_on_capital_path :
  ~ report_rule (safe_context_spec (fun file_path => file_path)).
Proof.
  intros Hrule.
  destruct (Hrule capital_disk (s "Test.py") password_line 1 password_line
              (s "password")
              [ quoted (lit "password") 3; quoted (lit "pwd") 3;
                quoted (lit "passwd") 3; quoted (lit "secret") 8 ]
              (quoted (lit "password") 3)
              {| group0 := password_line; group1 := None |})
    as [_ Hout].
  - reflexivity.
  - vm_compute. reflexivity.
  - vm_compute. left. reflexivity.
  - left. reflexivity.
  - left. reflexivity.
  - vm_compute. left. reflexivity.
  - vm_compute. reflexivity.
  - assert (Hnot : ~ safe_context_spec (fun p => p) password_line
                       (s "Test.py")).
    { intros H. apply safe_context_b_spec in H. vm_compute in H.
      discriminate. }
    specialize (Hout Hnot). vm_compute in Hout. exact Hout.
Qed.

(** C6, with the file path lower-cased as the source does: a match of a
    credential pattern on a line of a scanned file, with a value that is
    not safe, is reported in a safe context exactly when the value is
    longer than 30 characters or is detected as base64-encoded, and is
    always reported outside a safe context. *)
Theorem report_rule_lowered_path
  (disk : fs) (file_path content : str) (n : nat) (line cred : str)
  (patterns : list re) (pattern : re) (m : match_obj) :
  disk file_path = Content content ->
  existsb (fun ext => endswith ext file_path) SKIP_EXTENSIONS = false ->
  In (n, line) (enumerate 1 (split newline content)) ->
  In (cred, patterns) CREDENTIAL_PATTERNS ->
  In pattern patterns ->
  In m (finditer IGNORECASE pattern line) ->
  is_safe_value (extract_credential_value (group0 m)) = false ->
  (safe_context_spec lower line file_path ->
   (In (n, strip line, cred, extract_credential_value (group0 m))
       (fst (find_hardcoded_credentials disk file_path)) <->
    30 < length (extract_credential_value (group0 m)) \/
    is_base64_encoded (extract_credential_value (group0 m)) = true)) /\
  (~ safe_context_spec lower line file_path ->
   In (n, strip line, cred, extract_credential_value (group0 m))
      (fst (find_hardcoded_credentials disk file_path))).
Proof.
  intros Hdisk Hskip Hnl Hcred Hpat Hm Hsafe.
  pose proof (match_needs_text cred patterns pattern line m Hcred Hpat Hm)
    as Hstrip.
  unfold find_hardcoded_credentials. rewrite Hskip, Hdisk. simpl.
  set (v := extract_credential_value (group0 m)) in *.
  assert (Hin : (is_safe_context line file_path = true ->
                 (30 <? length v) || is_base64_encoded v = true) ->
                In (n, strip line, cred, v) (scan_content file_path content)).
  { intros Hdec. apply in_scan_content.
    exists n, line, cred, patterns, pattern, m.
    repeat split; try assumption.
    apply cred_in_check_match. repeat split; assumption. }
  split.
  - intros Hctx. apply safe_context_b_spec in Hctx.
    rewrite <- is_safe_context_lower in Hctx. split.
    + intros Hi. apply in_scan_content in Hi.
      destruct Hi as (n' & line' & cred' & patterns' & pattern' & m'
                      & Hnl' & _ & _ & _ & _ & Hi).
      apply cred_in_check_match in Hi. destruct Hi as (Heq & _ & Hdec).
      inversion Heq; subst n' cred'.
      assert (line' = line) by (eapply enumerate_functional; eassumption).
      subst line'. specialize (Hdec Hctx).
      match goal with H : v = _ |- _ => rewrite <- H in Hdec end.
      apply orb_true_iff in Hdec. destruct Hdec as [Hlen | Hb].
      * left. apply Nat.ltb_lt. exact Hlen.
      * right. exact Hb.
    + intros Hdec. apply Hin. intros _. apply orb_true_iff.
      destruct Hdec as [Hlen | Hb]; [left; apply Nat.ltb_lt; exact Hlen|].
      right; exact Hb.
  - intros Hctx. apply Hin. intros Htrue. exfalso. apply Hctx.
    apply safe_context_b_spec. rewrite <- is_safe_context_lower. exact Htrue.
Qed.

(** A long token in a commented line is reported although the context is
    safe. *)
Definition token_line : str :=
  s "# token = 'abcdefghijklmnopqrstuvwxyz0123456789'".
Definition token_disk : fs := fun _ => Content token_line.

Lemma report_rule_lowered_path_witness :
  safe_context_spec lower token_line (s "conf.py") /\
  In (1, token_line, s "token", s "abcdefghijklmnopqrstuvwxyz0123456789")
     (fst (find_hardcoded_credentials token_disk (s "conf.py"))).
Proof.
  assert (Hctx : safe_context_spec lower token_line (s "conf.py")).
  { apply safe_context_b_spec. vm_compute. reflexivity. }
  split; [exact Hctx|].
  destruct (report_rule_lowered_path token_disk (s "conf.py") token_line 1
              token_line (s "token")
              [ quoted (lit "token") 10;
                quoted (Seq (lit "auth") (Seq sep (lit "token"))) 10;
                quoted (Seq (lit "access") (Seq sep (lit "token"))) 10;
                quoted (lit "bearer") 10 ]
              (quoted (lit "token") 10)
              {| group0 := s "token = 'abcdefghijklmnopqrstuvwxyz0123456789'";
                 group1 := None |}) as [Hin _].
  - reflexivity.
  - vm_compute. reflexivity.
  - vm_compute. left. reflexivity.
  - right. right. left. reflexivity.
  - left. reflexivity.
  - vm_compute. left. reflexivity.
  - vm_compute. reflexivity.
  - apply (proj2 (Hin Hctx)). left. vm_compute. lia.
Defined.

End CredentialClaims.

(* ================================================================== *)
(** * Line numbers *)
(* ================================================================== *)

Module LineFacts.
Import Text TextFacts.

Lemma split_not_nil (sep : ascii) (t : str) : split sep t <> [].
Proof.
  destruct t as [|c t]; simpl; [discriminate|].
  destruct (ascii_eqb c sep); [discriminate|].
  destruct (split sep t); discriminate.
Qed.

(** A field of [split] that is not empty is one of the lines of the
    file: the only field beyond them is the empty one after a final
    newline. *)
Lemma split_field_is_line (t : str) :
  forall j line,
    nth_error (split newline t) j = Some line -> line <> [] ->
    j < length (readlines t).
Proof.
  induction t as [|c t IH]; intros j line Hj Hne.
  - destruct j as [|[|j]]; simpl in Hj; try discriminate.
    inversion Hj; subst. contradiction.
  - simpl in *. destruct (ascii_eqb c newline).
    + destruct j as [|j]; simpl in *.
      * inversion Hj; subst. contradiction.
      * apply IH in Hj; [lia | assumption].
    + destruct (split newline t) as [|f fs] eqn:Es.
      { exfalso. exact (split_not_nil newline t Es). }
      destruct j as [|j]; simpl in *.
      * destruct (readlines t); simpl; lia.
      * specialize (IH (S j) line Hj Hne).
        destruct (readlines t); simpl in *; lia.
Qed.

Lemma StronglySorted_app (l1 l2 : list nat) :
  StronglySorted le l1 -> StronglySorted le l2 ->
  (forall a b, In a l1 -> In b l2 -> a <= b) ->
  StronglySorted le (l1 ++ l2).
Proof.
  induction l1 as [|x l1 IH]; intros H1 H2 H12; simpl; [assumption|].
  inversion H1; subst. constructor.
  - apply IH; [assumption | assumption |].
    intros a b Ha Hb. apply H12; [right|]; assumption.
  - apply Forall_app. split; [assumption|].
    apply Forall_forall. intros b Hb. apply H12; [left; reflexivity|assumption].
Qed.

Lemma StronglySorted_const (k : nat) (l : list nat) :
  (forall a, In a l -> a = k) -> StronglySorted le l.
Proof.
  induction l as [|x l IH]; intros H; constructor.
  - apply IH. intros a Ha. apply H. right; assumption.
  - apply Forall_forall. intros b Hb.
    rewrite (H x (or_introl eq_refl)), (H b (or_intror Hb)). lia.
Qed.

(** A loop over the numbered lines whose body tags what it appends with
    the number of its line appends in line order, with numbers of the
    enumeration. *)
Lemma numbered_scan_sorted {A I : Type} (num : I -> nat)
  (body : nat -> A -> list I) (xs : list A) :
  (forall n x i, In i (body n x) -> num i = n) ->
  forall k,
    StronglySorted le
      (map num (flat_map (fun nl : nat * A => body (fst nl) (snd nl))
                         (enumerate k xs))) /\
    (forall i,
        In i (flat_map (fun nl : nat * A => body (fst nl) (snd nl))
                       (enumerate k xs)) ->
        k <= num i < k + length xs).
Proof.
  intros Hbody. induction xs as [|x xs IH]; intros k; simpl.
  - split; [constructor | intros i []].
  - destruct (IH (S k)) as [Hs Hb]. split.
    + rewrite map_app. apply StronglySorted_app.
      * apply (StronglySorted_const k). intros a Ha.
        apply in_map_iff in Ha. destruct Ha as [i [<- Hi]].
        apply Hbody in Hi. exact Hi.
      * exact Hs.
      * intros a b Ha Hb'.
        apply in_map_iff in Ha. destruct Ha as [i [<- Hi]].
        apply in_map_iff in Hb'. destruct Hb' as [i' [<- Hi']].
        apply Hbody in Hi. apply Hb in Hi'. lia.
    + intros i Hi. apply in_app_or in Hi. destruct Hi as [Hi | Hi].
      * apply Hbody in Hi. lia.
      * apply Hb in Hi. lia.
Qed.

End LineFacts.

(** ** The URL scanner *)

Module UrlsFacts.
Import Text Regex Exn Fs Urls TextFacts.

Lemma url_in_check_match (n : nat) (line : str) (m : match_obj) (i : issue) :
  In i (check_match n line m) -> i = (n, strip line, group0 m).
Proof.
  unfold check_match. destruct (is_safe_url _); [intros []|].
  destruct (is_in_comment line).
  - destruct (existsb _ SUSPICIOUS_KEYWORDS); [|intros []].
    intros [H|[]]; auto.
  - intros [H|[]]; auto.
Qed.

Lemma in_scan_line (n : nat) (line : str) (i : issue) :
  In i (scan_line n line) -> line_num i = n /\ strip line <> [].
Proof.
  unfold scan_line. destruct (strip line) eqn:Es; [intros []|].
  intros Hi. apply in_flat_map in Hi. destruct Hi as [pattern [_ Hi]].
  apply in_flat_map in Hi. destruct Hi as [m [_ Hi]].
  apply url_in_check_match in Hi. subst i. split; [reflexivity|discriminate].
Qed.

End UrlsFacts.

(* ================================================================== *)
(** * The loops of the [main] functions *)
(* ================================================================== *)

Module CredentialsMain.
Import Text Regex Exn Fs Credentials TextFacts CredentialsFacts.

(** [find_hardcoded_credentials] on the file it is given, without the
    rest of the disk. *)
Definition per_file (file_path : str) (f : file) : list issue * list event :=
  find_hardcoded_credentials (fun _ => f) file_path.

Lemma cred_find_per_file (disk : fs) (file_path : str) :
  find_hardcoded_credentials disk file_path
  = per_file file_path (disk file_path).
Proof. reflexivity. Qed.

Definition has_issues (disk : fs) (file_path : str) : bool :=
  match fst (find_hardcoded_credentials disk file_path) with
  | [] => false
  | _ => true
  end.

(** What one file adds to the output of the loop. *)
Definition report (show : bool) (file_path : str) (f : file) : list event :=
  let (issues, err) := per_file file_path f in
  err ++
  match issues with
  | [] => []
  | _ => Stdout (FoundIn file_path)
         :: flat_map (print_issue {| files := []; show_values := show |})
                     issues
  end.

Lemma cred_fold_main_step (disk : fs) (a : args) (l : list str) :
  forall st,
    let st' := fold_left (main_step disk a) l st in
    exit_code st'
    = (if existsb (has_issues disk) l then 1 else exit_code st) /\
    trace st'
    = trace st
      ++ flat_map (fun p => report (show_values a) p (disk p)) l /\
    total_issues st'
    = total_issues st
      + list_sum (map (fun p =>
                         length (fst (find_hardcoded_credentials disk p))) l).
Proof.
  induction l as [|p l IH]; intros st; simpl.
  - rewrite app_nil_r. repeat split; lia.
  - destruct (IH (main_step disk a st p)) as (He & Ht & Hn).
    rewrite He, Ht, Hn. clear IH He Ht Hn.
    unfold main_step, has_issues, report.
    rewrite <- (cred_find_per_file disk p).
    destruct (find_hardcoded_credentials disk p) as [issues err].
    destruct issues as [|i issues]; simpl.
    + rewrite app_nil_r. repeat split; try reflexivity.
      rewrite app_assoc. reflexivity.
    + repeat split.
      * destruct (existsb _ l); reflexivity.
      * rewrite <- !app_assoc. reflexivity.
      * lia.
Qed.

Definition is_found (e : event) : bool :=
  match e with Stdout (FoundIn _) => true | _ => false end.

Lemma cred_report_found (show : bool) (disk : fs) (p : str) :
  existsb is_found (report show p (disk p)) = has_issues disk p.
Proof.
  unfold report, has_issues. rewrite <- cred_find_per_file.
  unfold find_hardcoded_credentials.
  destruct (existsb _ SKIP_EXTENSIONS); [reflexivity|].
  destruct (disk p) as [content|e|read e]; simpl;
    [|reflexivity|reflexivity].
  destruct (scan_content p content); reflexivity.
Qed.


(** The exit code is 1 exactly when the output names a file with
    findings, and 0 otherwise. *)
Lemma cred_exit_code_tracks_findings (disk : fs) (a : args) :
  fst (main disk a)
  = if existsb is_found (snd (main disk a)) then 1 else 0.
Proof.
  unfold main, main_loop.
  destruct (cred_fold_main_step disk a (files a)
              {| exit_code := 0; total_issues := 0; trace := [] |})
    as (He & Ht & _).
  simpl in *. rewrite He, Ht. rewrite existsb_app, existsb_flat_map.
  assert (Hsum : existsb is_found
            (if 0 <? total_issues (fold_left (main_step disk a) (files a)
                   {| exit_code := 0; total_issues := 0; trace := [] |})
             then [Stdout (FoundTotal (total_issues
                     (fold_left (main_step disk a) (files a)
                        {| exit_code := 0; total_issues := 0;
                           trace := [] |})));
                   Stdout (Advice 1); Stdout (Advice 2); Stdout (Advice 3)]
             else [Stdout NoneDetected]) = false).
  { destruct (0 <? _); reflexivity. }
  rewrite Hsum, orb_false_r.
  rewrite (existsb_pointwise
             (fun x => existsb is_found (report (show_values a) x (disk x)))
             (has_issues disk)); [reflexivity|].
  intros p. apply cred_report_found.
Qed.

Lemma cred_exit_code_issues (disk : fs) (a : args) :
  fst (main disk a) = if existsb (has_issues disk) (files a) then 1 else 0.
Proof.
  unfold main, main_loop.
  destruct (cred_fold_main_step disk a (files a)
              {| exit_code := 0; total_issues := 0; trace := [] |})
    as (He & _ & _).
  simpl in *. exact He.
Qed.

End CredentialsMain.

Module UrlsMain.
Import Text Regex Exn Fs Urls TextFacts.

(** [find_hardcoded_urls] on the file it is given, without the rest of
    the disk. *)
Definition per_file (file_path : str) (f : file) : list issue * list event :=
  find_hardcoded_urls (fun _ => f) file_path.

Lemma url_find_per_file (disk : fs) (file_path : str) :
  find_hardcoded_urls disk file_path = per_file file_path (disk file_path).
Proof. reflexivity. Qed.

Definition has_issues (disk : fs) (file_path : str) : bool :=
  match fst (find_hardcoded_urls disk file_path) with
  | [] => false
  | _ => true
  end.

(** What one file adds to the output of the loop. *)
Definition report (file_path : str) (f : file) : list event :=
  let (issues, err) := per_file file_path f in
  err ++
  match issues with
  | [] => []
  | _ => Stdout (FoundIn file_path) :: flat_map print_issue issues
  end.

Lemma url_fold_main_step (disk : fs) (l : list str) :
  forall st,
    let st' := fold_left (main_step disk) l st in
    exit_code st'
    = (if existsb (has_issues disk) l then 1 else exit_code st) /\
    trace st' = trace st ++ flat_map (fun p => report p (disk p)) l /\
    total_issues st'
    = total_issues st
      + list_sum (map (fun p => length (fst (find_hardcoded_urls disk p))) l).
Proof.
  induction l as [|p l IH]; intros st; simpl.
  - rewrite app_nil_r. repeat split; lia.
  - destruct (IH (main_step disk st p)) as (He & Ht & Hn).
    rewrite He, Ht, Hn. clear IH He Ht Hn.
    unfold main_step, has_issues, report.
    rewrite <- (url_find_per_file disk p).
    destruct (find_hardcoded_urls disk p) as [issues err].
    destruct issues as [|i issues]; simpl.
    + rewrite app_nil_r. repeat split; try reflexivity.
      rewrite app_assoc. reflexivity.
    + repeat split.
      * destruct (existsb _ l); reflexivity.
      * rewrite <- !app_assoc. reflexivity.
      * lia.
Qed.

Definition is_found (e : event) : bool :=
  match e with Stdout (FoundIn _) => true | _ => false end.

Lemma url_report_found (disk : fs) (p : str) :
  existsb is_found (report p (disk p)) = has_issues disk p.
Proof.
  unfold report, has_issues. rewrite <- url_find_per_file.
  unfold find_hardcoded_urls.
  destruct (existsb _ SKIP_EXTENSIONS); [reflexivity|].
  destruct (disk p) as [content|e|read e]; simpl; [|reflexivity|];
    destruct (scan_content _); reflexivity.
Qed.

Lemma url_exit_code_issues (disk : fs) (a : args) :
  fst (main disk a) = if existsb (has_issues disk) (files a) then 1 else 0.
Proof.
  unfold main, main_loop.
  destruct (url_fold_main_step disk (files a)
              {| exit_code := 0; total_issues := 0; trace := [] |})
    as (He & _ & _).
  simpl in *. exact He.
Qed.

(** The exit code is 1 exactly when the output names a file with
    findings, and 0 otherwise. *)
Lemma url_exit_code_tracks_findings (disk : fs) (a : args) :
  fst (main disk a)
  = if existsb is_found (snd (main disk a)) then 1 else 0.
Proof.
  rewrite url_exit_code_issues.
  unfold main, main_loop.
  destruct (url_fold_main_step disk (files a)
              {| exit_code := 0; total_issues := 0; trace := [] |})
    as (_ & Ht & _).
  simpl in *. rewrite Ht. rewrite existsb_app, existsb_flat_map.
  match goal with
  | |- context [existsb is_found (if ?c then ?x else ?y)] =>
      replace (existsb is_found (if c then x else y)) with false
        by (destruct c; reflexivity)
  end.
  rewrite orb_false_r.
  rewrite (existsb_pointwise
             (fun x => existsb is_found (report x (disk x)))
             (has_issues disk)); [reflexivity|].
  intros p. apply url_report_found.
Qed.

End UrlsMain.

Module LicenseMain.
Import Text Regex Exn Fs License TextFacts.

(** The lines that report a finding about a file: a missing header
    (under either wording) or a license of the wrong type. *)
Definition is_finding (l : line) : bool :=
  match l with
  | WrongLicense _ _ _ | MissingHeader _ | NoHeaderFound _ => true
  | _ => false
  end.

(** What one file adds to the output of the loop. *)
Definition report (require : bool) (wanted : option str) (file_path : str)
  (f : file) : list line :=
  trace (main_step (fun _ => f)
           {| files := []; require_license := require;
              license_type := wanted |}
           {| exit_code := 0; checked_files := 0; files_with_license := 0;
              files_without_license := []; trace := [] |}
           file_path).

Lemma license_fold_main_step (disk : fs) (a : args) (l : list str) :
  forall st,
    let st' := fold_left (main_step disk a) l st in
    (exit_code st = (if require_license a && existsb is_finding (trace st)
                     then 1 else 0) ->
     exit_code st' = (if require_license a && existsb is_finding (trace st')
                      then 1 else 0)) /\
    trace st'
    = trace st
      ++ flat_map (fun p => report (require_license a) (license_type a)
                              p (disk p)) l.
Proof.
  induction l as [|p l IH]; intros st; simpl.
  - rewrite app_nil_r. split; auto.
  - destruct (IH (main_step disk a st p)) as (He & Ht).
    clear IH. split.
    + intros Hst. apply He. clear He Ht.
      unfold main_step.
      destruct (should_check_file p); cbn [negb]; [|exact Hst].
      destruct (has_license_header disk p) as [has found].
      assert (Hfin : forall (hit : bool) (out : list line),
                 existsb is_finding out = hit ->
                 (if hit then set_exit (require_license a) (exit_code st)
                  else exit_code st)
                 = (if require_license a
                       && existsb is_finding (trace st ++ out)
                    then 1 else 0)).
      { intros hit out Hout. rewrite existsb_app, Hout, Hst.
        unfold set_exit.
        destruct hit, (require_license a), (existsb is_finding (trace st));
          reflexivity. }
      destruct has.
      * destruct (license_type a) as [wanted|].
        -- destruct (mem_str wanted found); cbn [negb exit_code trace].
           ++ apply (Hfin false). reflexivity.
           ++ apply (Hfin true). reflexivity.
        -- cbn [exit_code trace]. apply (Hfin false). reflexivity.
      * cbn [exit_code trace]. apply (Hfin true).
        destruct (require_license a); reflexivity.
    + rewrite Ht. clear He Ht. cbn [flat_map]. rewrite app_assoc. f_equal.
      unfold report, main_step.
      destruct (should_check_file p); cbn [negb trace];
        [|rewrite app_nil_r; reflexivity].
      unfold has_license_header, read_file_head.
      destruct (0 <? _); cbn [license_type require_license trace app];
        [|reflexivity].
      destruct (license_type a) as [wanted|]; [|reflexivity].
      destruct (mem_str wanted _); reflexivity.
Qed.

Lemma add_to_no_finding (l : list str) :
  existsb is_finding (map AddTo l) = false.
Proof. induction l; simpl; auto. Qed.

Lemma summary_no_finding (a : args) (st : state) :
  existsb is_finding (summary a st) = false.
Proof.
  unfold summary. destruct (0 <? checked_files st); [|reflexivity].
  destruct (files_without_license st) as [|m ms]; [reflexivity|].
  destruct (require_license a); [reflexivity|].
  cbn [existsb is_finding orb]. rewrite existsb_app, add_to_no_finding.
  destruct (5 <? _); reflexivity.
Qed.

(** The exit code of the license checker: 1 exactly when
    [--require-license] was given and a finding was printed. *)
Lemma exit_code_requires_flag (disk : fs) (a : args) :
  fst (main disk a)
  = if require_license a && existsb is_finding (snd (main disk a))
    then 1 else 0.
Proof.
  unfold main, main_loop. simpl.
  destruct (license_fold_main_step disk a (files a)
              {| exit_code := 0; checked_files := 0; files_with_license := 0;
                 files_without_license := []; trace := [] |}) as (He & _).
  simpl in He. rewrite andb_false_r in He. specialize (He eq_refl).
  rewrite He. rewrite existsb_app, summary_no_finding, orb_false_r.
  reflexivity.
Qed.

End LicenseMain.

Module XmlMain.
Import Text Exn Fs Xml TextFacts.

Section WithParser.
Variable expat : str -> result unit.
Variable expat_fed : str -> option exn.
Variable disk : fs.

(** The message [validate_xml_file] builds from an exception. *)
Definition message_of (e : exn) : message :=
  match class e with
  | ParseError => XmlParseError (text e)
  | ExpatError => XmlSyntaxError (text e)
  | _ => UnexpectedError (text e)
  end.

(** The verdict on a file, from what the parser did. *)
Definition verdict (file_path : str) : bool * option message :=
  match ET_parse expat expat_fed disk file_path with
  | Return _ => (true, None)
  | Raise e => (false, Some (message_of e))
  end.

(** Whatever the parser does, [validate_xml_file] returns. *)
Lemma validate_returns (file_path : str) :
  validate_xml_file expat expat_fed disk file_path = Return (verdict file_path).
Proof.
  unfold validate_xml_file, verdict, message_of.
  destruct (ET_parse expat expat_fed disk file_path) as [[]|e]; [reflexivity|].
  simpl. destruct e as [c msg]. destruct c; reflexivity.
Qed.

Definition step_of (st : state) (file_path : str) : state :=
  if fst (verdict file_path)
  then {| exit_code := exit_code st;
          trace := trace st ++ [ValidXml file_path] |}
  else {| exit_code := 1;
          trace := trace st ++ [Invalid file_path (snd (verdict file_path))] |}.

Lemma main_step_returns (st : state) (file_path : str) :
  main_step expat expat_fed disk st file_path = Return (step_of st file_path).
Proof.
  unfold main_step, step_of. rewrite validate_returns.
  destruct (verdict file_path) as [[|] msg]; reflexivity.
Qed.

Lemma main_loop_returns (files : list str) :
  forall st,
    main_loop expat expat_fed disk st files
    = Return (fold_left step_of files st).
Proof.
  induction files as [|p files IH]; intros st; simpl; [reflexivity|].
  rewrite main_step_returns. simpl. apply IH.
Qed.

Definition is_invalid (l : line) : bool :=
  match l with Invalid _ _ => true | _ => false end.

Lemma fold_step_of (files : list str) :
  forall st,
    let st' := fold_left step_of files st in
    exit_code st'
    = (if existsb (fun p => negb (fst (verdict p))) files
       then 1 else exit_code st) /\
    trace st'
    = trace st
      ++ map (fun p => if fst (verdict p) then ValidXml p
                       else Invalid p (snd (verdict p))) files.
Proof.
  induction files as [|p files IH]; intros st; simpl.
  - rewrite app_nil_r. split; reflexivity.
  - destruct (IH (step_of st p)) as (He & Ht). rewrite He, Ht.
    unfold step_of. destruct (fst (verdict p)); simpl.
    + rewrite <- app_assoc. split; reflexivity.
    + rewrite <- app_assoc. split; [|reflexivity].
      destruct (existsb _ files); reflexivity.
Qed.

Lemma main_returns (files : list str) :
  main expat expat_fed disk files
  = Return (if existsb (fun p => negb (fst (verdict p))) files then 1 else 0,
            map (fun p => if fst (verdict p) then ValidXml p
                          else Invalid p (snd (verdict p))) files).
Proof.
  unfold main. rewrite main_loop_returns. simpl.
  destruct (fold_step_of files {| exit_code := 0; trace := [] |})
    as (He & Ht).
  simpl in *. rewrite He, Ht. reflexivity.
Qed.

End WithParser.

End XmlMain.

Module SeverityMain.
Import Text Regex Exn Fs SeverityScan TextFacts.

Section Main.
Variable check : fs -> str -> list issue * list line.
Variable PATTERNS : list (str * entry).
Variable excluded : str -> bool.

(** The issues [main] keeps for a file: none when the file is excluded,
    else those of the check that pass the severity filter. *)
Definition kept (disk : fs) (a : args) (file_path : str) : list issue :=
  if exclude_safe_contexts a && excluded file_path then []
  else filtered PATTERNS a (fst (check disk file_path)).

(** What the check of a file writes to stderr: nothing when the file is
    excluded, for then the check is not run. *)
Definition errors (disk : fs) (a : args) (file_path : str) : list line :=
  if exclude_safe_contexts a && excluded file_path then []
  else snd (check disk file_path).

(** What one file adds to the output: the messages of its check and,
    unless in JSON mode, the block of its issues. *)
Definition report (disk : fs) (a : args) (file_path : str) : list line :=
  errors disk a file_path ++
  if json a then []
  else match kept disk a file_path with
       | [] => []
       | issues => FoundIn file_path :: flat_map print_issue issues
       end.

Definition has_issues (disk : fs) (a : args) (p : str) : bool :=
  match kept disk a p with [] => false | _ => true end.

Definition nonempty {A} (l : list A) : bool :=
  match l with [] => false | _ => true end.

Lemma assign_nonempty {V} (k : str) (v : V) (table : list (str * V)) :
  nonempty (assign k v table) = true.
Proof.
  destruct table as [|[k' w] table]; simpl; [reflexivity|].
  destruct (str_eqb k' k); reflexivity.
Qed.

Lemma in_assign {V} (k : str) (v : V) (table : list (str * V))
  (k0 : str) (v0 : V) :
  In (k0, v0) (assign k v table) ->
  (k0 = k /\ v0 = v) \/ In (k0, v0) table.
Proof.
  induction table as [|[k' w] table IH]; simpl.
  - intros [H|[]]. inversion H. auto.
  - destruct (str_eqb k' k) eqn:E; simpl.
    + apply str_eqb_eq in E. subst k'.
      intros [H|H]; [inversion H; auto | auto].
    + intros [H|H]; [auto|]. apply IH in H. tauto.
Qed.

Lemma step_kept (disk : fs) (a : args) (st : state) (p : str) :
  main_step check PATTERNS excluded disk a st p
  = match kept disk a p with
    | [] =>
        {| exit_code := exit_code st; total_issues := total_issues st;
           all_results := all_results st;
           trace := trace st ++ errors disk a p |}
    | issues =>
        {| exit_code := 1;
           total_issues := total_issues st + length issues;
           all_results :=
             if json a then assign p issues (all_results st)
             else all_results st;
           trace :=
             if json a then trace st ++ errors disk a p
             else trace st ++ errors disk a p
                    ++ FoundIn p :: flat_map print_issue issues |}
    end.
Proof.
  unfold main_step, kept, errors.
  destruct (exclude_safe_contexts a && excluded p).
  - destruct st. cbn [exit_code total_issues all_results trace].
    rewrite app_nil_r. reflexivity.
  - destruct (check disk p) as [found err]. reflexivity.
Qed.

Lemma fold_step (disk : fs) (a : args) (l : list str) :
  forall st,
    let st' :=
      fold_left (main_step check PATTERNS excluded disk a) l st in
    exit_code st'
    = (if existsb (has_issues disk a) l then 1 else exit_code st) /\
    trace st' = trace st ++ flat_map (fun p => report disk a p) l /\
    (json a = true ->
     nonempty (all_results st')
     = existsb (has_issues disk a) l || nonempty (all_results st)) /\
    (forall p issues,
        In (p, issues) (all_results st') ->
        In (p, issues) (all_results st) \/
        (In p l /\ issues = kept disk a p)) /\
    total_issues st'
    = total_issues st + list_sum (map (fun p => length (kept disk a p)) l).
Proof.
  induction l as [|p l IH]; intros st; simpl.
  - rewrite app_nil_r. repeat split; auto.
  - destruct (IH (main_step check PATTERNS excluded disk a st p))
      as (He & Ht & Hj & Hr & Hn).
    rewrite He, Ht, Hn. clear IH He Ht Hn.
    assert (Hh : has_issues disk a p = nonempty (kept disk a p))
      by reflexivity.
    assert (Hrep : report disk a p
                   = errors disk a p ++
                     if json a then []
                     else match kept disk a p with
                          | [] => []
                          | issues =>
                              FoundIn p :: flat_map print_issue issues
                          end) by reflexivity.
    rewrite Hh, Hrep. clear Hh Hrep.
    pose proof (step_kept disk a st p) as Hstep.
    split; [|split; [|split; [|split]]].
    + rewrite Hstep. destruct (kept disk a p); simpl; [reflexivity|].
      destruct (existsb _ l); reflexivity.
    + rewrite Hstep. destruct (kept disk a p); cbn [trace].
      * destruct (json a); rewrite app_nil_r, <- app_assoc; reflexivity.
      * destruct (json a); [rewrite app_nil_r|];
          rewrite <- !app_assoc; reflexivity.
    + intros Hjson. rewrite (Hj Hjson). rewrite Hstep.
      destruct (kept disk a p); simpl; [reflexivity|].
      rewrite Hjson, assign_nonempty, orb_true_r. reflexivity.
    + intros p0 issues Hin. apply Hr in Hin.
      destruct Hin as [Hin | [Hin Heq]]; [|right; split; [right|]; assumption].
      rewrite Hstep in Hin. destruct (kept disk a p) eqn:Ek; [auto|].
      simpl in Hin. destruct (json a); [|auto].
      apply in_assign in Hin. destruct Hin as [[-> ->] | Hin]; [|auto].
      right. split; [left; reflexivity | symmetry; exact Ek].
    + rewrite Hstep. destruct (kept disk a p); simpl; lia.
Qed.

(** A line that reports findings: the header of a file's block, or a
    JSON document that is not empty. *)
Definition is_report (l : line) : bool :=
  match l with
  | FoundIn _ => true
  | JsonDump (_ :: _) => true
  | _ => false
  end.

Lemma report_json (disk : fs) (a : args) (l : list str) :
  json a = true ->
  flat_map (fun p => report disk a p) l
  = flat_map (fun p => errors disk a p) l.
Proof.
  intros Hj. induction l as [|p l IH]; simpl; [reflexivity|].
  rewrite IH. unfold report. rewrite Hj, app_nil_r. reflexivity.
Qed.

(** The check writes to stderr only. *)
Hypothesis check_stderr :
  forall disk p, forallb to_stderr (snd (check disk p)) = true.

Lemma stderr_no_report (l : list line) :
  forallb to_stderr l = true -> existsb is_report l = false.
Proof.
  induction l as [|x l IH]; simpl; [reflexivity|].
  intros H. apply andb_true_iff in H. destruct H as [Hx Hl].
  rewrite (IH Hl). destruct x; try discriminate. reflexivity.
Qed.

Lemma errors_stderr (disk : fs) (a : args) (p : str) :
  forallb to_stderr (errors disk a p) = true.
Proof.
  unfold errors. destruct (_ && _); [reflexivity | apply check_stderr].
Qed.

Lemma errors_no_report (disk : fs) (a : args) (l : list str) :
  existsb is_report (flat_map (fun p => errors disk a p) l) = false.
Proof.
  rewrite existsb_flat_map.
  induction l as [|p l IH]; simpl; [reflexivity|].
  rewrite IH, (stderr_no_report _ (errors_stderr disk a p)). reflexivity.
Qed.

Lemma severity_report_found (disk : fs) (a : args) (p : str) :
  json a = false ->
  existsb is_report (report disk a p) = has_issues disk a p.
Proof.
  intros Hj. unfold report, has_issues.
  rewrite Hj, existsb_app, (stderr_no_report _ (errors_stderr disk a p)).
  destruct (kept disk a p); reflexivity.
Qed.

(** The exit code is 1 exactly when findings are written, as a block of
    text or in the JSON document. *)
Lemma severity_exit_code_tracks_findings (disk : fs) (a : args) :
  fst (main check PATTERNS excluded disk a)
  = if existsb is_report
         (snd (main check PATTERNS excluded disk a))
    then 1 else 0.
Proof.
  unfold main, main_loop.
  destruct (fold_step disk a (files a)
              {| exit_code := 0; total_issues := 0; all_results := [];
                 trace := [] |}) as (He & Ht & Hj & _ & _).
  cbn [fst snd]. cbn [exit_code trace all_results app] in He, Ht, Hj.
  rewrite He, Ht, existsb_app. destruct (json a) eqn:Ej.
  - rewrite (report_json disk a (files a) Ej), errors_no_report.
    cbn [existsb orb].
    specialize (Hj eq_refl). rewrite orb_false_r in Hj. rewrite <- Hj.
    unfold is_report, nonempty.
    destruct (all_results _); reflexivity.
  - rewrite existsb_flat_map.
    rewrite (existsb_pointwise
               (fun x => existsb is_report (report disk a x))
               (has_issues disk a)).
    2: { intros p. apply severity_report_found. exact Ej. }
    match goal with
    | |- context [existsb is_report (if ?c then ?x else ?y)] =>
        replace (existsb is_report (if c then x else y)) with false
          by (destruct c; reflexivity)
    end.
    rewrite orb_false_r. reflexivity.
Qed.

(** A check that looks at the file at its path only makes the issues
    kept, and the block printed, a matter of that file only. *)
Hypothesis check_local :
  forall disk p, check disk p = check (fun _ => disk p) p.

Lemma kept_local (disk : fs) (a : args) (p : str) :
  kept disk a p = kept (fun _ => disk p) a p.
Proof. unfold kept. rewrite check_local. reflexivity. Qed.

Lemma report_local (disk : fs) (a : args) (p : str) :
  report disk a p = report (fun _ => disk p) a p.
Proof.
  unfold report, errors. rewrite kept_local, check_local. reflexivity.
Qed.

End Main.

Lemma check_verbose_flags_local (disk : fs) (p : str) :
  Verbose.check_verbose_flags disk p
  = Verbose.check_verbose_flags (fun _ => disk p) p.
Proof. reflexivity. Qed.

Lemma check_dotnet_security_local (disk : fs) (p : str) :
  Dotnet.check_dotnet_security disk p
  = Dotnet.check_dotnet_security (fun _ => disk p) p.
Proof. reflexivity. Qed.

Lemma check_ansible_security_local (safe_load : str -> Ansible.loaded)
  (disk : fs) (p : str) :
  Ansible.check_ansible_security safe_load disk p
  = Ansible.check_ansible_security safe_load (fun _ => disk p) p.
Proof. reflexivity. Qed.

Lemma verbose_stderr (disk : fs) (p : str) :
  forallb to_stderr (snd (Verbose.check_verbose_flags disk p)) = true.
Proof.
  unfold Verbose.check_verbose_flags.
  destruct (Verbose.should_check_file p); [|reflexivity].
  destruct (disk p); reflexivity.
Qed.

Lemma dotnet_stderr (disk : fs) (p : str) :
  forallb to_stderr (snd (Dotnet.check_dotnet_security disk p)) = true.
Proof.
  unfold Dotnet.check_dotnet_security.
  destruct (Dotnet.should_check_file p); [|reflexivity].
  destruct (disk p); reflexivity.
Qed.

Lemma ansible_stderr (safe_load : str -> Ansible.loaded) (disk : fs)
  (p : str) :
  forallb to_stderr (snd (Ansible.check_ansible_security safe_load disk p))
  = true.
Proof.
  unfold Ansible.check_ansible_security, Ansible.yaml_block.
  destruct (Ansible.is_ansible_file p); [|reflexivity].
  destruct (disk p) as [content|e|read e]; [|reflexivity|reflexivity].
  cbn [negb]. destruct (Ansible.is_yaml_name p); [|reflexivity].
  destruct (Ansible.analyze_yaml_content safe_load content) as [[|]|e];
    [|reflexivity|reflexivity].
  destruct (safe_load content) as [|e|[|] t [issues|e]]; reflexivity.
Qed.

End SeverityMain.

(* ================================================================== *)
(** * Properties of the scanners as programs *)
(* ================================================================== *)

Module ScannerClaims.
Import Text Regex Exn Fs TextFacts LineFacts.

(** ** Exit codes *)

(** The exit code of the license checker, if it followed the findings
    alone. *)
Definition license_exit_follows_findings : Prop :=
  forall (disk : fs) (a : License.args),
    fst (License.main disk a) = 1 <->
    exists l, In l (snd (License.main disk a))
              /\ LicenseMain.is_finding l = true.

(** A source file without a license header, checked without options. *)
Definition bare_disk : fs := fun _ => Content (s "print(1)").
Definition bare_args : License.args :=
  {| License.files := [s "a.py"]; License.require_license := false;
     License.license_type := None |}.

Example bare_run :
  License.main bare_disk bare_args
  = (0, [ License.NoHeaderFound (s "a.py"); License.Summary 1 0 1;
          License.ConsiderAdding; License.AddTo (s "a.py") ]).
Proof. vm_compute. reflexivity. Qed.

(** C1, as stated, for the license checker: a run without
    [--require-license] prints the finding that a.py has no license
    header and still exits 0. *)
Lemma license_warning_exits_zero : ~ license_exit_follows_findings.
Proof.
  intros H. destruct (H bare_disk bare_args) as [_ Hback].
  rewrite bare_run in Hback. simpl in Hback.
  assert (Hone : 0 = 1).
  { apply Hback. exists (License.NoHeaderFound (s "a.py")).
    split; [left; reflexivity | reflexivity]. }
  discriminate.
Qed.

Lemma xml_invalid_lines (expat : str -> result unit)
  (expat_fed : str -> option exn) (disk : fs) (files : list str) :
  let verdict := XmlMain.verdict expat expat_fed disk in
  existsb XmlMain.is_invalid
    (map (fun p => if fst (verdict p) then Xml.ValidXml p
                   else Xml.Invalid p (snd (verdict p)))
         files)
  = existsb (fun p => negb (fst (verdict p))) files.
Proof.
  induction files as [|p files IH]; simpl; [reflexivity|].
  simpl in IH. rewrite IH.
  destruct (fst (XmlMain.verdict expat expat_fed disk p)); reflexivity.
Qed.

(** C1, amended.  The credential scanner, the URL scanner, the XML
    checker and the three scanners with a severity filter exit with 1
    exactly when they report a finding, and with 0 otherwise.  The license
    checker exits with 1 exactly when it reports a finding and
    [--require-license] was given; without that option it exits with 0
    whatever it reports. *)
Theorem exit_code_of_each_scanner :
  (forall disk a,
      fst (Credentials.main disk a)
      = if existsb CredentialsMain.is_found (snd (Credentials.main disk a))
        then 1 else 0) /\
  (forall disk a,
      fst (Urls.main disk a)
      = if existsb UrlsMain.is_found (snd (Urls.main disk a))
        then 1 else 0) /\
  (forall expat expat_fed disk files,
      exists out,
        Xml.main expat expat_fed disk files
        = Return (if existsb XmlMain.is_invalid out then 1 else 0, out)) /\
  (forall disk a,
      fst (Verbose.main disk a)
      = if existsb SeverityMain.is_report (snd (Verbose.main disk a))
        then 1 else 0) /\
  (forall disk a,
      fst (Dotnet.main disk a)
      = if existsb SeverityMain.is_report (snd (Dotnet.main disk a))
        then 1 else 0) /\
  (forall safe_load disk a,
      fst (Ansible.main safe_load disk a)
      = if existsb SeverityMain.is_report
             (snd (Ansible.main safe_load disk a))
        then 1 else 0) /\
  (forall disk a,
      fst (License.main disk a)
      = if License.require_license a
           && existsb LicenseMain.is_finding (snd (License.main disk a))
        then 1 else 0).
Proof.
  split; [exact CredentialsMain.cred_exit_code_tracks_findings|].
  split; [exact UrlsMain.url_exit_code_tracks_findings|].
  split.
  { intros expat expat_fed disk files. eexists.
    rewrite XmlMain.main_returns.
    rewrite (xml_invalid_lines expat expat_fed disk files). reflexivity. }
  split.
  { apply SeverityMain.severity_exit_code_tracks_findings.
    exact SeverityMain.verbose_stderr. }
  split.
  { apply SeverityMain.severity_exit_code_tracks_findings.
    exact SeverityMain.dotnet_stderr. }
  split.
  { intros safe_load. apply SeverityMain.severity_exit_code_tracks_findings.
    exact (SeverityMain.ansible_stderr safe_load). }
  exact LicenseMain.exit_code_requires_flag.
Qed.

(** A run of detect-verbose-flags.py over a file with a debug flag of
    medium severity: the finding is reported, and the exit code is 1,
    unless [--severity high] filters it out. *)
Definition flag_disk : fs :=
  fun _ => Content (s "import x" ++ [newline] ++ s "debug = True").
Definition flag_args (name : string) : SeverityScan.args :=
  {| SeverityScan.files := [s "app.py"];
     SeverityScan.severity_option := Some (s name);
     SeverityScan.json := false;
     SeverityScan.exclude_safe_contexts := false |}.

Example verbose_severity_run :
  Verbose.main flag_disk (flag_args "high")
  = (0, [SeverityScan.NoneDetected]) /\
  fst (Verbose.main flag_disk (flag_args "medium")) = 1 /\
  map SeverityScan.pattern_name
      (fst (Verbose.check_verbose_flags flag_disk (s "app.py")))
  = [s "debug_flags"; s "debug_flags"].
Proof. repeat split; vm_compute; reflexivity. Qed.

(** ** Unreadable files *)

Definition skipped_by_name (skip : list str) (file_path : str) : bool :=
  existsb (fun ext => endswith ext file_path) skip.

(** A file is unreadable when [open] fails on it, or when reading it
    fails part of the way. *)
Definition fails_with (f : file) (e : exn) : Prop :=
  f = OpenError e \/ exists read, f = ReadError read e.

(** What C3 says of one unreadable file: the exception is caught, a
    message goes to stderr, and no finding is returned. *)
Definition unreadable_is_announced : Prop :=
  forall (disk : fs) (file_path : str) (e : exn),
    fails_with (disk file_path) e ->
    Credentials.find_hardcoded_credentials disk file_path
    = ([], [Credentials.Stderr
              (Credentials.ErrorReading file_path (text e))]) /\
    Urls.find_hardcoded_urls disk file_path
    = ([], [Urls.Stderr (Urls.ErrorReading file_path (text e))]).

(** The part of it that is about the findings alone. *)
Definition unreadable_finds_nothing : Prop :=
  forall (disk : fs) (file_path : str) (e : exn),
    fails_with (disk file_path) e ->
    fst (Credentials.find_hardcoded_credentials disk file_path) = [] /\
    fst (Urls.find_hardcoded_urls disk file_path) = [].

Definition no_such_file : exn :=
  {| class := FileNotFoundError; text := s "No such file or directory" |}.
Definition empty_disk : fs := fun _ => OpenError no_such_file.

(** A file whose first line holds a URL, and whose reading fails after
    that line. *)
Definition io_error : exn :=
  {| class := OSError; text := s "[Errno 5] Input/output error" |}.
Definition interrupted_disk : fs :=
  fun _ => ReadError (s "u = 'http://prod.io/x'" ++ [newline]) io_error.

(** The URL scanner on that file: the message, then the finding of the
    line read before the failure, and the exit code 1. *)
Example interrupted_read_run :
  Urls.main interrupted_disk
    {| Urls.files := [s "a.py"]; Urls.exclude_comments := false |}
  = (1, [ Urls.Stderr (Urls.ErrorReading (s "a.py") (text io_error));
          Urls.Stdout (Urls.FoundIn (s "a.py"));
          Urls.Stdout (Urls.IssueLine 1 (s "http://prod.io/x"));
          Urls.Stdout (Urls.IssueContext (s "u = 'http://prod.io/x'"));
          Urls.Stdout (Urls.FoundTotal 1);
          Urls.Stdout (Urls.Advice 1); Urls.Stdout (Urls.Advice 2) ]).
Proof. vm_compute. reflexivity. Qed.

(** C3, as stated, fails in two ways.  A missing file whose name ends in
    one of the skipped extensions is never opened, so nothing is written
    to stderr.  And the URL scanner scans the lines as it reads them: when
    reading fails after a line with a URL, the finding of that line is
    returned with the message. *)
Lemma unreadable_rule_fails_twice :
  ~ unreadable_is_announced /\ ~ unreadable_finds_nothing.
Proof.
  split.
  - intros H.
    destruct (H empty_disk (s "logo.png") no_such_file (or_introl eq_refl))
      as [Hc _].
    vm_compute in Hc. discriminate.
  - intros H.
    destruct (H interrupted_disk (s "a.py") io_error
                (or_intror (ex_intro _ _ eq_refl))) as [_ Hu].
    vm_compute in Hu. discriminate.
Qed.

(** C3, amended.  The credential scanner reads a file whole before it
    scans it: for a file that cannot be opened or read it returns no
    finding, so such a file does not change its exit code, and a run over
    unreadable files only exits with 0.  The URL scanner returns no
    finding for a file that cannot be opened, with the same consequences;
    when reading fails part of the way it returns the findings of the
    lines read before the failure, and the exit code is 1 when there is
    such a finding.  Both scanners catch the exception and write one
    message to stderr, unless the name of the file ends in a skipped
    extension: then the file is not opened, nothing is written and
    nothing is found. *)
Theorem unreadable_file_contributes_nothing
  (disk : fs) (file_path : str) (e : exn) :
  fails_with (disk file_path) e ->
  Credentials.find_hardcoded_credentials disk file_path
  = ([], if skipped_by_name Credentials.SKIP_EXTENSIONS file_path then []
         else [Credentials.Stderr
                 (Credentials.ErrorReading file_path (text e))]) /\
  (disk file_path = OpenError e ->
   Urls.find_hardcoded_urls disk file_path
   = ([], if skipped_by_name Urls.SKIP_EXTENSIONS file_path then []
          else [Urls.Stderr (Urls.ErrorReading file_path (text e))])) /\
  (forall read,
      disk file_path = ReadError read e ->
      Urls.find_hardcoded_urls disk file_path
      = if skipped_by_name Urls.SKIP_EXTENSIONS file_path then ([], [])
        else (Urls.scan_content read,
              [Urls.Stderr (Urls.ErrorReading file_path (text e))])) /\
  (forall before after show,
      fst (Credentials.main disk
             {| Credentials.files := before ++ file_path :: after;
                Credentials.show_values := show |})
      = fst (Credentials.main disk
               {| Credentials.files := before ++ after;
                  Credentials.show_values := show |})) /\
  (disk file_path = OpenError e ->
   forall before after excl,
     fst (Urls.main disk
            {| Urls.files := before ++ file_path :: after;
               Urls.exclude_comments := excl |})
     = fst (Urls.main disk
              {| Urls.files := before ++ after;
                 Urls.exclude_comments := excl |})) /\
  (forall before after excl,
      fst (Urls.main disk
             {| Urls.files := before ++ file_path :: after;
                Urls.exclude_comments := excl |})
      = match fst (Urls.find_hardcoded_urls disk file_path) with
        | [] => fst (Urls.main disk
                       {| Urls.files := before ++ after;
                          Urls.exclude_comments := excl |})
        | _ => 1
        end) /\
  (forall files show,
      (forall p, In p files -> exists e', fails_with (disk p) e') ->
      fst (Credentials.main disk
             {| Credentials.files := files;
                Credentials.show_values := show |}) = 0) /\
  (forall files excl,
      (forall p, In p files -> exists e', disk p = OpenError e') ->
      fst (Urls.main disk
             {| Urls.files := files; Urls.exclude_comments := excl |}) = 0).
Proof.
  intros Hdisk.
  assert (Hc : forall p e', fails_with (disk p) e' ->
               CredentialsMain.has_issues disk p = false).
  { intros p e' Hp. unfold CredentialsMain.has_issues,
      Credentials.find_hardcoded_credentials.
    destruct Hp as [Hp | [read Hp]]; rewrite Hp;
      destruct (existsb _ Credentials.SKIP_EXTENSIONS); reflexivity. }
  assert (Hu : forall p e', disk p = OpenError e' ->
               UrlsMain.has_issues disk p = false).
  { intros p e' Hp. unfold UrlsMain.has_issues, Urls.find_hardcoded_urls.
    rewrite Hp. destruct (existsb _ Urls.SKIP_EXTENSIONS); reflexivity. }
  assert (Hstep : forall before after,
             existsb (UrlsMain.has_issues disk) (before ++ file_path :: after)
             = match fst (Urls.find_hardcoded_urls disk file_path) with
               | [] => existsb (UrlsMain.has_issues disk) (before ++ after)
               | _ => true
               end).
  { intros before after. rewrite !existsb_app. cbn [existsb].
    assert (Hh : UrlsMain.has_issues disk file_path
                 = match fst (Urls.find_hardcoded_urls disk file_path) with
                   | [] => false
                   | _ => true
                   end) by reflexivity.
    rewrite Hh.
    destruct (fst (Urls.find_hardcoded_urls disk file_path));
      [reflexivity | apply orb_true_r]. }
  split; [|split; [|split; [|split; [|split; [|split; [|split]]]]]].
  - unfold Credentials.find_hardcoded_credentials, skipped_by_name.
    destruct Hdisk as [Hd | [read Hd]]; rewrite Hd;
      destruct (existsb _ Credentials.SKIP_EXTENSIONS); reflexivity.
  - intros Hd. unfold Urls.find_hardcoded_urls, skipped_by_name.
    rewrite Hd. destruct (existsb _ Urls.SKIP_EXTENSIONS); reflexivity.
  - intros read Hd. unfold Urls.find_hardcoded_urls, skipped_by_name.
    rewrite Hd. destruct (existsb _ Urls.SKIP_EXTENSIONS); reflexivity.
  - intros before after show. rewrite !CredentialsMain.cred_exit_code_issues.
    cbn [Credentials.files]. rewrite !existsb_app. cbn [existsb].
    rewrite (Hc file_path e Hdisk). reflexivity.
  - intros Hd before after excl. rewrite !UrlsMain.url_exit_code_issues.
    cbn [Urls.files]. rewrite !existsb_app. cbn [existsb].
    rewrite (Hu file_path e Hd). reflexivity.
  - intros before after excl. rewrite !UrlsMain.url_exit_code_issues.
    cbn [Urls.files]. rewrite Hstep.
    destruct (fst (Urls.find_hardcoded_urls disk file_path)); reflexivity.
  - intros files show Hall. rewrite CredentialsMain.cred_exit_code_issues.
    cbn [Credentials.files]. rewrite existsb_false_all; [reflexivity|].
    intros p Hp. destruct (Hall p Hp) as [e' He']. exact (Hc p e' He').
  - intros files excl Hall. rewrite UrlsMain.url_exit_code_issues.
    cbn [Urls.files]. rewrite existsb_false_all; [reflexivity|].
    intros p Hp. destruct (Hall p Hp) as [e' He']. exact (Hu p e' He').
Qed.

(** A missing source file: one message per scanner, no finding, exit 0. *)
Lemma unreadable_file_contributes_nothing_witness :
  Credentials.find_hardcoded_credentials empty_disk (s "gone.py")
  = ([], [Credentials.Stderr
            (Credentials.ErrorReading (s "gone.py") (text no_such_file))]) /\
  Urls.find_hardcoded_urls empty_disk (s "gone.py")
  = ([], [Urls.Stderr
            (Urls.ErrorReading (s "gone.py") (text no_such_file))]) /\
  fst (Credentials.main empty_disk
         {| Credentials.files := [s "gone.py"];
            Credentials.show_values := false |}) = 0.
Proof.
  destruct (unreadable_file_contributes_nothing empty_disk (s "gone.py")
              no_such_file (or_introl eq_refl))
    as (Hc & Hu & _ & _ & _ & _ & Hall & _).
  split; [exact Hc|]. split; [exact (Hu eq_refl)|].
  apply (Hall [s "gone.py"] false).
  intros p _. exists no_such_file. left. reflexivity.
Defined.

(** ** Line numbers of the findings *)

(** The number of lines of a file that reading hands over: none when
    the file cannot be opened, those read before the failure when reading
    fails part of the way. *)
Definition line_count (f : file) : nat :=
  match f with
  | Content content => length (readlines content)
  | OpenError _ => 0
  | ReadError read _ => length (readlines read)
  end.

Lemma cred_scan_line_number (file_path : str) (n : nat) (line : str)
  (i : Credentials.issue) :
  In i (Credentials.scan_line file_path n line) ->
  Credentials.line_num i = n /\ line <> [].
Proof.
  unfold Credentials.scan_line.
  destruct (strip line) eqn:Es; [intros []|].
  intros Hi. apply in_flat_map in Hi. destruct Hi as [[cred pats] [_ Hi]].
  apply in_flat_map in Hi. destruct Hi as [pattern [_ Hi]].
  apply in_flat_map in Hi. destruct Hi as [m [_ Hi]].
  apply CredentialsFacts.cred_in_check_match in Hi.
  destruct Hi as (-> & _). split; [reflexivity|].
  intros ->. discriminate.
Qed.

(** C10. The findings of [find_hardcoded_credentials], and those of
    [find_hardcoded_urls], come in non-decreasing order of line number,
    and every line number lies between 1 and the number of lines of the
    file. *)
Theorem findings_in_line_order (disk : fs) (file_path : str) :
  (StronglySorted le
     (map Credentials.line_num
          (fst (Credentials.find_hardcoded_credentials disk file_path))) /\
   forall i,
     In i (fst (Credentials.find_hardcoded_credentials disk file_path)) ->
     1 <= Credentials.line_num i <= line_count (disk file_path)) /\
  (StronglySorted le
     (map Urls.line_num (fst (Urls.find_hardcoded_urls disk file_path))) /\
   forall i,
     In i (fst (Urls.find_hardcoded_urls disk file_path)) ->
     1 <= Urls.line_num i <= line_count (disk file_path)).
Proof.
  split.
  - unfold Credentials.find_hardcoded_credentials.
    destruct (existsb _ Credentials.SKIP_EXTENSIONS);
      [split; [constructor | intros i []]|].
    destruct (disk file_path) as [content|e|read e];
      [|split; [constructor | intros i []]
       |split; [constructor | intros i []]].
    cbn [fst line_count]. unfold Credentials.scan_content.
    destruct (numbered_scan_sorted Credentials.line_num
                (Credentials.scan_line file_path) (split newline content)
                (fun n x i H => proj1 (cred_scan_line_number file_path n x i H))
                1) as [Hs Hb].
    split; [exact Hs|].
    intros i Hi. split; [apply (Hb i Hi)|].
    apply in_flat_map in Hi. destruct Hi as [[n line] [Hnl Hi]].
    cbn [fst snd] in Hi. apply cred_scan_line_number in Hi.
    destruct Hi as [Hn Hne]. apply in_enumerate in Hnl.
    destruct Hnl as [Hle Hnth].
    pose proof (split_field_is_line content (n - 1) line Hnth Hne). lia.
  - unfold Urls.find_hardcoded_urls.
    destruct (existsb _ Urls.SKIP_EXTENSIONS);
      [split; [constructor | intros i []]|].
    destruct (disk file_path) as [content|e|content e];
      [|split; [constructor | intros i []]|];
      cbn [fst line_count]; unfold Urls.scan_content;
      destruct (numbered_scan_sorted Urls.line_num Urls.scan_line
                  (readlines content)
                  (fun n x i H => proj1 (UrlsFacts.in_scan_line n x i H))
                  1) as [Hs Hb];
      (split; [exact Hs|]);
      intros i Hi; specialize (Hb i Hi); lia.
Qed.

(** Two findings on the last line of a two-line file. *)
Example findings_in_line_order_sample :
  map Credentials.line_num
      (fst (Credentials.find_hardcoded_credentials
              (fun _ => Content (s "x = 1" ++ newline
                                 :: s "db_password = 'abcd1234'"
                                 ++ [newline]))
              (s "conf.py")))
  = [2; 2].
Proof. vm_compute. reflexivity. Qed.

Definition conf_disk : fs :=
  fun _ => Content (s "x = 1" ++ newline
                    :: s "db_password = 'abcd1234'" ++ [newline]).

(** A finding of a file of two lines, on its last line. *)
Lemma findings_in_line_order_witness :
  exists i,
    In i (fst (Credentials.find_hardcoded_credentials conf_disk
                 (s "conf.py"))) /\
    Credentials.line_num i = 2 /\
    1 <= Credentials.line_num i <= line_count (conf_disk (s "conf.py")).
Proof.
  pose proof (proj2 (proj1 (findings_in_line_order conf_disk (s "conf.py"))))
    as Hb.
  destruct (fst (Credentials.find_hardcoded_credentials conf_disk
                   (s "conf.py"))) as [|i l] eqn:E;
    [vm_compute in E; discriminate|].
  exists i. split; [left; reflexivity|].
  split; [|apply Hb; left; reflexivity].
  vm_compute in E. injection E as <- _. reflexivity.
Defined.

(** ** The XML checker *)

(** C9. [validate_xml_file] returns a pair for every path and never
    raises, whatever the parser does and whether or not the file exists;
    hence [main] never reaches its handler for [FileNotFoundError] (the
    line "File not found" is never printed), and a missing file is
    reported through the last clause of [validate_xml_file], as an
    unexpected error, with exit code 1. *)
Theorem validate_xml_file_total
  (expat : str -> result unit) (expat_fed : str -> option exn) (disk : fs)
  (file_path : str) :
  (exists is_valid error_msg,
      Xml.validate_xml_file expat expat_fed disk file_path
      = Return (is_valid, error_msg)) /\
  (forall st, exists st',
      Xml.main_step expat expat_fed disk st file_path = Return st' /\
      forall p, In (Xml.FileNotFound p) (Xml.trace st') ->
                In (Xml.FileNotFound p) (Xml.trace st)) /\
  (forall files, exists code out,
      Xml.main expat expat_fed disk files = Return (code, out) /\
      forall p, ~ In (Xml.FileNotFound p) out) /\
  (forall e,
      disk file_path = OpenError e -> class e = FileNotFoundError ->
      Xml.validate_xml_file expat expat_fed disk file_path
      = Return (false, Some (Xml.UnexpectedError (text e))) /\
      forall before after, exists out,
        Xml.main expat expat_fed disk (before ++ file_path :: after)
        = Return (1, out) /\
        In (Xml.Invalid file_path (Some (Xml.UnexpectedError (text e)))) out).
Proof.
  split; [|split; [|split]].
  - rewrite XmlMain.validate_returns.
    destruct (XmlMain.verdict expat expat_fed disk file_path) as [b m]. eauto.
  - intros st. rewrite XmlMain.main_step_returns. eexists.
    split; [reflexivity|].
    intros p. unfold XmlMain.step_of.
    destruct (fst (XmlMain.verdict expat expat_fed disk file_path));
      cbn [Xml.trace];
      intros Hin; apply in_app_or in Hin;
      (destruct Hin as [Hin | [Hin | []]]; [exact Hin | discriminate]).
  - intros files. rewrite XmlMain.main_returns. do 2 eexists.
    split; [reflexivity|]. intros p Hin. apply in_map_iff in Hin.
    destruct Hin as [q [Hq _]].
    destruct (fst (XmlMain.verdict expat expat_fed disk q)); discriminate.
  - intros e Hdisk Hclass.
    assert (Hv : XmlMain.verdict expat expat_fed disk file_path
                 = (false, Some (Xml.UnexpectedError (text e)))).
    { unfold XmlMain.verdict, Xml.ET_parse, XmlMain.message_of.
      rewrite Hdisk, Hclass. reflexivity. }
    split.
    + rewrite XmlMain.validate_returns, Hv. reflexivity.
    + intros before after. rewrite XmlMain.main_returns.
      rewrite existsb_app. cbn [existsb]. rewrite Hv. cbn [fst negb orb].
      rewrite orb_true_r. eexists. split; [reflexivity|].
      apply in_map_iff. exists file_path. rewrite Hv. split; [reflexivity|].
      apply in_or_app. right. left. reflexivity.
Qed.

(** A run over one well-formed file and one missing file. *)
Example xml_missing_file_run :
  Xml.main (fun _ => Return tt) (fun _ => None)
    (fun p => if str_eqb p (s "a.xml") then Content (s "<a/>")
              else OpenError no_such_file)
    [s "a.xml"; s "b.xml"]
  = Return (1, [ Xml.ValidXml (s "a.xml");
                 Xml.Invalid (s "b.xml")
                   (Some (Xml.UnexpectedError (text no_such_file))) ]).
Proof. vm_compute. reflexivity. Qed.

(** A missing file, for a parser that accepts every text: the verdict is
    the unexpected error. *)
Lemma validate_xml_file_total_witness :
  Xml.validate_xml_file (fun _ => Return tt) (fun _ => None) empty_disk
    (s "gone.xml")
  = Return (false, Some (Xml.UnexpectedError (text no_such_file))).
Proof.
  exact (proj1 (proj2 (proj2 (proj2
           (validate_xml_file_total (fun _ => Return tt) (fun _ => None)
              empty_disk (s "gone.xml"))))
           no_such_file eq_refl eq_refl)).
Defined.

(** ** No state across files *)

(** The options of a run of a severity-filtered scanner, without its
    list of files. *)
Definition options_of (a : SeverityScan.args) : SeverityScan.args :=
  {| SeverityScan.files := [];
     SeverityScan.severity_option := SeverityScan.severity_option a;
     SeverityScan.json := SeverityScan.json a;
     SeverityScan.exclude_safe_contexts :=
       SeverityScan.exclude_safe_contexts a |}.

(** The line the XML checker prints for a file. *)
Definition xml_line (expat : str -> result unit)
  (expat_fed : str -> option exn) (file_path : str) (f : file) : Xml.line :=
  let v := XmlMain.verdict expat expat_fed (fun _ => f) file_path in
  if fst v then Xml.ValidXml file_path else Xml.Invalid file_path (snd v).

(** What the loop of the [main] of a scanner with a severity filter
    leaves behind, when it keeps no state across files: the blocks of the
    files in the order of the arguments (each with the messages of its
    check), and in the JSON document the issues kept for a file, both a
    function of the options, the path and what the disk holds at that
    path. *)
Definition no_state_across_files
  (check : fs -> str -> list SeverityScan.issue * list SeverityScan.line)
  (PATTERNS : list (str * SeverityScan.entry)) (excluded : str -> bool)
  : Prop :=
  forall disk a,
    SeverityScan.trace (SeverityScan.main_loop check PATTERNS excluded disk a)
    = flat_map (fun p => SeverityMain.report check PATTERNS excluded
                           (fun _ => disk p) (options_of a) p)
               (SeverityScan.files a) /\
    forall p issues,
      In (p, issues)
         (SeverityScan.all_results
            (SeverityScan.main_loop check PATTERNS excluded disk a)) ->
      In p (SeverityScan.files a) /\
      issues = SeverityMain.kept check PATTERNS excluded
                 (fun _ => disk p) (options_of a) p.

Lemma severity_scan_no_state
  (check : fs -> str -> list SeverityScan.issue * list SeverityScan.line)
  (PATTERNS : list (str * SeverityScan.entry)) (excluded : str -> bool) :
  (forall disk p, check disk p = check (fun _ => disk p) p) ->
  no_state_across_files check PATTERNS excluded.
Proof.
  intros Hlocal disk a. unfold SeverityScan.main_loop.
  destruct (SeverityMain.fold_step check PATTERNS excluded disk a
              (SeverityScan.files a)
              {| SeverityScan.exit_code := 0;
                 SeverityScan.total_issues := 0;
                 SeverityScan.all_results := [];
                 SeverityScan.trace := [] |}) as (_ & Ht & _ & Hr & _).
  split.
  - rewrite Ht. cbn [SeverityScan.trace app].
    apply flat_map_ext. intros p.
    rewrite (SeverityMain.report_local check PATTERNS excluded Hlocal).
    reflexivity.
  - intros p issues Hin. apply Hr in Hin.
    destruct Hin as [[] | [Hin ->]]. split; [exact Hin|].
    rewrite (SeverityMain.kept_local check PATTERNS excluded Hlocal).
    reflexivity.
Qed.

(** C8. The scanners keep no state across files.  The findings of a file
    are a function of its path and of what the disk holds at that path
    alone, and the output of the loop of every [main] is the
    concatenation, in the order of the arguments, of one block per file
    that is a function of the options, the path and the file alone: a
    file scanned twice gives the same block twice, and files added,
    removed or reordered leave the block of a file as it is.  This holds
    for the seven scripts; for the XML checker and the Ansible scanner,
    with a parser ([expat], [safe_load]) whose answer is a function of
    the text it is given. *)
Theorem findings_depend_on_the_file_alone :
  (forall disk file_path,
      Credentials.find_hardcoded_credentials disk file_path
      = CredentialsMain.per_file file_path (disk file_path)) /\
  (forall disk file_path,
      Urls.find_hardcoded_urls disk file_path
      = UrlsMain.per_file file_path (disk file_path)) /\
  (forall disk a,
      Credentials.trace (Credentials.main_loop disk a)
      = flat_map (fun p => CredentialsMain.report
                             (Credentials.show_values a) p (disk p))
                 (Credentials.files a)) /\
  (forall disk a,
      Urls.trace (Urls.main_loop disk a)
      = flat_map (fun p => UrlsMain.report p (disk p)) (Urls.files a)) /\
  (forall disk a,
      License.trace (License.main_loop disk a)
      = flat_map (fun p => LicenseMain.report (License.require_license a)
                             (License.license_type a) p (disk p))
                 (License.files a)) /\
  (forall expat expat_fed disk files,
      exists code,
        Xml.main expat expat_fed disk files
        = Return (code,
                  map (fun p => xml_line expat expat_fed p (disk p))
                      files)) /\
  no_state_across_files Verbose.check_verbose_flags
    Verbose.VERBOSE_PATTERNS Verbose.is_safe_context /\
  no_state_across_files Dotnet.check_dotnet_security
    Dotnet.DOTNET_SECURITY_PATTERNS (fun _ => false) /\
  (forall safe_load,
      no_state_across_files (Ansible.check_ansible_security safe_load)
        Ansible.ANSIBLE_SECURITY_PATTERNS (fun _ => false)).
Proof.
  split; [reflexivity|]. split; [reflexivity|].
  split; [|split; [|split; [|split]]].
  - intros disk a. unfold Credentials.main_loop.
    destruct (CredentialsMain.cred_fold_main_step disk a (Credentials.files a)
                {| Credentials.exit_code := 0; Credentials.total_issues := 0;
                   Credentials.trace := [] |}) as (_ & Ht & _).
    exact Ht.
  - intros disk a. unfold Urls.main_loop.
    destruct (UrlsMain.url_fold_main_step disk (Urls.files a)
                {| Urls.exit_code := 0; Urls.total_issues := 0;
                   Urls.trace := [] |}) as (_ & Ht & _).
    exact Ht.
  - intros disk a. unfold License.main_loop.
    destruct (LicenseMain.license_fold_main_step disk a (License.files a)
                {| License.exit_code := 0; License.checked_files := 0;
                   License.files_with_license := 0;
                   License.files_without_license := [];
                   License.trace := [] |}) as (_ & Ht).
    exact Ht.
  - intros expat expat_fed disk files. rewrite XmlMain.main_returns.
    eexists. reflexivity.
  - split; [|split].
    + apply severity_scan_no_state.
      exact SeverityMain.check_verbose_flags_local.
    + apply severity_scan_no_state.
      exact SeverityMain.check_dotnet_security_local.
    + intros safe_load. apply severity_scan_no_state.
      exact (SeverityMain.check_ansible_security_local safe_load).
Qed.

(** The block of a file is the same wherever the file stands among the
    arguments, and is repeated when the file is. *)
Example same_block_anywhere :
  let disk : fs := fun p =>
    if str_eqb p (s "a.py") then Content (s "u = 'http://prod.corp.io/x'")
    else Content (s "v = 'ftp://files.corp.io'") in
  let block := UrlsMain.report (s "a.py") (disk (s "a.py")) in
  Urls.trace (Urls.main_loop disk
                {| Urls.files := [s "a.py"; s "b.py"; s "a.py"];
                   Urls.exclude_comments := false |})
  = block ++ UrlsMain.report (s "b.py") (disk (s "b.py")) ++ block.
Proof. vm_compute. reflexivity. Qed.

Definition json_args : SeverityScan.args :=
  {| SeverityScan.files := [s "app.py"];
     SeverityScan.severity_option := None;
     SeverityScan.json := true;
     SeverityScan.exclude_safe_contexts := false |}.

(** The entry of app.py in the JSON document of a run over it. *)
Lemma findings_depend_on_the_file_alone_witness :
  exists issues,
    In (s "app.py", issues)
       (SeverityScan.all_results
          (SeverityScan.main_loop Verbose.check_verbose_flags
             Verbose.VERBOSE_PATTERNS Verbose.is_safe_context
             flag_disk json_args)) /\
    issues = fst (Verbose.check_verbose_flags flag_disk (s "app.py")) /\
    issues <> [].
Proof.
  pose proof (proj2 (proj1 (proj2 (proj2 (proj2 (proj2 (proj2 (proj2
                findings_depend_on_the_file_alone))))))
                flag_disk json_args)) as Hr.
  destruct (SeverityScan.all_results _) as [|[p issues] l] eqn:E;
    [vm_compute in E; discriminate|].
  assert (Hp : p = s "app.py").
  { vm_compute in E. injection E as <- _ _. reflexivity. }
  subst p. exists issues. split; [left; reflexivity|].
  destruct (Hr (s "app.py") issues (or_introl eq_refl)) as [_ Hk].
  split; [exact Hk|]. rewrite Hk. vm_compute. discriminate.
Defined.

End ScannerClaims.

(* ================================================================== *)
(** * Properties of the license checker *)
(* ================================================================== *)

Module LicenseClaims.
Import Text Regex Exn Fs License TextFacts.







(** Twenty empty lines, and a license notice. *)
Definition blank20 : str := repeat newline 20.
Definition notice : str := s "# MIT License" ++ [newline].

(** The notice counts on line 20 and does not on line 21. *)
Example notice_on_line_20_and_21 :
  has_license_header (fun _ => Content (repeat newline 19 ++ notice))
    (s "a.py") = (true, [s "mit"]) /\
  has_license_header (fun _ => Content (blank20 ++ notice))
    (s "a.py") = (false, []).
Proof. split; vm_compute; reflexivity. Qed.


End LicenseClaims.

(* ================================================================== *)
(** * The shape of the per-file checks *)
(* ================================================================== *)

Module ShapeClaims.
Import Text Regex Exn Fs TextFacts.

(** How a scan reads a file: the text whole, before it looks at the
    first line, or line by line as it goes. *)
Inductive reading := Whole | LineByLine.

(** The lines a scan sees: those of the text for a file that can be
    read, none for one that cannot be opened; when reading fails part of
    the way, none for a scan that reads the text whole, and those read
    before the failure for a scan that reads line by line. *)
Definition lines_of (how : reading) (split_lines : str -> list str)
  (f : file) : list str :=
  match f with
  | Content content => split_lines content
  | OpenError _ => []
  | ReadError read _ =>
      match how with
      | Whole => []
      | LineByLine => split_lines read
      end
  end.

(** A per-file check is a line-by-line scan when it flags a file exactly
    when it flags one of its lines, whether a line is flagged being a
    matter of the path and of that line alone. *)
Definition line_scan_shape (how : reading) (split_lines : str -> list str)
  (flagged : fs -> str -> bool) : Prop :=
  exists bad : str -> str -> bool,
    forall disk file_path,
      flagged disk file_path
      = existsb (bad file_path) (lines_of how split_lines (disk file_path)).

Definition nonempty {A} (l : list A) : bool :=
  match l with [] => false | _ => true end.

(** What the checks flag. *)
Definition credentials_flagged (disk : fs) (file_path : str) : bool :=
  nonempty (fst (Credentials.find_hardcoded_credentials disk file_path)).

Definition urls_flagged (disk : fs) (file_path : str) : bool :=
  nonempty (fst (Urls.find_hardcoded_urls disk file_path)).

Definition license_flagged (disk : fs) (file_path : str) : bool :=
  negb (fst (License.has_license_header disk file_path)).

Definition xml_flagged (expat : str -> result unit)
  (expat_fed : str -> option exn) (disk : fs) (file_path : str) : bool :=
  match Xml.validate_xml_file expat expat_fed disk file_path with
  | Return (is_valid, _) => negb is_valid
  | Raise _ => true
  end.

(** The filters of the two scanners, on one match. *)
Definition credential_passes (file_path line : str) (m : match_obj) : bool :=
  let v := Credentials.extract_credential_value (group0 m) in
  negb (Credentials.is_safe_value v)
  && (negb (Credentials.is_safe_context line file_path)
      || (30 <? length v) || Credentials.is_base64_encoded v).

Definition url_passes (line : str) (m : match_obj) : bool :=
  negb (Urls.is_safe_url (group0 m))
  && (negb (Urls.is_in_comment line)
      || existsb (fun keyword => contains keyword (lower (group0 m)))
                 Urls.SUSPICIOUS_KEYWORDS).

(** A line is flagged when it is not blank and a pattern of the table
    has a match on it that passes the filter. *)
Definition credentials_flag_line (file_path line : str) : bool :=
  nonempty (strip line)
  && existsb (fun entry : str * list re =>
       existsb (fun pattern =>
         existsb (credential_passes file_path line)
                 (finditer IGNORECASE pattern line))
         (snd entry))
       Credentials.CREDENTIAL_PATTERNS.

Definition urls_flag_line (line : str) : bool :=
  nonempty (strip line)
  && existsb (fun pattern =>
       existsb (url_passes line) (finditer IGNORECASE pattern line))
       Urls.URL_PATTERNS.

Lemma nonempty_flat_map {A B} (g : A -> list B) (l : list A) :
  nonempty (flat_map g l) = existsb (fun x => nonempty (g x)) l.
Proof.
  induction l as [|x l IH]; simpl; [reflexivity|].
  destruct (g x); simpl; [exact IH | reflexivity].
Qed.

Lemma existsb_enumerate {A} (f : A -> bool) (xs : list A) :
  forall k, existsb (fun nl : nat * A => f (snd nl)) (enumerate k xs)
            = existsb f xs.
Proof.
  induction xs as [|x xs IH]; intros k; simpl; [reflexivity|].
  rewrite IH. reflexivity.
Qed.

Lemma credentials_scan_line_flag (file_path : str) (n : nat) (line : str) :
  nonempty (Credentials.scan_line file_path n line)
  = credentials_flag_line file_path line.
Proof.
  unfold Credentials.scan_line, credentials_flag_line.
  destruct (strip line); [reflexivity|]. cbn [nonempty andb].
  rewrite nonempty_flat_map. apply existsb_pointwise. intros [cred pats].
  rewrite nonempty_flat_map. apply existsb_pointwise. intros pattern.
  rewrite nonempty_flat_map. apply existsb_pointwise. intros m.
  unfold Credentials.check_match, credential_passes.
  destruct (Credentials.is_safe_value _); [reflexivity|].
  destruct (Credentials.is_safe_context line file_path); cbn [negb andb orb].
  - destruct (_ || _); reflexivity.
  - reflexivity.
Qed.

Lemma urls_scan_line_flag (n : nat) (line : str) :
  nonempty (Urls.scan_line n line) = urls_flag_line line.
Proof.
  unfold Urls.scan_line, urls_flag_line.
  destruct (strip line); [reflexivity|]. cbn [nonempty andb].
  rewrite nonempty_flat_map. apply existsb_pointwise. intros pattern.
  rewrite nonempty_flat_map. apply existsb_pointwise. intros m.
  unfold Urls.check_match, url_passes.
  destruct (Urls.is_safe_url _); [reflexivity|].
  destruct (Urls.is_in_comment line); cbn [negb andb orb].
  - destruct (existsb _ Urls.SUSPICIOUS_KEYWORDS); reflexivity.
  - reflexivity.
Qed.

(** The credential scanner flags a file it does not skip exactly when it
    flags one of its lines. *)
Lemma credentials_flagged_by_line (disk : fs) (file_path : str) :
  credentials_flagged disk file_path
  = existsb (fun line =>
               negb (existsb (fun ext => endswith ext file_path)
                             Credentials.SKIP_EXTENSIONS)
               && credentials_flag_line file_path line)
            (lines_of Whole (split newline) (disk file_path)).
Proof.
  unfold credentials_flagged, Credentials.find_hardcoded_credentials.
  destruct (existsb _ Credentials.SKIP_EXTENSIONS); cbn [negb andb fst].
  - symmetry. apply existsb_false_all. reflexivity.
  - destruct (disk file_path) as [content|e|read e];
      [|reflexivity|reflexivity].
    cbn [fst lines_of]. unfold Credentials.scan_content.
    rewrite nonempty_flat_map.
    rewrite (existsb_pointwise _
               (fun nl : nat * str =>
                  credentials_flag_line file_path (snd nl))).
    + apply existsb_enumerate.
    + intros [n line]. apply credentials_scan_line_flag.
Qed.

Lemma urls_flagged_by_line (disk : fs) (file_path : str) :
  urls_flagged disk file_path
  = existsb (fun line =>
               negb (existsb (fun ext => endswith ext file_path)
                             Urls.SKIP_EXTENSIONS)
               && urls_flag_line line)
            (lines_of LineByLine readlines (disk file_path)).
Proof.
  unfold urls_flagged, Urls.find_hardcoded_urls.
  destruct (existsb _ Urls.SKIP_EXTENSIONS); cbn [negb andb fst].
  - symmetry. apply existsb_false_all. reflexivity.
  - destruct (disk file_path) as [content|e|content e]; [|reflexivity|];
      cbn [fst lines_of]; unfold Urls.scan_content;
      rewrite nonempty_flat_map;
      rewrite (existsb_pointwise _
                 (fun nl : nat * str => urls_flag_line (snd nl)));
      try apply existsb_enumerate;
      intros [n line]; apply urls_scan_line_flag.
Qed.

(** The XML checker flags a file exactly when the parser raises, the
    failure to open or to read the file included. *)
Lemma xml_flagged_by_parser (expat : str -> result unit)
  (expat_fed : str -> option exn) (disk : fs) (file_path : str) :
  xml_flagged expat expat_fed disk file_path
  = match disk file_path with
    | Content content =>
        match expat content with Return _ => false | Raise _ => true end
    | OpenError _ | ReadError _ _ => true
    end.
Proof.
  unfold xml_flagged. rewrite XmlMain.validate_returns.
  unfold XmlMain.verdict, Xml.ET_parse.
  destruct (disk file_path) as [content|e|read e]; [|reflexivity|].
  - destruct (expat content); reflexivity.
  - destruct (expat_fed read); reflexivity.
Qed.

(** Two source files with the same lines: the notice first, or after
    twenty empty lines. *)
Definition notice_first : str := LicenseClaims.notice ++ LicenseClaims.blank20.
Definition notice_last : str := LicenseClaims.blank20 ++ LicenseClaims.notice.

Example license_verdicts :
  license_flagged (fun _ => Content notice_first) (s "a.py") = false /\
  license_flagged (fun _ => Content notice_last) (s "a.py") = true.
Proof. split; vm_compute; reflexivity. Qed.

(** The license checker is no scan of the lines of the file: of two files
    with the same lines it flags one and not the other. *)
Lemma license_check_is_no_line_scan (how : reading) :
  ~ line_scan_shape how (split newline) license_flagged /\
  ~ line_scan_shape how readlines license_flagged.
Proof.
  split; intros [bad H];
    pose proof (H (fun _ => Content notice_first) (s "a.py")) as H1;
    pose proof (H (fun _ => Content notice_last) (s "a.py")) as H2;
    clear H; revert H1 H2; vm_compute;
    repeat match goal with
           | |- context [bad ?a ?b] => destruct (bad a b)
           end;
    intros; discriminate.
Qed.

(** Whatever the parser, the XML checker is no scan of the lines of the
    file: it flags a file that cannot be opened, which has no line. *)
Lemma xml_check_flags_without_lines (expat : str -> result unit)
  (expat_fed : str -> option exn) (how : reading)
  (split_lines : str -> list str) :
  ~ line_scan_shape how split_lines (xml_flagged expat expat_fed).
Proof.
  intros [bad H].
  specialize (H ScannerClaims.empty_disk (s "gone.xml")).
  rewrite xml_flagged_by_parser in H. simpl in H. discriminate.
Qed.

(** What the three scanners with a severity filter flag. *)
Definition verbose_flagged (disk : fs) (file_path : str) : bool :=
  nonempty (fst (Verbose.check_verbose_flags disk file_path)).

Definition dotnet_flagged (disk : fs) (file_path : str) : bool :=
  nonempty (fst (Dotnet.check_dotnet_security disk file_path)).

Definition ansible_flagged (safe_load : str -> Ansible.loaded) (disk : fs)
  (file_path : str) : bool :=
  nonempty (fst (Ansible.check_ansible_security safe_load disk file_path)).

(** A pattern of the table is found in the line, in an entry that is not
    muted. *)
Definition table_hit (PATTERNS : list (str * SeverityScan.entry))
  (muted : SeverityScan.entry -> bool) (line : str) : bool :=
  existsb (fun item : str * SeverityScan.entry =>
             negb (muted (snd item))
             && existsb (fun pattern =>
                           SeverityScan.is_some
                             (re_search IGNORECASE pattern line))
                        (SeverityScan.patterns (snd item)))
          PATTERNS.

Lemma scan_patterns_hit (PATTERNS : list (str * SeverityScan.entry))
  (muted : SeverityScan.entry -> bool) (n : nat) (line : str) :
  nonempty (SeverityScan.scan_patterns PATTERNS muted n line)
  = table_hit PATTERNS muted line.
Proof.
  unfold SeverityScan.scan_patterns, table_hit.
  rewrite nonempty_flat_map. apply existsb_pointwise.
  intros [name pattern_info]. cbn [snd].
  rewrite nonempty_flat_map.
  destruct (muted pattern_info); cbn [negb andb].
  - apply existsb_false_all. intros pattern.
    destruct (SeverityScan.is_some _); reflexivity.
  - apply existsb_pointwise. intros pattern.
    destruct (SeverityScan.is_some _); reflexivity.
Qed.

(** The lines the three scanners flag.  In detect-verbose-flags.py the
    entries of low severity are muted in a safe context; the two others
    have no filter on a match. *)
Definition verbose_flag_line (file_path line : str) : bool :=
  negb (SeverityScan.is_nil (strip line) || startswith (s "#") (strip line))
  && table_hit Verbose.VERBOSE_PATTERNS
       (fun pattern_info =>
          Verbose.is_safe_context file_path
          && str_eqb (SeverityScan.severity pattern_info) (s "low"))
       line.

Definition dotnet_flag_line (file_path line : str) : bool :=
  (existsb (fun config => contains config (lower (Pathlib.name file_path)))
           Dotnet.CONFIG_FILES
   && nonempty (Dotnet.config_line 0 line))
  || (negb (SeverityScan.is_nil (strip line))
      && table_hit Dotnet.DOTNET_SECURITY_PATTERNS (fun _ => false) line).

Lemma existsb_orb {A} (f g : A -> bool) (l : list A) :
  existsb (fun x => f x || g x) l = existsb f l || existsb g l.
Proof.
  induction l as [|x l IH]; simpl; [reflexivity|].
  rewrite IH. destruct (f x), (g x), (existsb f l); reflexivity.
Qed.

Lemma nonempty_app {A} (l1 l2 : list A) :
  nonempty (l1 ++ l2) = nonempty l1 || nonempty l2.
Proof. destruct l1; reflexivity. Qed.

Lemma config_line_number (n k : nat) (line : str) :
  nonempty (Dotnet.config_line n line) = nonempty (Dotnet.config_line k line).
Proof.
  unfold Dotnet.config_line.
  repeat match goal with
         | |- context [if ?c then _ else _] => destruct c
         end; reflexivity.
Qed.

Lemma verbose_flagged_by_line (disk : fs) (file_path : str) :
  verbose_flagged disk file_path
  = existsb (fun line => Verbose.should_check_file file_path
                         && verbose_flag_line file_path line)
            (lines_of Whole (split newline) (disk file_path)).
Proof.
  unfold verbose_flagged, Verbose.check_verbose_flags.
  destruct (Verbose.should_check_file file_path); cbn [negb andb].
  - destruct (disk file_path) as [content|e|read e];
      [|reflexivity|reflexivity].
    cbn [lines_of fst]. rewrite nonempty_flat_map.
    rewrite (existsb_pointwise _
               (fun nl : nat * str => verbose_flag_line file_path (snd nl))).
    + apply existsb_enumerate.
    + intros [n line]. cbn [fst snd].
      unfold Verbose.scan_line, verbose_flag_line.
      destruct (_ || _); [reflexivity|]. cbn [negb andb].
      apply scan_patterns_hit.
  - symmetry. apply existsb_false_all. reflexivity.
Qed.

Lemma dotnet_flagged_by_line (disk : fs) (file_path : str) :
  dotnet_flagged disk file_path
  = existsb (fun line => Dotnet.should_check_file file_path
                         && dotnet_flag_line file_path line)
            (lines_of Whole (split newline) (disk file_path)).
Proof.
  unfold dotnet_flagged, Dotnet.check_dotnet_security.
  destruct (Dotnet.should_check_file file_path); cbn [negb andb].
  - destruct (disk file_path) as [content|e|read e];
      [|reflexivity|reflexivity].
    cbn [lines_of fst]. unfold dotnet_flag_line.
    rewrite existsb_orb, nonempty_app. f_equal.
    + destruct (existsb _ Dotnet.CONFIG_FILES); cbn [andb].
      * unfold Dotnet.analyze_config_file. rewrite nonempty_flat_map.
        rewrite (existsb_pointwise _
                   (fun nl : nat * str =>
                      nonempty (Dotnet.config_line 0 (snd nl)))).
        -- apply (existsb_enumerate
                    (fun line => nonempty (Dotnet.config_line 0 line))).
        -- intros [n line]. apply config_line_number.
      * symmetry. apply existsb_false_all. reflexivity.
    + rewrite nonempty_flat_map.
      rewrite (existsb_pointwise _
                 (fun nl : nat * str =>
                    negb (SeverityScan.is_nil (strip (snd nl)))
                    && table_hit Dotnet.DOTNET_SECURITY_PATTERNS
                         (fun _ => false) (snd nl))).
      * apply (existsb_enumerate
                 (fun line => negb (SeverityScan.is_nil (strip line))
                              && table_hit Dotnet.DOTNET_SECURITY_PATTERNS
                                   (fun _ => false) line)).
      * intros [n line]. cbn [fst snd]. unfold Dotnet.scan_line.
        destruct (SeverityScan.is_nil _); [reflexivity|]. cbn [negb andb].
        apply scan_patterns_hit.
  - symmetry. apply existsb_false_all. reflexivity.
Qed.

(** Two files of an inventory with the same two lines: the vault header
    first, or second. *)
Definition vault_first : str := s "$ANSIBLE_VAULT" ++ [newline] ++ s "foo".
Definition vault_second : str := s "foo" ++ [newline] ++ s "$ANSIBLE_VAULT".

Example ansible_verdicts (safe_load : str -> Ansible.loaded) :
  ansible_flagged safe_load (fun _ => Content vault_first)
    (s "group_vars/secret") = false /\
  ansible_flagged safe_load (fun _ => Content vault_second)
    (s "group_vars/secret") = true.
Proof. split; vm_compute; reflexivity. Qed.

(** The Ansible scanner is no scan of the lines of the file: whatever the
    YAML library, it flags one of two files with the same lines, for the
    vault header that is not at the start of the text. *)
Lemma ansible_check_is_no_line_scan (safe_load : str -> Ansible.loaded)
  (how : reading) :
  ~ line_scan_shape how (split newline) (ansible_flagged safe_load).
Proof.
  intros [bad H].
  pose proof (H (fun _ => Content vault_first) (s "group_vars/secret")) as H1.
  pose proof (H (fun _ => Content vault_second) (s "group_vars/secret")) as H2.
  clear H.
  rewrite (proj1 (ansible_verdicts safe_load)) in H1.
  rewrite (proj2 (ansible_verdicts safe_load)) in H2.
  revert H1 H2. vm_compute.
  repeat match goal with
         | |- context [bad ?a ?b] => destruct (bad a b)
         end;
    intros; discriminate.
Qed.

(** C2, as stated: the per-file check of the XML syntax checker is not a
    line-by-line scan, for any parser and any way of cutting a file into
    lines, and that of the license checker is not one either. *)
Lemma xml_and_license_checks_are_no_line_scans :
  ~ (exists expat expat_fed how split_lines,
        line_scan_shape how split_lines (xml_flagged expat expat_fed)) /\
  ~ (exists how, line_scan_shape how (split newline) license_flagged).
Proof.
  split.
  - intros (expat & expat_fed & how & split_lines & H).
    exact (xml_check_flags_without_lines expat expat_fed how split_lines H).
  - intros (how & H). exact (proj1 (license_check_is_no_line_scan how) H).
Qed.

(** A check whose verdict on the readable files is that of a scan of
    their lines. *)
Definition line_local (split_lines : str -> list str)
  (flagged : fs -> str -> bool) : Prop :=
  exists bad : str -> str -> bool,
    forall disk file_path content,
      disk file_path = Content content ->
      flagged disk file_path = existsb (bad file_path) (split_lines content).

(** One empty element, and the same element twice. *)
Definition one_element : str := s "<a/>" ++ [newline].
Definition two_elements : str := one_element ++ one_element.

(** A parser that accepts the first document and rejects the second (as
    an XML parser must: a document has a single root element) makes the
    verdict of the XML checker a matter of the whole file, not of its
    lines. *)
Lemma xml_check_is_not_line_local (expat : str -> result unit)
  (expat_fed : str -> option exn) (e : exn) :
  expat one_element = Return tt ->
  expat two_elements = Raise e ->
  ~ line_local (split newline) (xml_flagged expat expat_fed) /\
  ~ line_local readlines (xml_flagged expat expat_fed).
Proof.
  intros Hone Htwo.
  split; intros [bad H];
    pose proof (H (fun _ => Content one_element) (s "a.xml") one_element
                  eq_refl) as H1;
    pose proof (H (fun _ => Content two_elements) (s "a.xml") two_elements
                  eq_refl) as H2;
    clear H; rewrite xml_flagged_by_parser in H1, H2;
    cbv beta iota in H1, H2; rewrite Hone in H1; rewrite Htwo in H2;
    revert H1 H2; clear Hone Htwo; vm_compute;
    repeat match goal with
           | |- context [bad ?a ?b] => destruct (bad a b)
           end;
    intros; discriminate.
Qed.

(** C2, amended.  Four of the seven scripts have the shape of the
    statement.  For the credential scanner and the URL scanner, a file
    that is scanned is flagged exactly when one of its lines is, a line
    being flagged when it is not blank and a pattern of the static table
    has a match on it that passes the safe-value and safe-context filter
    (for URLs, the safe-URL and comment filter).  For
    detect-verbose-flags.py and dotnet-security-scan.py likewise, a line
    being flagged when a pattern of the table is found in it; the only
    filter of the first is that a safe context mutes the entries of low
    severity, and the second has none on a match but flags, in a
    configuration file, the lines that hold one of a few substrings.
    The three other scripts have not that shape.  The XML syntax checker
    flags a file exactly when the parser of the library raises on it, a
    failure to open or to read the file included, so that no scan of
    lines gives its verdict.  The license checker looks at the first 20
    lines as one text, and flags one of two files that have the same
    lines.  The Ansible scanner adds to its scan of the lines a check of
    how the whole text starts, and flags one of two files that have the
    same lines. *)
Theorem shape_of_the_checks :
  (forall disk file_path,
      credentials_flagged disk file_path
      = existsb (fun line =>
                   negb (existsb (fun ext => endswith ext file_path)
                                 Credentials.SKIP_EXTENSIONS)
                   && credentials_flag_line file_path line)
                (lines_of Whole (split newline) (disk file_path))) /\
  (forall disk file_path,
      urls_flagged disk file_path
      = existsb (fun line =>
                   negb (existsb (fun ext => endswith ext file_path)
                                 Urls.SKIP_EXTENSIONS)
                   && urls_flag_line line)
                (lines_of LineByLine readlines (disk file_path))) /\
  line_scan_shape Whole (split newline) credentials_flagged /\
  line_scan_shape LineByLine readlines urls_flagged /\
  (forall expat expat_fed disk file_path,
      xml_flagged expat expat_fed disk file_path
      = match disk file_path with
        | Content content =>
            match expat content with Return _ => false | Raise _ => true end
        | OpenError _ | ReadError _ _ => true
        end) /\
  (forall expat expat_fed how split_lines,
      ~ line_scan_shape how split_lines (xml_flagged expat expat_fed)) /\
  (forall expat expat_fed e,
      expat one_element = Return tt ->
      expat two_elements = Raise e ->
      ~ line_local (split newline) (xml_flagged expat expat_fed) /\
      ~ line_local readlines (xml_flagged expat expat_fed)) /\
  (forall how, ~ line_scan_shape how (split newline) license_flagged) /\
  (forall how, ~ line_scan_shape how readlines license_flagged) /\
  (forall disk file_path,
      verbose_flagged disk file_path
      = existsb (fun line => Verbose.should_check_file file_path
                             && verbose_flag_line file_path line)
                (lines_of Whole (split newline) (disk file_path))) /\
  (forall disk file_path,
      dotnet_flagged disk file_path
      = existsb (fun line => Dotnet.should_check_file file_path
                             && dotnet_flag_line file_path line)
                (lines_of Whole (split newline) (disk file_path))) /\
  line_scan_shape Whole (split newline) verbose_flagged /\
  line_scan_shape Whole (split newline) dotnet_flagged /\
  (forall safe_load how,
      ~ line_scan_shape how (split newline) (ansible_flagged safe_load)).
Proof.
  split; [exact credentials_flagged_by_line|].
  split; [exact urls_flagged_by_line|].
  split.
  { eexists. intros disk file_path.
    rewrite credentials_flagged_by_line. reflexivity. }
  split.
  { exists (fun file_path line =>
              negb (existsb (fun ext => endswith ext file_path)
                            Urls.SKIP_EXTENSIONS)
              && urls_flag_line line).
    exact urls_flagged_by_line. }
  split; [exact xml_flagged_by_parser|].
  split; [exact xml_check_flags_without_lines|].
  split; [exact xml_check_is_not_line_local|].
  split; [exact (fun how => proj1 (license_check_is_no_line_scan how))|].
  split; [exact (fun how => proj2 (license_check_is_no_line_scan how))|].
  split; [exact verbose_flagged_by_line|].
  split; [exact dotnet_flagged_by_line|].
  split.
  { eexists. intros disk file_path.
    rewrite verbose_flagged_by_line. reflexivity. }
  split.
  { eexists. intros disk file_path.
    rewrite dotnet_flagged_by_line. reflexivity. }
  exact ansible_check_is_no_line_scan.
Qed.

(** The two answers of an XML parser that the statement above asks for,
    as a table: a document is accepted when it is the single element. *)
Definition single_element_only (content : str) : result unit :=
  if str_eqb content one_element then Return tt
  else Raise {| class := ParseError;
                text := s "junk after document element: line 2, column 0" |}.

(** With that parser the verdict of the XML checker is no matter of the
    lines of the file. *)
Lemma shape_of_the_checks_witness :
  ~ line_local (split newline)
      (xml_flagged single_element_only (fun _ => None)).
Proof.
  refine (proj1 (proj1 (proj2 (proj2 (proj2 (proj2 (proj2 (proj2
            shape_of_the_checks))))))
            single_element_only (fun _ => None) _ _ _));
    vm_compute; reflexivity.
Defined.

End ShapeClaims.

(* ================================================================== *)
(** * Further properties of the scripts *)
(* ================================================================== *)

(** ** Lists *)

Module ListFacts.

Lemma forallb_pointwise {A} (f g : A -> bool) (l : list A) :
  (forall x, f x = g x) -> forallb f l = forallb g l.
Proof.
  intros H. induction l as [|x l IH]; simpl; [reflexivity|].
  rewrite H, IH. reflexivity.
Qed.

Lemma filter_cons_app {A} (f : A -> bool) (x : A) (l : list A) :
  filter f (x :: l) = filter f [x] ++ filter f l.
Proof. simpl. destruct (f x); reflexivity. Qed.

Lemma filter_split_length {A} (f : A -> bool) (l : list A) :
  length l = length (filter f l) + length (filter (fun x => negb (f x)) l).
Proof.
  induction l as [|x l IH]; simpl; [reflexivity|].
  destruct (f x); simpl; lia.
Qed.

Lemma filter_nil_all {A} (f : A -> bool) (l : list A) :
  filter f l = [] -> forall x, In x l -> f x = false.
Proof.
  induction l as [|y l IH]; simpl; [intros _ x []|].
  destruct (f y) eqn:E; [discriminate|].
  intros H x [<- | Hx]; [exact E | exact (IH H x Hx)].
Qed.

Lemma flat_map_nil_all {A B} (g : A -> list B) (l : list A) :
  (forall x, In x l -> g x = []) -> flat_map g l = [].
Proof.
  intros H. induction l as [|x l IH]; simpl; [reflexivity|].
  rewrite (H x (or_introl eq_refl)), IH; [reflexivity|].
  intros y Hy. apply H. right. exact Hy.
Qed.

Lemma filter_all {A} (f : A -> bool) (l : list A) :
  (forall x, In x l -> f x = true) -> filter f l = l.
Proof.
  intros H. induction l as [|x l IH]; simpl; [reflexivity|].
  rewrite (H x (or_introl eq_refl)). f_equal. apply IH.
  intros y Hy. apply H. right. exact Hy.
Qed.

End ListFacts.

(** ** What the matcher answers *)

Module RegexSemantics.
Import Text Regex TextFacts RegexFacts ListFacts.

(** The positions a repetition can stop at: where it stands, or where a
    further repetition stops after a round that moved forward. *)
Inductive star_reach (R : pos -> pos -> Prop) : pos -> pos -> Prop :=
| star_done (p : pos) : star_reach R p p
| star_more (p m q : pos) :
    R p m -> length (rest m) < length (rest p) -> star_reach R m q ->
    star_reach R p q.

Definition one_reach (ok : ascii -> bool) (p q : pos) : Prop :=
  exists c t, rest p = c :: t /\ ok c = true /\ q = step p c t.

(** [reach f r p q]: the pattern [r] can match from [p] to [q]. *)
Fixpoint reach (f : flags) (r : re) (p q : pos) : Prop :=
  match r with
  | Eps => q = p
  | Lit c => one_reach (lit_eq f c) p q
  | Any => one_reach (fun c => negb (ascii_eqb c newline)) p q
  | Cls n items => one_reach (cls_has f n items) p q
  | Seq a b => exists m, reach f a p m /\ reach f b m q
  | Alt a b => reach f a p q \/ reach f b p q
  | Star a => star_reach (reach f a) p q
  | Group a =>
      exists p', reach f a p p' /\
        q = {| before := before p'; rest := rest p';
               grp := Some (firstn (length (rest p) - length (rest p'))
                                   (rest p)) |}
  | NotAhead a => q = p /\ forall q', ~ reach f a p q'
  | Bol => at_bol f p = true /\ q = p
  | Eol => at_eol f p = true /\ q = p
  end.

Lemma one_sound {A} (ok : ascii -> bool) (p : pos) (k : pos -> option A)
  (v : A) :
  one p ok k = Some v -> exists q, one_reach ok p q /\ k q = Some v.
Proof.
  unfold one, one_reach. destruct (rest p) as [|c t] eqn:E; [discriminate|].
  destruct (ok c) eqn:Ec; [|discriminate].
  intros H. exists (step p c t). split; [|exact H]. exists c, t. auto.
Qed.

Lemma one_complete {A} (ok : ascii -> bool) (p q : pos) (k : pos -> option A)
  (v : A) :
  one_reach ok p q -> k q = Some v -> one p ok k = Some v.
Proof.
  intros (c & t & E & Ec & ->) H. unfold one. rewrite E, Ec. exact H.
Qed.

Lemma star_sound {A} (body : pos -> (pos -> option A) -> option A)
  (R : pos -> pos -> Prop) (k : pos -> option A) :
  (forall p j v, body p j = Some v -> exists q, R p q /\ j q = Some v) ->
  forall fuel p v,
    star_loop body k fuel p = Some v ->
    exists q, star_reach R p q /\ k q = Some v.
Proof.
  intros Hbody. induction fuel as [|fuel IH]; intros p v; simpl.
  - intros H. exists p. split; [constructor | exact H].
  - destruct (body p _) as [v'|] eqn:E.
    + intros H. inversion H; subst v'. clear H.
      apply Hbody in E. destruct E as (m & Hm & E).
      destruct (length (rest m) <? length (rest p)) eqn:El; [|discriminate].
      apply Nat.ltb_lt in El. apply IH in E. destruct E as (q & Hq & Hk).
      exists q. split; [|exact Hk]. eapply star_more; eassumption.
    + intros H. exists p. split; [constructor | exact H].
Qed.

Lemma star_complete {A} (body : pos -> (pos -> option A) -> option A)
  (R : pos -> pos -> Prop) (k : pos -> option A) :
  (forall p q j v, R p q -> j q = Some v -> exists v', body p j = Some v') ->
  forall p q, star_reach R p q ->
  forall v, k q = Some v ->
  forall fuel, length (rest p) <= fuel ->
               exists v', star_loop body k fuel p = Some v'.
Proof.
  intros Hbody p q Hs. induction Hs as [p | p m q Hpm Hlt Hs IH];
    intros v Hk fuel Hf.
  - destruct fuel; simpl; [eauto|].
    destruct (body p _); eauto.
  - destruct fuel as [|fuel]; [lia|]. simpl.
    destruct (IH v Hk fuel ltac:(lia)) as [v1 H1].
    destruct (Hbody p m
                (fun q' => if length (rest q') <? length (rest p)
                           then star_loop body k fuel q' else None) v1 Hpm)
      as [v2 H2].
    { apply Nat.ltb_lt in Hlt. rewrite Hlt. exact H1. }
    rewrite H2. eauto.
Qed.

(** The matcher answers exactly when the pattern can match up to a
    position at which the continuation answers; and its answer is the
    continuation's at such a position. *)
Lemma run_reach (f : flags) (r : re) :
  forall A (p : pos) (k : pos -> option A),
    (forall v, run f r p k = Some v ->
               exists q, reach f r p q /\ k q = Some v) /\
    (forall q v, reach f r p q -> k q = Some v ->
                 exists v', run f r p k = Some v').
Proof.
  induction r as [ | c | | n items | a IHa b IHb | a IHa b IHb | a IHa
                 | a IHa | a IHa | | ]; intros A p k; simpl.
  - split; [intros v H; eauto | intros q v -> H; eauto].
  - split; [apply one_sound | ].
    intros q v Hq Hk. exists v. eapply one_complete; eassumption.
  - split; [apply one_sound | ].
    intros q v Hq Hk. exists v. eapply one_complete; eassumption.
  - split; [apply one_sound | ].
    intros q v Hq Hk. exists v. eapply one_complete; eassumption.
  - split.
    + intros v H. apply (proj1 (IHa A p _)) in H.
      destruct H as (m & Hm & H). apply (proj1 (IHb A m k)) in H.
      destruct H as (q & Hq & H). eauto.
    + intros q v (m & Hm & Hq) Hk.
      destruct (proj2 (IHb A m k) q v Hq Hk) as [v1 H1].
      exact (proj2 (IHa A p _) m v1 Hm H1).
  - split.
    + intros v. destruct (run f a p k) as [v'|] eqn:E.
      * intros H. inversion H; subst v'.
        apply (proj1 (IHa A p k)) in E. destruct E as (q & Hq & E). eauto.
      * intros H. apply (proj1 (IHb A p k)) in H.
        destruct H as (q & Hq & H). eauto.
    + intros q v [Hq | Hq] Hk.
      * destruct (proj2 (IHa A p k) q v Hq Hk) as [v1 H1]. rewrite H1. eauto.
      * destruct (run f a p k); [eauto|].
        exact (proj2 (IHb A p k) q v Hq Hk).
  - split.
    + intros v H.
      apply (star_sound (run f a) (reach f a) k) in H; [exact H|].
      intros p0 j v0. apply (proj1 (IHa A p0 j)).
    + intros q v Hq Hk.
      apply (star_complete (run f a) (reach f a) k) with (q := q) (v := v);
        [|exact Hq|exact Hk|lia].
      intros p0 q0 j v0. apply (proj2 (IHa A p0 j)).
  - split.
    + intros v H. apply (proj1 (IHa A p _)) in H.
      destruct H as (p' & Hp' & H). eauto.
    + intros q v (p' & Hp' & ->) Hk.
      exact (proj2 (IHa A p _) p' v Hp' Hk).
  - split.
    + intros v. destruct (run f a p (fun _ => Some tt)) as [u|] eqn:E;
        [discriminate|].
      intros H. exists p. split; [|exact H]. split; [reflexivity|].
      intros q' Hq'.
      destruct (proj2 (IHa unit p (fun _ => Some tt)) q' tt Hq' eq_refl)
        as [u Hu].
      congruence.
    + intros q v [-> Hno] Hk.
      destruct (run f a p (fun _ => Some tt)) as [u|] eqn:E; [|eauto].
      apply (proj1 (IHa unit p (fun _ => Some tt))) in E.
      destruct E as (q' & Hq' & _). exfalso. exact (Hno q' Hq').
  - destruct (at_bol f p).
    + split; [intros v H; eauto | intros q v [_ ->] H; eauto].
    + split; [discriminate | intros q v [H _]; discriminate].
  - destruct (at_eol f p).
    + split; [intros v H; eauto | intros q v [_ ->] H; eauto].
    + split; [discriminate | intros q v [H _]; discriminate].
Qed.


(** *** What a match consumes *)

(** The position after the characters [w]. *)
Fixpoint adv (p : pos) (w : str) : pos :=
  match w with
  | [] => p
  | c :: w' => adv (step p c (tl (rest p))) w'
  end.

Lemma adv_rest (w : str) : forall p t, rest p = w ++ t -> rest (adv p w) = t.
Proof.
  induction w as [|c w IH]; intros p t H; simpl; [exact H|].
  apply IH. simpl. rewrite H. reflexivity.
Qed.

Lemma adv_app (w1 w2 : str) : forall p, adv p (w1 ++ w2) = adv (adv p w1) w2.
Proof.
  induction w1 as [|c w1 IH]; intros p; simpl; [reflexivity|]. apply IH.
Qed.

Lemma adv_cons (p : pos) (c : ascii) (w t : str) :
  rest p = c :: t -> adv p (c :: w) = adv (step p c t) w.
Proof. intros E. simpl. rewrite E. reflexivity. Qed.

(** A repetition of a one-character pattern consumes a run of
    characters the pattern accepts. *)
Lemma star_one_consumes (ok : ascii -> bool) (p q : pos) :
  star_reach (one_reach ok) p q ->
  exists w, rest p = w ++ rest q /\ forallb ok w = true /\ q = adv p w.
Proof.
  intros H. induction H as [p | p m q Hpm _ _ IH].
  - exists []. auto.
  - destruct IH as (w & Hw & Hok & Hq).
    destruct Hpm as (c & t & E & Hc & ->). simpl in Hw.
    exists (c :: w). simpl forallb. rewrite Hc, Hok.
    rewrite (adv_cons p c w t E), E. subst t. auto.
Qed.

Lemma star_one_reaches (ok : ascii -> bool) (w : str) :
  forall p t, rest p = w ++ t -> forallb ok w = true ->
              star_reach (one_reach ok) p (adv p w).
Proof.
  induction w as [|c w IH]; intros p t Hw Hok.
  - constructor.
  - simpl in Hok. apply andb_true_iff in Hok. destruct Hok as [Hc Hok].
    rewrite (adv_cons p c w (w ++ t) Hw).
    apply star_more with (m := step p c (w ++ t)).
    + exists c, (w ++ t). auto.
    + simpl. rewrite Hw. simpl. lia.
    + apply (IH _ t); [reflexivity | exact Hok].
Qed.

(** A run of literal characters. *)
Lemma lit_chars_reaches (f : flags) (x : str) :
  forall p t, rest p = x ++ t -> reach f (lit_chars x) p (adv p x).
Proof.
  assert (Hc : forall c, lit_eq f c c = true).
  { intros c. unfold lit_eq.
    replace (ascii_eqb c c) with true; [reflexivity|].
    symmetry. apply ascii_eqb_eq. reflexivity. }
  induction x as [|c x IH]; intros p t Hx.
  - reflexivity.
  - rewrite (adv_cons p c x (x ++ t) Hx).
    destruct x as [|d x].
    + simpl. exists c, t. auto.
    + change (lit_chars (c :: d :: x))
        with (Seq (Lit c) (lit_chars (d :: x))).
      cbn [reach]. exists (step p c ((d :: x) ++ t)). split.
      * exists c, ((d :: x) ++ t). auto.
      * apply (IH _ t). reflexivity.
Qed.

Lemma lit_chars_consumes (x : str) :
  forall p q, reach NOFLAGS (lit_chars x) p q ->
              rest p = x ++ rest q /\ q = adv p x.
Proof.
  assert (Hone : forall c p q, one_reach (lit_eq NOFLAGS c) p q ->
                               rest p = c :: rest q /\ q = adv p [c]).
  { intros c p q (y & t & E & Hy & ->). unfold lit_eq in Hy. simpl in Hy.
    rewrite orb_false_r in Hy. apply ascii_eqb_eq in Hy. subst y.
    simpl. rewrite E. auto. }
  induction x as [|c x IH]; intros p q H.
  - simpl in H. subst q. auto.
  - destruct x as [|d x].
    + apply Hone. exact H.
    + change (lit_chars (c :: d :: x))
        with (Seq (Lit c) (lit_chars (d :: x))) in H.
      cbn [reach] in H. destruct H as (m & Hm & H).
      apply Hone in Hm. destruct Hm as [Em ->].
      apply IH in H. destruct H as [E ->].
      split.
      * rewrite Em, E. reflexivity.
      * change (c :: d :: x) with ([c] ++ d :: x). rewrite adv_app.
        reflexivity.
Qed.

(** *** [re.match], [re.search] and [re.finditer] *)

Definition start (prev : option ascii) (t : str) : pos :=
  {| before := prev; rest := t; grp := None |}.

Lemma match_at_some (f : flags) (r : re) (prev : option ascii) (t : str) :
  (exists m, match_at f r prev t = Some m) <->
  exists q, reach f r (start prev t) q.
Proof.
  unfold match_at. fold (start prev t). split.
  - intros [m H]. apply (proj1 (run_reach f r _ _ _)) in H.
    destruct H as (q & Hq & _). eauto.
  - intros [q Hq].
    exact (proj2 (run_reach f r _ (start prev t) _) q _ Hq eq_refl).
Qed.

Lemma match_at_sound (f : flags) (r : re) (prev : option ascii) (t : str)
  (m : match_obj) :
  match_at f r prev t = Some m ->
  exists q, reach f r (start prev t) q /\
            group0 m = firstn (length t - length (rest q)) t /\
            group1 m = grp q.
Proof.
  unfold match_at. fold (start prev t). intros H.
  apply (proj1 (run_reach f r _ _ _)) in H.
  destruct H as (q & Hq & H). inversion H. eauto.
Qed.


(** Whether a call of [re.match] or [re.search] found a match. *)
Definition hit (o : option match_obj) : bool :=
  match o with Some _ => true | None => false end.

Lemma hit_match (f : flags) (r : re) (t : str) :
  hit (re_match f r t) = true <-> exists q, reach f r (start None t) q.
Proof.
  unfold re_match. rewrite <- match_at_some.
  destruct (match_at f r None t); simpl; split; eauto; try discriminate.
  intros [m H]; discriminate.
Qed.

Definition not_newline (c : ascii) : bool := negb (ascii_eqb c newline).

Lemma star_any_consumes (f : flags) (p q : pos) :
  reach f (Star Any) p q ->
  exists w, rest p = w ++ rest q /\ forallb not_newline w = true /\
            q = adv p w.
Proof. intros H. apply star_one_consumes. exact H. Qed.

Lemma star_any_reaches (f : flags) (w : str) (p : pos) (t : str) :
  rest p = w ++ t -> forallb not_newline w = true ->
  reach f (Star Any) p (adv p w).
Proof.
  intros Hw Hok.
  exact (star_one_reaches not_newline w p t Hw Hok).
Qed.

Lemma no_newline_forallb (t : str) :
  ~ In newline t -> forallb not_newline t = true.
Proof.
  intros H. apply forallb_forall. intros c Hc. unfold not_newline.
  destruct (ascii_eqb c newline) eqn:E; [|reflexivity].
  apply ascii_eqb_eq in E. subst c. contradiction.
Qed.

(** x.* matches at the start of the texts that start with x. *)
Lemma match_prefix (x t : str) :
  hit (re_match NOFLAGS (Seq (lit_chars x) (Star Any)) t) = startswith x t.
Proof.
  apply eq_true_iff_eq. rewrite hit_match, startswith_prefix. split.
  - intros (q & m & Hm & _). apply lit_chars_consumes in Hm.
    destruct Hm as [E _]. simpl in E. eauto.
  - intros [post E]. exists (adv (start None t) x).
    exists (adv (start None t) x). split.
    + apply (lit_chars_reaches NOFLAGS x _ post). exact E.
    + constructor.
Qed.

(** .*x.* matches at the start of the texts that contain x, when they
    are within one line. *)
Lemma match_infix (x t : str) :
  ~ In newline t ->
  hit (re_match NOFLAGS (Seq (Star Any) (Seq (lit_chars x) (Star Any))) t)
  = contains x t.
Proof.
  intros Hnl. apply eq_true_iff_eq. rewrite hit_match, contains_infix. split.
  - intros (q & m1 & H1 & m2 & H2 & _).
    apply star_any_consumes in H1. destruct H1 as (w & Hw & _ & _).
    apply lit_chars_consumes in H2. destruct H2 as [E _].
    simpl in Hw. exists w, (rest m2). rewrite Hw, E. reflexivity.
  - intros (pre & post & E).
    set (m1 := adv (start None t) pre).
    exists (adv m1 x), m1. split.
    + apply (star_any_reaches NOFLAGS pre _ (x ++ post)); [exact E|].
      apply no_newline_forallb. intros Hin. apply Hnl. rewrite E.
      apply in_or_app. left. exact Hin.
    + exists (adv m1 x). split; [|constructor].
      apply (lit_chars_reaches NOFLAGS x _ post).
      apply adv_rest. exact E.
Qed.

Lemma dropWhile_spaces (w t : str) (c : ascii) :
  forallb is_space w = true -> is_space c = false ->
  dropWhile is_space (w ++ c :: t) = c :: t.
Proof.
  intros Hw Hc. induction w as [|y w IH]; simpl.
  - rewrite Hc. reflexivity.
  - simpl in Hw. apply andb_true_iff in Hw. destruct Hw as [Hy Hw].
    rewrite Hy. apply IH. exact Hw.
Qed.

Lemma dropWhile_split (p : ascii -> bool) (t : str) :
  exists w, t = w ++ dropWhile p t /\ forallb p w = true.
Proof.
  induction t as [|c t IH]; simpl.
  - exists []. auto.
  - destruct (p c) eqn:E.
    + destruct IH as (w & Hw & Hp). exists (c :: w). simpl.
      rewrite E, Hp. split; [f_equal; exact Hw | reflexivity].
    + exists []. auto.
Qed.

Lemma ws_is_space (f : flags) (c : ascii) :
  cls_has f false [ISpace] c = is_space c.
Proof.
  destruct f as [[] ml]; destruct c as [[] [] [] [] [] [] [] []];
    reflexivity.
Qed.

(** ^\s*x, for an x that starts with a character that is no white
    space, matches the texts that start with x after their leading white
    space. *)
Lemma match_after_spaces (c : ascii) (x t : str) :
  is_space c = false ->
  hit (re_match NOFLAGS (Seq Bol (Seq (Star ws) (lit_chars (c :: x)))) t)
  = startswith (c :: x) (dropWhile is_space t).
Proof.
  intros Hc. apply eq_true_iff_eq. rewrite hit_match, startswith_prefix.
  split.
  - intros (q & m0 & [_ ->] & m1 & H1 & H2).
    apply star_one_consumes in H1. destruct H1 as (w & Hw & Hok & _).
    apply lit_chars_consumes in H2. destruct H2 as [E _].
    simpl in Hw. exists (rest q). rewrite Hw, E.
    apply (dropWhile_spaces w (x ++ rest q) c); [|exact Hc].
    rewrite <- Hok. apply forallb_pointwise. intros y. symmetry.
    apply ws_is_space.
  - intros [post E].
    destruct (dropWhile_split is_space t) as (w & Hw & Hok).
    rewrite E in Hw.
    set (m1 := adv (start None t) w).
    exists (adv m1 (c :: x)), (start None t). split; [split; reflexivity|].
    exists m1. split.
    + apply (star_one_reaches _ w _ ((c :: x) ++ post)); [exact Hw|].
      rewrite <- Hok. apply forallb_pointwise. intros y. apply ws_is_space.
    + apply (lit_chars_reaches NOFLAGS (c :: x) _ post).
      apply adv_rest. exact Hw.
Qed.


(** *** Where a match lies in the text *)

(** A match consumes a piece of the text. *)
Lemma reach_consumes (f : flags) (r : re) :
  forall p q, reach f r p q -> exists w, rest p = w ++ rest q.
Proof.
  assert (Hone : forall ok p q, one_reach ok p q ->
                                exists w, rest p = w ++ rest q).
  { intros ok p q (c & t & E & _ & ->). exists [c]. exact E. }
  induction r as [ | c | | n items | a IHa b IHb | a IHa b IHb | a IHa
                 | a IHa | a IHa | | ]; intros p q; cbn [reach].
  - intros ->. exists []. reflexivity.
  - apply Hone.
  - apply Hone.
  - apply Hone.
  - intros (m & Hm & Hq). apply IHa in Hm. apply IHb in Hq.
    destruct Hm as [w1 E1]. destruct Hq as [w2 E2].
    exists (w1 ++ w2). rewrite E1, E2. apply app_assoc.
  - intros [H | H]; [apply IHa | apply IHb]; exact H.
  - intros H. induction H as [p | p m q Hpm _ _ IH].
    + exists []. reflexivity.
    + apply IHa in Hpm. destruct Hpm as [w1 E1]. destruct IH as [w2 E2].
      exists (w1 ++ w2). rewrite E1, E2. apply app_assoc.
  - intros (p' & Hp' & ->). apply IHa in Hp'. exact Hp'.
  - intros [-> _]. exists []. reflexivity.
  - intros [_ ->]. exists []. reflexivity.
  - intros [_ ->]. exists []. reflexivity.
Qed.

Lemma firstn_consumed (w t : str) :
  firstn (length (w ++ t) - length t) (w ++ t) = w.
Proof.
  rewrite length_app. replace (length w + length t - length t)
    with (length w + 0) by lia.
  rewrite firstn_app_2. simpl. apply app_nil_r.
Qed.

(** The text of a match at a position is what the pattern consumed
    there. *)
Lemma match_at_text (f : flags) (r : re) (prev : option ascii) (t : str)
  (m : match_obj) :
  match_at f r prev t = Some m ->
  exists q, reach f r (start prev t) q /\
            t = group0 m ++ rest q /\ group1 m = grp q.
Proof.
  intros H. apply match_at_sound in H. destruct H as (q & Hq & H0 & H1).
  exists q. split; [exact Hq|]. split; [|exact H1].
  destruct (reach_consumes f r _ _ Hq) as [w Hw]. simpl in Hw.
  rewrite H0, Hw. rewrite firstn_consumed. reflexivity.
Qed.

(** [re.search] answers with a match at some position of the text. *)
Lemma search_from_sound (f : flags) (r : re) (t : str) :
  forall prev m,
    search_from f r prev t = Some m ->
    exists pre prev' t',
      t = pre ++ t' /\ match_at f r prev' t' = Some m.
Proof.
  induction t as [|c t IH]; intros prev m; simpl.
  - destruct (match_at f r prev []) eqn:E; [|discriminate].
    intros H. inversion H; subst. exists [], prev, []. auto.
  - destruct (match_at f r prev (c :: t)) eqn:E.
    + intros H. inversion H; subst. exists [], prev, (c :: t). auto.
    + intros H. apply IH in H. destruct H as (pre & prev' & t' & -> & H).
      exists (c :: pre), prev', t'. auto.
Qed.

(** Every match of [re.finditer] is a match at some position of the
    text. *)
Lemma finditer_from_sound (f : flags) (r : re) (t : str) :
  forall prev skip m,
    In m (finditer_from f r prev t skip) ->
    exists pre prev' t',
      t = pre ++ t' /\ match_at f r prev' t' = Some m.
Proof.
  induction t as [|c t IH]; intros prev skip m.
  - destruct skip; simpl; [|intros []].
    destruct (match_at f r prev []) eqn:E; [|intros []].
    intros [<- | []]. exists [], prev, []. auto.
  - destruct skip as [|n]; simpl.
    + destruct (match_at f r prev (c :: t)) eqn:E.
      * intros [<- | H]; [exists [], prev, (c :: t); auto|].
        apply IH in H. destruct H as (pre & prev' & t' & -> & H).
        exists (c :: pre), prev', t'. auto.
      * intros H. apply IH in H. destruct H as (pre & prev' & t' & -> & H).
        exists (c :: pre), prev', t'. auto.
    + intros H. apply IH in H. destruct H as (pre & prev' & t' & -> & H).
      exists (c :: pre), prev', t'. auto.
Qed.

(** The text of a match of [re.finditer] is a piece of the text
    searched, and what the pattern consumed there. *)
Lemma finditer_text (f : flags) (r : re) (t : str) (m : match_obj) :
  In m (finditer f r t) ->
  exists pre post prev q,
    t = pre ++ group0 m ++ post /\
    reach f r (start prev (group0 m ++ post)) q /\ rest q = post.
Proof.
  intros H. apply finditer_from_sound in H.
  destruct H as (pre & prev & t' & -> & H).
  apply match_at_text in H. destruct H as (q & Hq & E & _).
  exists pre, (rest q), prev, q. rewrite <- E. auto.
Qed.

(** *** What the characters of a match are *)

(** The 256 characters. *)
Definition all_ascii : list ascii := map ascii_of_nat (seq 0 256).

Lemma in_all_ascii (c : ascii) : In c all_ascii.
Proof.
  unfold all_ascii. apply in_map_iff. exists (nat_of_ascii c). split.
  - apply ascii_nat_embedding.
  - apply in_seq. pose proof (nat_ascii_bounded c). lia.
Qed.

(** [ok] accepts only characters with the property [P]. *)
Definition accepts_only (P ok : ascii -> bool) : bool :=
  forallb (fun x => implb (ok x) (P x)) all_ascii.

Lemma accepts_only_sound (P ok : ascii -> bool) (c : ascii) :
  accepts_only P ok = true -> ok c = true -> P c = true.
Proof.
  unfold accepts_only. rewrite forallb_forall. intros H Hc.
  specialize (H c (in_all_ascii c)). rewrite Hc in H. exact H.
Qed.

(** A sufficient condition for every character of every match of a
    pattern to have the property [P]. *)
Fixpoint only (P : ascii -> bool) (f : flags) (r : re) : bool :=
  match r with
  | Lit c => accepts_only P (lit_eq f c)
  | Any => accepts_only P not_newline
  | Cls n items => accepts_only P (cls_has f n items)
  | Seq a b | Alt a b => only P f a && only P f b
  | Star a | Group a => only P f a
  | Eps | NotAhead _ | Bol | Eol => true
  end.

Lemma only_sound (P : ascii -> bool) (f : flags) (r : re) :
  only P f r = true ->
  forall p q, reach f r p q ->
              exists w, rest p = w ++ rest q /\ forallb P w = true.
Proof.
  assert (Hone : forall ok, accepts_only P ok = true ->
                 forall p q, one_reach ok p q ->
                 exists w, rest p = w ++ rest q /\ forallb P w = true).
  { intros ok Hok p q (c & t & E & Hc & ->). exists [c].
    split; [exact E|]. simpl.
    rewrite (accepts_only_sound P ok c Hok Hc). reflexivity. }
  induction r as [ | c | | n items | a IHa b IHb | a IHa b IHb | a IHa
                 | a IHa | a IHa | | ]; cbn [only reach]; intros Ho p q.
  - intros ->. exists []. auto.
  - apply Hone. exact Ho.
  - apply Hone. exact Ho.
  - apply Hone. exact Ho.
  - apply andb_true_iff in Ho. destruct Ho as [Ha Hb].
    intros (m & Hm & Hq). apply (IHa Ha) in Hm. apply (IHb Hb) in Hq.
    destruct Hm as (w1 & E1 & P1). destruct Hq as (w2 & E2 & P2).
    exists (w1 ++ w2). rewrite E1, E2, forallb_app, P1, P2.
    split; [apply app_assoc | reflexivity].
  - apply andb_true_iff in Ho. destruct Ho as [Ha Hb].
    intros [H | H]; [apply (IHa Ha) | apply (IHb Hb)]; exact H.
  - intros H. induction H as [p | p m q Hpm _ _ IH].
    + exists []. auto.
    + apply (IHa Ho) in Hpm. destruct Hpm as (w1 & E1 & P1).
      destruct IH as (w2 & E2 & P2).
      exists (w1 ++ w2). rewrite E1, E2, forallb_app, P1, P2.
      split; [apply app_assoc | reflexivity].
  - intros (p' & Hp' & ->). apply (IHa Ho) in Hp'. exact Hp'.
  - intros [-> _]. exists []. auto.
  - intros [_ ->]. exists []. auto.
  - intros [_ ->]. exists []. auto.
Qed.

(** A sufficient condition for every match of a pattern to start with a
    character with the property [P]. *)
Fixpoint first_ok (P : ascii -> bool) (f : flags) (r : re) : bool :=
  match r with
  | Lit c => accepts_only P (lit_eq f c)
  | Any => accepts_only P not_newline
  | Cls n items => accepts_only P (cls_has f n items)
  | Seq a _ => first_ok P f a
  | Alt a b => first_ok P f a && first_ok P f b
  | Group a => first_ok P f a
  | _ => false
  end.

Lemma first_ok_sound (P : ascii -> bool) (f : flags) (r : re) :
  first_ok P f r = true ->
  forall p q, reach f r p q ->
              exists c w, rest p = c :: w ++ rest q /\ P c = true.
Proof.
  assert (Hone : forall ok, accepts_only P ok = true ->
                 forall p q, one_reach ok p q ->
                 exists c w, rest p = c :: w ++ rest q /\ P c = true).
  { intros ok Hok p q (c & t & E & Hc & ->). exists c, [].
    split; [exact E|]. exact (accepts_only_sound P ok c Hok Hc). }
  induction r as [ | c | | n items | a IHa b IHb | a IHa b IHb | a IHa
                 | a IHa | a IHa | | ]; cbn [first_ok reach]; intros Ho p q;
    try discriminate Ho.
  - apply Hone. exact Ho.
  - apply Hone. exact Ho.
  - apply Hone. exact Ho.
  - intros (m & Hm & Hq). apply (IHa Ho) in Hm.
    destruct Hm as (c & w1 & E1 & Pc).
    destruct (reach_consumes f b _ _ Hq) as [w2 E2].
    exists c, (w1 ++ w2). rewrite E1, E2, <- app_assoc. auto.
  - apply andb_true_iff in Ho. destruct Ho as [Ha Hb].
    intros [H | H]; [apply (IHa Ha) | apply (IHb Hb)]; exact H.
  - intros (p' & Hp' & ->). apply (IHa Ho) in Hp'. exact Hp'.
Qed.

(** The same for the last character of every match. *)
Fixpoint last_ok (P : ascii -> bool) (f : flags) (r : re) : bool :=
  match r with
  | Lit c => accepts_only P (lit_eq f c)
  | Any => accepts_only P not_newline
  | Cls n items => accepts_only P (cls_has f n items)
  | Seq _ b => last_ok P f b
  | Alt a b => last_ok P f a && last_ok P f b
  | Group a => last_ok P f a
  | _ => false
  end.

Lemma last_ok_sound (P : ascii -> bool) (f : flags) (r : re) :
  last_ok P f r = true ->
  forall p q, reach f r p q ->
              exists w c, rest p = w ++ c :: rest q /\ P c = true.
Proof.
  assert (Hone : forall ok, accepts_only P ok = true ->
                 forall p q, one_reach ok p q ->
                 exists w c, rest p = w ++ c :: rest q /\ P c = true).
  { intros ok Hok p q (c & t & E & Hc & ->). exists [], c.
    split; [exact E|]. exact (accepts_only_sound P ok c Hok Hc). }
  induction r as [ | c | | n items | a IHa b IHb | a IHa b IHb | a IHa
                 | a IHa | a IHa | | ]; cbn [last_ok reach]; intros Ho p q;
    try discriminate Ho.
  - apply Hone. exact Ho.
  - apply Hone. exact Ho.
  - apply Hone. exact Ho.
  - intros (m & Hm & Hq). apply (IHb Ho) in Hq.
    destruct Hq as (w2 & c & E2 & Pc).
    destruct (reach_consumes f a _ _ Hm) as [w1 E1].
    exists (w1 ++ w2), c. rewrite E1, E2, <- app_assoc. auto.
  - apply andb_true_iff in Ho. destruct Ho as [Ha Hb].
    intros [H | H]; [apply (IHa Ha) | apply (IHb Hb)]; exact H.
  - intros (p' & Hp' & ->). apply (IHa Ho) in Hp'. exact Hp'.
Qed.


(** *** Matches that do not look at what follows *)

(** The position with more text after it. *)
Definition ext (p : pos) (w : str) : pos :=
  {| before := before p; rest := rest p ++ w; grp := grp p |}.

(** The patterns without [$] and without a look-ahead. *)
Fixpoint extendable (r : re) : bool :=
  match r with
  | Eps | Lit _ | Any | Cls _ _ | Bol => true
  | Seq a b | Alt a b => extendable a && extendable b
  | Star a | Group a => extendable a
  | NotAhead _ | Eol => false
  end.

(** Such a pattern matches the same way when text is added after the
    text. *)
Lemma reach_extend (f : flags) (r : re) (w : str) :
  extendable r = true ->
  forall p q, reach f r p q -> reach f r (ext p w) (ext q w).
Proof.
  assert (Hone : forall ok p q, one_reach ok p q ->
                                one_reach ok (ext p w) (ext q w)).
  { intros ok p q (c & t & E & Hc & ->). exists c, (t ++ w).
    simpl. rewrite E. auto. }
  induction r as [ | c | | n items | a IHa b IHb | a IHa b IHb | a IHa
                 | a IHa | a IHa | | ]; cbn [extendable reach]; intros He p q;
    try discriminate He.
  - intros ->. reflexivity.
  - apply Hone.
  - apply Hone.
  - apply Hone.
  - apply andb_true_iff in He. destruct He as [Ha Hb].
    intros (m & Hm & Hq). exists (ext m w). auto.
  - apply andb_true_iff in He. destruct He as [Ha Hb].
    intros [H | H]; [left | right]; auto.
  - intros H. induction H as [p | p m q Hpm Hlt _ IH].
    + constructor.
    + apply star_more with (m := ext m w); [auto | | exact IH].
      simpl. rewrite !length_app. lia.
  - intros (p' & Hp' & ->). exists (ext p' w). split; [auto|].
    unfold ext. cbn [before rest grp]. f_equal. f_equal.
    destruct (reach_consumes f a _ _ Hp') as [u Hu].
    rewrite Hu, <- app_assoc. rewrite !firstn_consumed. reflexivity.
  - intros [Hb ->]. split; [exact Hb | reflexivity].
Qed.

Lemma hit_match_extend (f : flags) (r : re) (t w : str) :
  extendable r = true ->
  hit (re_match f r t) = true -> hit (re_match f r (t ++ w)) = true.
Proof.
  intros He. rewrite !hit_match. intros [q Hq]. exists (ext q w).
  exact (reach_extend f r w He _ _ Hq).
Qed.


(** *** Characters a match cannot do without *)

(** A sufficient condition for every match of a pattern to hold a
    character with the property [P]. *)
Fixpoint needs (P : ascii -> bool) (f : flags) (r : re) : bool :=
  match r with
  | Lit c => accepts_only P (lit_eq f c)
  | Any => accepts_only P not_newline
  | Cls n items => accepts_only P (cls_has f n items)
  | Seq a b => needs P f a || needs P f b
  | Alt a b => needs P f a && needs P f b
  | Group a => needs P f a
  | _ => false
  end.

Lemma needs_sound (P : ascii -> bool) (f : flags) (r : re) :
  needs P f r = true ->
  forall p q, reach f r p q ->
              exists w1 c w2, rest p = w1 ++ c :: w2 ++ rest q /\ P c = true.
Proof.
  assert (Hone : forall ok, accepts_only P ok = true ->
                 forall p q, one_reach ok p q ->
                 exists w1 c w2,
                   rest p = w1 ++ c :: w2 ++ rest q /\ P c = true).
  { intros ok Hok p q (c & t & E & Hc & ->). exists [], c, [].
    split; [exact E|]. exact (accepts_only_sound P ok c Hok Hc). }
  induction r as [ | c | | n items | a IHa b IHb | a IHa b IHb | a IHa
                 | a IHa | a IHa | | ]; cbn [needs reach]; intros Hn p q;
    try discriminate Hn.
  - apply Hone. exact Hn.
  - apply Hone. exact Hn.
  - apply Hone. exact Hn.
  - intros (m & Hm & Hq). apply orb_true_iff in Hn.
    destruct Hn as [Hn | Hn].
    + destruct (IHa Hn _ _ Hm) as (w1 & c & w2 & E & Pc).
      destruct (reach_consumes f b _ _ Hq) as [w3 E3].
      exists w1, c, (w2 ++ w3). rewrite E, E3, <- app_assoc. auto.
    + destruct (IHb Hn _ _ Hq) as (w1 & c & w2 & E & Pc).
      destruct (reach_consumes f a _ _ Hm) as [w0 E0].
      exists (w0 ++ w1), c, w2. rewrite E0, E, <- app_assoc. auto.
  - apply andb_true_iff in Hn. destruct Hn as [Ha Hb].
    intros [H | H]; [apply (IHa Ha) | apply (IHb Hb)]; exact H.
  - intros (p' & Hp' & ->). apply (IHa Hn) in Hp'. exact Hp'.
Qed.

(** A pattern that needs a character with the property [P] is not found
    in a text without such a character. *)
Lemma search_needs (P : ascii -> bool) (f : flags) (r : re) (t : str) :
  needs P f r = true ->
  forallb (fun c => negb (P c)) t = true ->
  re_search f r t = None.
Proof.
  intros Hn Ht. destruct (re_search f r t) as [m|] eqn:E; [|reflexivity].
  exfalso. apply search_from_sound in E.
  destruct E as (pre & prev & t' & -> & E).
  apply match_at_text in E. destruct E as (q & Hq & _ & _).
  destruct (needs_sound P f r Hn _ _ Hq) as (w1 & c & w2 & Ec & Pc).
  cbn [rest start] in Ec. rewrite forallb_forall in Ht.
  specialize (Ht c). rewrite Pc in Ht. discriminate Ht.
  apply in_or_app. right. rewrite Ec. apply in_or_app. right.
  left. reflexivity.
Qed.

End RegexSemantics.

(** ** Safe contexts without regular expressions *)

Module ContextExtras.
Import Text Regex RegexNotations TextFacts RegexSemantics.
Local Open Scope re_scope.

Lemma lower_char_newline (c : ascii) : lower_char c = newline -> c = newline.
Proof.
  destruct c as [[] [] [] [] [] [] [] []]; vm_compute; intros H;
    try discriminate H; reflexivity.
Qed.

Lemma lower_no_newline (t : str) : ~ In newline t -> ~ In newline (lower t).
Proof.
  intros H Hin. apply H. unfold lower in Hin. apply in_map_iff in Hin.
  destruct Hin as (c & Hc & Hin). apply lower_char_newline in Hc.
  subst c. exact Hin.
Qed.

Lemma startswith_contains (x t : str) :
  startswith x t || contains x t = contains x t.
Proof.
  destruct t as [|c t]; cbn [contains];
    destruct (startswith x _); reflexivity.
Qed.

(** The markers of a comment, and the words of a safe line. *)
Definition COMMENT_MARKERS : list str :=
  map s [ "#"; "//"; "/*"; "*"; "<!--" ]%string.
Definition SAFE_WORDS : list str :=
  map s [ "test"; "example"; "sample"; "mock"; "placeholder" ]%string.

(** [t.lstrip()] *)
Definition lstrip (t : str) : str := lstrip_by is_space t.

(** X1. [is_safe_context] of the credential scanner, without regular
    expressions: a line (without a newline, as the lines of a file are)
    is in a safe context exactly when the lower-cased path contains one
    of the six test indicators, or the lower-cased line starts, after its
    leading white space, with a comment marker, or contains one of the
    words test, example, sample, mock and placeholder anywhere. *)
Theorem credential_safe_context_by_substring (line file_path : str) :
  ~ In newline line ->
  Credentials.is_safe_context line file_path
  = existsb (fun indicator => contains indicator (lower file_path))
            Credentials.TEST_INDICATORS
    || existsb (fun marker => startswith marker (lstrip (lower line)))
               COMMENT_MARKERS
    || existsb (fun word => contains word (lower line)) SAFE_WORDS.
Proof.
  intros Hnl. apply lower_no_newline in Hnl.
  unfold Credentials.is_safe_context.
  destruct (existsb _ Credentials.TEST_INDICATORS); [reflexivity|].
  cbn [orb]. set (l := lower line) in *.
  assert (Hc : forall c x,
             is_space c = false ->
             Credentials.is_some
               (re_match NOFLAGS (Bol +++ Star ws +++ lit_chars (c :: x)) l)
             = startswith (c :: x) (lstrip l))
    by (intros c x Hc; exact (match_after_spaces c x l Hc)).
  assert (Hp : forall x,
             Credentials.is_some
               (re_match NOFLAGS (lit_chars x +++ Star Any) l)
             = startswith x l)
    by (intros x; exact (match_prefix x l)).
  assert (Hi : forall x,
             Credentials.is_some
               (re_match NOFLAGS (Star Any +++ lit_chars x +++ Star Any) l)
             = contains x l)
    by (intros x; exact (match_infix x l Hnl)).
  unfold Credentials.SAFE_CONTEXT_PATTERNS, COMMENT_MARKERS, SAFE_WORDS, lit.
  cbn [existsb map s list_ascii_of_string].
  rewrite !Hc by reflexivity. rewrite !Hp, !Hi.
  rewrite !orb_false_r.
  repeat match goal with
         | |- context [startswith ?x l || (contains ?x l || ?b)] =>
             rewrite (orb_assoc (startswith x l) (contains x l) b),
               (startswith_contains x l)
         | |- context [startswith ?x l || contains ?x l] =>
             rewrite (startswith_contains x l)
         end.
  rewrite !orb_assoc. reflexivity.
Qed.


(** A line of a source file, outside the test tree, that holds the word
    test. *)
Lemma credential_safe_context_by_substring_witness :
  Credentials.is_safe_context (s "password = 'latest-build'") (s "src/app.py")
  = true.
Proof.
  rewrite (credential_safe_context_by_substring
             (s "password = 'latest-build'") (s "src/app.py")).
  - vm_compute. reflexivity.
  - vm_compute. intros H.
    repeat (destruct H as [H | H]; [discriminate H|]). exact H.
Defined.

(** The words that make a path a safe context for
    detect-verbose-flags.py wherever they stand in it. *)
Definition SAFE_PATH_WORDS : list str :=
  map s [ "test"; "spec"; "mock"; "example"; "sample"; "debug"; "dev";
          "local" ]%string.

Lemma startswith_development (t : str) :
  startswith (s "development") t = true -> contains (s "dev") t = true.
Proof.
  intros H. apply startswith_prefix in H. destruct H as [post ->].
  apply contains_infix. exists [], (s "elopment" ++ post). reflexivity.
Qed.

(** X2. [is_safe_context] of detect-verbose-flags.py, without regular
    expressions: a path (without a newline) is a safe context exactly
    when, in lower case, it contains one of the words test, spec, mock,
    example, sample, debug, dev and local anywhere, or starts with
    demo. *)
Theorem verbose_safe_context_by_substring (file_path : str) :
  ~ In newline file_path ->
  Verbose.is_safe_context file_path
  = existsb (fun word => contains word (lower file_path)) SAFE_PATH_WORDS
    || startswith (s "demo") (lower file_path).
Proof.
  intros Hnl. apply lower_no_newline in Hnl.
  unfold Verbose.is_safe_context. set (l := lower file_path) in *.
  assert (Hp : forall x,
             SeverityScan.is_some
               (re_match NOFLAGS (lit_chars x +++ Star Any) l)
             = startswith x l)
    by (intros x; exact (match_prefix x l)).
  assert (Hi : forall x,
             SeverityScan.is_some
               (re_match NOFLAGS (Star Any +++ lit_chars x +++ Star Any) l)
             = contains x l)
    by (intros x; exact (match_infix x l Hnl)).
  pose proof (startswith_development l) as Hdev.
  unfold Verbose.SAFE_CONTEXTS, SAFE_PATH_WORDS, lit.
  cbv beta zeta. cbn [existsb map]. rewrite !Hp, !Hi.
  rewrite !orb_false_r.
  repeat match goal with
         | |- context [startswith ?x l || (contains ?x l || ?b)] =>
             rewrite (orb_assoc (startswith x l) (contains x l) b),
               (startswith_contains x l)
         | |- context [startswith ?x l || contains ?x l] =>
             rewrite (startswith_contains x l)
         end.
  destruct (startswith (s "development") l);
    [rewrite (Hdev eq_refl) | clear Hdev];
    repeat match goal with
           | |- context [contains ?x l] => destruct (contains x l)
           | |- context [startswith ?x l] => destruct (startswith x l)
           end; reflexivity.
Qed.

(** A path that is a safe context for the letters dev in the middle of
    a word. *)
Lemma verbose_safe_context_by_substring_witness :
  Verbose.is_safe_context (s "src/device.py") = true.
Proof.
  rewrite (verbose_safe_context_by_substring (s "src/device.py")).
  - vm_compute. reflexivity.
  - vm_compute. intros H.
    repeat (destruct H as [H | H]; [discriminate H|]). exact H.
Defined.

End ContextExtras.

(** ** The findings of the credential scanner *)

Module CredentialExtras.
Import Text Regex RegexNotations Fs TextFacts RegexSemantics Credentials
  CredentialsFacts.
Local Open Scope re_scope.

(** A text that starts and ends with a character that is no white
    space. *)
Definition solid (x : str) : Prop :=
  (exists c x', x = c :: x' /\ is_space c = false) /\
  (exists x' d, x = x' ++ [d] /\ is_space d = false).

Definition infix (x t : str) : Prop := exists pre post, t = pre ++ x ++ post.

Lemma infix_trans (x y t : str) : infix x y -> infix y t -> infix x t.
Proof.
  intros (a & b & ->) (c & d & ->). exists (c ++ a), (b ++ d).
  rewrite <- !app_assoc. reflexivity.
Qed.

Lemma dropWhile_keeps_from (p : ascii -> bool) (a : str) (c : ascii)
  (r : str) :
  p c = false -> exists a', dropWhile p (a ++ c :: r) = a' ++ c :: r.
Proof.
  intros Hc. induction a as [|y a IH]; simpl.
  - rewrite Hc. exists []. reflexivity.
  - destruct (p y); [exact IH|]. exists (y :: a). reflexivity.
Qed.

(** [strip] keeps every piece of the text that starts and ends with a
    character that is no white space. *)
Lemma strip_keeps_solid (x t : str) : solid x -> infix x t -> infix x (strip t).
Proof.
  intros [(c & x1 & Hx1 & Hc) (x2 & d & Hx2 & Hd)] (a & b & ->).
  unfold strip, strip_by, rstrip_by, lstrip_by.
  assert (E1 : exists a', dropWhile is_space (a ++ x ++ b) = a' ++ x ++ b).
  { rewrite Hx1. simpl. apply dropWhile_keeps_from. exact Hc. }
  destruct E1 as [a' E1]. rewrite E1.
  assert (E2 : exists b', dropWhile is_space (rev (a' ++ x ++ b))
                          = b' ++ rev x ++ rev a').
  { rewrite !rev_app_distr, <- app_assoc.
    replace (rev x) with (d :: rev x2)
      by (rewrite Hx2, rev_app_distr; reflexivity).
    apply dropWhile_keeps_from. exact Hd. }
  destruct E2 as [b' E2]. rewrite E2.
  exists a', (rev b'). rewrite !rev_app_distr, !rev_involutive.
  rewrite <- app_assoc. reflexivity.
Qed.

Definition non_space (c : ascii) : bool := negb (is_space c).
Definition is_quote (c : ascii) : bool :=
  ascii_eqb c dquote || ascii_eqb c squote.
Definition bare (c : ascii) : bool := negb (is_space c) && negb (is_quote c).

Lemma non_space_false (c : ascii) : non_space c = true -> is_space c = false.
Proof. unfold non_space. destruct (is_space c); [discriminate|reflexivity]. Qed.

(** A piece consumed between two positions, with what a pattern of one
    character or more tells of it. *)
Lemma plus_consumes (P : ascii -> bool) (r : re) (p q : pos) :
  only P NOFLAGS r = true -> first_ok P NOFLAGS r = true ->
  reach NOFLAGS r p q ->
  exists c w, rest p = (c :: w) ++ rest q /\ forallb P (c :: w) = true.
Proof.
  intros Ho Hf H.
  destruct (only_sound P NOFLAGS r Ho p q H) as (w & Hw & Pw).
  destruct (first_ok_sound P NOFLAGS r Hf p q H) as (c & w' & Hc & _).
  rewrite Hw in Hc. change (c :: w' ++ rest q) with ((c :: w') ++ rest q) in Hc.
  apply app_inv_tail in Hc. subst w. exists c, w'. auto.
Qed.

(** [extract_credential_value] returns a piece of the match text that
    lies in a piece of it that starts and ends with a character that is
    no white space, when the match text does. *)
Lemma extract_within (match_text : str) :
  solid match_text ->
  exists x, solid x /\ infix x match_text /\
            infix (extract_credential_value match_text) x.
Proof.
  intros Hsolid. unfold extract_credential_value.
  destruct (re_search NOFLAGS (quote +++ Group (Plus nonquote) +++ quote)
              match_text) as [m|] eqn:E1.
  { apply search_from_sound in E1.
    destruct E1 as (pre & prev & t' & Ht & E1).
    apply match_at_text in E1. destruct E1 as (q & Hq & Et & Hg).
    cbn [reach] in Hq. destruct Hq as (m1 & H1 & m2 & (p' & Hp & ->) & H2).
    destruct H1 as (q1 & t1 & Eq1 & Hq1 & ->).
    destruct H2 as (q2 & t2 & Eq2 & Hq2 & ->).
    cbn [rest start step] in *.
    destruct (plus_consumes (fun c => negb (is_quote c)) (Plus nonquote)
                _ _ eq_refl eq_refl Hp) as (c & w & Hw & _).
    cbn [rest step] in Hw.
    assert (Hv : group_1 m = c :: w).
    { unfold group_1. rewrite Hg. cbn [grp step]. rewrite Hw.
      rewrite firstn_consumed. reflexivity. }
    rewrite Hv. exists (q1 :: (c :: w) ++ [q2]). split; [|split].
    - split.
      + exists q1, ((c :: w) ++ [q2]). split; [reflexivity|].
        revert Hq1. clear.
        destruct q1 as [[] [] [] [] [] [] [] []]; vm_compute; congruence.
      + exists (q1 :: c :: w), q2. split; [reflexivity|].
        revert Hq2. clear.
        destruct q2 as [[] [] [] [] [] [] [] []]; vm_compute; congruence.
    - exists pre, t2. rewrite Ht, Eq1, Hw, Eq2. simpl.
      rewrite <- !app_assoc. reflexivity.
    - exists [q1], [q2]. reflexivity. }
  destruct (re_search NOFLAGS
              (assign +++ Star ws +++
               Group (Plus (Cls true [ISpace; IChar squote; IChar dquote])))
              match_text) as [m|] eqn:E2.
  { apply search_from_sound in E2.
    destruct E2 as (pre & prev & t' & Ht & E2).
    apply match_at_text in E2. destruct E2 as (q & Hq & Et & Hg).
    cbn [reach] in Hq. destruct Hq as (m1 & H1 & m2 & H2 & p' & Hp & ->).
    destruct (reach_consumes NOFLAGS assign _ _ H1) as [w1 Hw1].
    destruct (reach_consumes NOFLAGS (Star ws) _ _ H2) as [w2 Hw2].
    destruct (plus_consumes bare
                (Plus (Cls true [ISpace; IChar squote; IChar dquote]))
                _ _ eq_refl eq_refl Hp) as (c & w & Hw & Pw).
    assert (Hv : group_1 m = c :: w).
    { unfold group_1. rewrite Hg. cbn [grp]. rewrite Hw.
      rewrite firstn_consumed. reflexivity. }
    rewrite Hv. exists (c :: w). split; [|split].
    - split.
      + exists c, w. split; [reflexivity|].
        simpl in Pw. apply andb_true_iff in Pw. destruct Pw as [Pc _].
        unfold bare in Pc. destruct (is_space c); [discriminate|reflexivity].
      + destruct (exists_last (l := c :: w) ltac:(discriminate))
          as (x' & d & Hx).
        exists x', d. split; [exact Hx|].
        rewrite Hx, forallb_app in Pw. apply andb_true_iff in Pw.
        destruct Pw as [_ Pd]. simpl in Pd. unfold bare in Pd.
        destruct (is_space d); [discriminate|reflexivity].
    - exists (pre ++ w1 ++ w2), (rest p').
      cbn [rest start] in Hw1. rewrite Ht, Hw1, Hw2, Hw.
      rewrite <- !app_assoc. reflexivity.
    - exists [], []. rewrite app_nil_r. reflexivity. }
  exists match_text. split; [exact Hsolid|].
  split; exists [], []; rewrite app_nil_r; reflexivity.
Qed.

(** Every credential pattern starts and ends with a character that is
    no white space. *)
Lemma patterns_are_solid :
  forallb (fun entry : str * list re =>
             forallb (fun r => first_ok non_space IGNORECASE r
                               && last_ok non_space IGNORECASE r)
                     (snd entry))
          CREDENTIAL_PATTERNS = true.
Proof. vm_compute. reflexivity. Qed.

Lemma match_is_solid (cred : str) (patterns : list re) (pattern : re)
  (line : str) (m : match_obj) :
  In (cred, patterns) CREDENTIAL_PATTERNS ->
  In pattern patterns ->
  In m (finditer IGNORECASE pattern line) ->
  solid (group0 m) /\ infix (group0 m) line.
Proof.
  intros Hc Hp Hm. pose proof patterns_are_solid as H.
  rewrite forallb_forall in H. specialize (H _ Hc). simpl in H.
  rewrite forallb_forall in H. specialize (H _ Hp).
  apply andb_true_iff in H. destruct H as [Hf Hl].
  apply finditer_text in Hm.
  destruct Hm as (pre & post & prev & q & Ht & Hq & Er).
  split; [|exists pre, post; exact Ht].
  split.
  - destruct (first_ok_sound _ _ _ Hf _ _ Hq) as (c & w & E & Pc).
    cbn [rest start] in E. rewrite Er in E.
    change (c :: w ++ post) with ((c :: w) ++ post) in E.
    apply app_inv_tail in E. exists c, w. split; [exact E|].
    apply non_space_false. exact Pc.
  - destruct (last_ok_sound _ _ _ Hl _ _ Hq) as (w & d & E & Pd).
    cbn [rest start] in E. rewrite Er in E.
    change (w ++ d :: post) with (w ++ [d] ++ post) in E.
    rewrite app_assoc in E. apply app_inv_tail in E.
    exists w, d. split; [exact E|]. apply non_space_false. exact Pd.
Qed.


(** What a finding of the credential scanner is made of. *)
Definition credential_shape (disk : fs) (file_path : str) (i : issue)
  : Prop :=
  exists content line,
    disk file_path = Content content /\
    1 <= line_num i /\
    nth_error (split newline content) (line_num i - 1) = Some line /\
    line_content i = strip line /\
    line_content i <> [] /\
    In (cred_type i) (map fst CREDENTIAL_PATTERNS) /\
    is_safe_value (value i) = false /\
    infix (value i) (line_content i).

(** The value of a match is a piece of the stripped line. *)
Lemma value_within_line (cred : str) (patterns : list re) (pattern : re)
  (line : str) (m : match_obj) :
  In (cred, patterns) CREDENTIAL_PATTERNS ->
  In pattern patterns ->
  In m (finditer IGNORECASE pattern line) ->
  infix (extract_credential_value (group0 m)) (strip line).
Proof.
  intros Hc Hp Hm.
  destruct (match_is_solid cred patterns pattern line m Hc Hp Hm)
    as [Hsolid Hin].
  destruct (extract_within (group0 m) Hsolid) as (x & Hx & Hxm & Hvx).
  apply (infix_trans _ x); [exact Hvx|].
  apply strip_keeps_solid; [exact Hx|].
  apply (infix_trans _ (group0 m)); assumption.
Qed.

(** X3. The anatomy of a finding of the credential scanner.  The file
    could be read; the line number is that of a line of its text (the
    fields of [split]); the line content is that line stripped, and is not
    empty; the type is a key of the pattern table; the value is not a
    safe value; and the value is a piece of the line content. *)
Theorem credential_finding_anatomy (disk : fs) (file_path : str) (i : issue) :
  In i (fst (find_hardcoded_credentials disk file_path)) ->
  credential_shape disk file_path i.
Proof.
  intros Hi. apply find_issues in Hi. destruct Hi as (content & Hd & _ & Hi).
  apply in_scan_content in Hi.
  destruct Hi as (n & line & cred & patterns & pattern & m
                  & Hnl & Hs & Hc & Hp & Hm & Hi).
  apply cred_in_check_match in Hi. destruct Hi as (-> & Hsafe & _).
  apply in_enumerate in Hnl. destruct Hnl as [Hn Hnth].
  exists content, line. cbn [line_num line_content cred_type value fst snd].
  repeat split; try assumption.
  - apply in_map_iff. exists (cred, patterns). auto.
  - exact (value_within_line cred patterns pattern line m Hc Hp Hm).
Qed.

(** A file of two lines with a password on the second. *)
Definition secret_disk : fs :=
  fun _ => Content (s "x = 1" ++ newline
                    :: s "db_password = 'abcd1234'" ++ [newline]).
Definition secret_issue : issue :=
  (2, s "db_password = 'abcd1234'", s "password", s "abcd1234").

Lemma secret_issue_found :
  In secret_issue
     (fst (find_hardcoded_credentials secret_disk (s "conf.py"))).
Proof. vm_compute. left. reflexivity. Qed.

Lemma credential_finding_anatomy_witness :
  credential_shape secret_disk (s "conf.py") secret_issue.
Proof.
  exact (credential_finding_anatomy secret_disk (s "conf.py") secret_issue
           secret_issue_found).
Defined.

Lemma printed_issue (disk : fs) (a : args) (file_path : str) (i : issue)
  (e : event) :
  In file_path (files a) ->
  In i (fst (find_hardcoded_credentials disk file_path)) ->
  In e (print_issue a i) ->
  In e (snd (main disk a)).
Proof.
  intros Hf Hi He. unfold main, main_loop. cbn [snd].
  destruct (CredentialsMain.cred_fold_main_step disk a (files a)
              {| exit_code := 0; total_issues := 0; trace := [] |})
    as (_ & Ht & _).
  cbn [trace app] in Ht. rewrite Ht. apply in_or_app. left.
  apply in_flat_map. exists file_path. split; [exact Hf|].
  unfold CredentialsMain.report.
  rewrite <- CredentialsMain.cred_find_per_file.
  destruct (find_hardcoded_credentials disk file_path) as [issues err].
  cbn [fst] in Hi. apply in_or_app. right.
  destruct issues as [|i0 issues]; [destruct Hi|].
  right. apply in_flat_map. exists i. split; [exact Hi|].
  destruct a as [fs show]. exact He.
Qed.

(** X4. Masking does not hide the value.  Without [--show-values] the
    report of a finding prints asterisks in place of the value, at most
    20 of them, and right after it the line content, of which the value
    is a piece. *)
Theorem masked_value_is_printed_in_context (disk : fs) (paths : list str)
  (file_path : str) (i : issue) :
  In file_path paths ->
  In i (fst (find_hardcoded_credentials disk file_path)) ->
  let out := snd (main disk {| files := paths; show_values := false |}) in
  In (Stdout (IssueValue
                (repeat "*"%char (Nat.min (length (value i)) 20)))) out /\
  In (Stdout (IssueContext (line_content i))) out /\
  infix (value i) (line_content i).
Proof.
  intros Hf Hi out. split; [|split].
  - apply (printed_issue disk _ file_path i); [exact Hf | exact Hi |].
    right. left. reflexivity.
  - apply (printed_issue disk _ file_path i); [exact Hf | exact Hi |].
    right. right. left. reflexivity.
  - apply find_issues in Hi. destruct Hi as (content & _ & _ & Hi).
    apply in_scan_content in Hi.
    destruct Hi as (n & line & cred & patterns & pattern & m
                    & _ & _ & Hc & Hp & Hm & Hi).
    apply cred_in_check_match in Hi. destruct Hi as (-> & _ & _).
    exact (value_within_line cred patterns pattern line m Hc Hp Hm).
Qed.


Lemma masked_value_is_printed_in_context_witness :
  let out := snd (main secret_disk {| files := [s "conf.py"];
                                      show_values := false |}) in
  In (Stdout (IssueValue (s "********"))) out /\
  In (Stdout (IssueContext (s "db_password = 'abcd1234'"))) out /\
  infix (s "abcd1234") (s "db_password = 'abcd1234'").
Proof.
  exact (masked_value_is_printed_in_context secret_disk [s "conf.py"]
           (s "conf.py") secret_issue (or_introl eq_refl)
           secret_issue_found).
Defined.

End CredentialExtras.

(** ** The URL scanner *)

Module UrlExtras.
Import Text Regex RegexNotations Fs TextFacts RegexSemantics Urls.
Import CredentialExtras ContextExtras.
Local Open Scope re_scope.

Lemma safe_patterns_extendable :
  forallb extendable SAFE_URL_PATTERNS = true.
Proof. vm_compute. reflexivity. Qed.

(** X5. [is_safe_url] tests how a URL starts, and nothing else: a URL
    that is safe stays safe whatever is written after it. *)
Theorem safe_url_whatever_follows (url more : str) :
  is_safe_url url = true -> is_safe_url (url ++ more) = true.
Proof.
  unfold is_safe_url. rewrite !existsb_exists.
  intros (pattern & Hin & H). exists pattern. split; [exact Hin|].
  pose proof safe_patterns_extendable as He.
  rewrite forallb_forall in He.
  exact (hit_match_extend IGNORECASE pattern url more (He _ Hin) H).
Qed.

(** A host name that starts with localhost. *)
Lemma safe_url_whatever_follows_witness :
  is_safe_url (s "http://localhost" ++ s ".attacker.io/login") = true.
Proof.
  apply (safe_url_whatever_follows (s "http://localhost")
           (s ".attacker.io/login")).
  vm_compute. reflexivity.
Defined.

(** The characters a URL pattern can match: no white space, no quote,
    no closing angle or square bracket. *)
Definition url_ok (c : ascii) : bool :=
  negb (is_space c || ascii_eqb c squote || ascii_eqb c dquote
        || ascii_eqb c ">" || ascii_eqb c "]").

Lemma url_patterns_shape :
  forallb (fun r => only url_ok IGNORECASE r
                    && first_ok url_ok IGNORECASE r) URL_PATTERNS = true.
Proof. vm_compute. reflexivity. Qed.

Lemma url_ok_non_space (c : ascii) : url_ok c = true -> is_space c = false.
Proof.
  unfold url_ok. destruct (is_space c); [discriminate|reflexivity].
Qed.

Lemma url_match_shape (pattern : re) (line : str) (m : match_obj) :
  In pattern URL_PATTERNS ->
  In m (finditer IGNORECASE pattern line) ->
  group0 m <> [] /\ forallb url_ok (group0 m) = true /\
  infix (group0 m) line.
Proof.
  intros Hp Hm. pose proof url_patterns_shape as H.
  rewrite forallb_forall in H. specialize (H _ Hp).
  apply andb_true_iff in H. destruct H as [Ho Hf].
  apply finditer_text in Hm.
  destruct Hm as (pre & post & prev & q & Ht & Hq & Er).
  destruct (only_sound _ _ _ Ho _ _ Hq) as (w & Ew & Pw).
  destruct (first_ok_sound _ _ _ Hf _ _ Hq) as (c & w' & Ec & _).
  cbn [rest start] in Ew, Ec. rewrite Er in Ew, Ec.
  apply app_inv_tail in Ew. subst w.
  change (c :: w' ++ post) with ((c :: w') ++ post) in Ec.
  apply app_inv_tail in Ec.
  split; [rewrite Ec; discriminate|]. split; [exact Pw|].
  exists pre, post. exact Ht.
Qed.

Lemma forallb_solid (P : ascii -> bool) (x : str) :
  (forall c, P c = true -> is_space c = false) ->
  x <> [] -> forallb P x = true -> solid x.
Proof.
  intros HP Hne Hx. rewrite forallb_forall in Hx. split.
  - destruct x as [|c x']; [contradiction|]. exists c, x'.
    split; [reflexivity|]. apply HP, Hx. left. reflexivity.
  - destruct (exists_last Hne) as (x' & d & ->). exists x', d.
    split; [reflexivity|]. apply HP, Hx. apply in_or_app. right.
    left. reflexivity.
Qed.

(** What a finding of a text is made of. *)
Definition url_shape_in (content : str) (i : issue) : Prop :=
  exists line,
    1 <= line_num i /\
    nth_error (readlines content) (line_num i - 1) = Some line /\
    line_content i = strip line /\
    url_of i <> [] /\
    forallb url_ok (url_of i) = true /\
    infix (url_of i) (line_content i) /\
    is_safe_url (url_of i) = false /\
    (is_in_comment line = true ->
     existsb (fun keyword => contains keyword (lower (url_of i)))
             SUSPICIOUS_KEYWORDS = true).

Lemma scanned_url_shape (content : str) (i : issue) :
  In i (scan_content content) -> url_shape_in content i.
Proof.
  unfold url_shape_in, scan_content. intros Hi.
  apply in_flat_map in Hi. destruct Hi as ([n line] & Hnl & Hi).
  cbn [fst snd] in Hi. unfold scan_line in Hi.
  destruct (strip line) eqn:Es; [destruct Hi|]. clear Es.
  apply in_flat_map in Hi. destruct Hi as (pattern & Hp & Hi).
  apply in_flat_map in Hi. destruct Hi as (m & Hm & Hi).
  apply in_enumerate in Hnl. destruct Hnl as [Hn Hnth].
  destruct (url_match_shape pattern line m Hp Hm) as (Hne & Hok & Hin).
  assert (Hfacts :
            is_safe_url (group0 m) = false /\
            i = (n, strip line, group0 m) /\
            (is_in_comment line = true ->
             existsb (fun keyword => contains keyword (lower (group0 m)))
                     SUSPICIOUS_KEYWORDS = true)).
  { unfold check_match in Hi.
    destruct (is_safe_url (group0 m)); [destruct Hi|].
    destruct (is_in_comment line).
    - destruct (existsb _ SUSPICIOUS_KEYWORDS); [|destruct Hi].
      destruct Hi as [<- | []]. auto.
    - destruct Hi as [<- | []]. repeat split. discriminate. }
  destruct Hfacts as (Hsafe & -> & Hcomment).
  exists line. cbn [line_num line_content url_of fst snd].
  repeat split; try assumption.
  apply strip_keeps_solid; [|exact Hin].
  apply (forallb_solid url_ok); [exact url_ok_non_space | exact Hne
                                | exact Hok].
Qed.

(** What a finding of the URL scanner is made of; [content] is the text
    that was read, all of the file or the part before a failure. *)
Definition url_shape (disk : fs) (file_path : str) (i : issue) : Prop :=
  exists content,
    (disk file_path = Content content \/
     exists e, disk file_path = ReadError content e) /\
    existsb (fun ext => endswith ext file_path) SKIP_EXTENSIONS = false /\
    url_shape_in content i.

(** X6. The anatomy of a finding of the URL scanner.  The name of the
    file does not end in a skipped extension; the file could be opened,
    and its text was read, or a part of it before reading failed; the
    line number is that of a line of the text read; the line content is
    that line stripped; the URL is not empty, holds no white space,
    quote, closing angle or closing square bracket, and is a piece of the
    line content; it is not a safe URL; and on a comment line it contains
    one of the suspicious keywords. *)
Theorem url_finding_anatomy (disk : fs) (file_path : str) (i : issue) :
  In i (fst (find_hardcoded_urls disk file_path)) ->
  url_shape disk file_path i.
Proof.
  unfold url_shape, find_hardcoded_urls.
  destruct (existsb _ SKIP_EXTENSIONS); [intros []|].
  destruct (disk file_path) as [content|e|content e]; [|intros []|];
    cbn [fst]; intros Hi; exists content;
    (split; [|split; [reflexivity | exact (scanned_url_shape content i Hi)]]).
  - left. reflexivity.
  - right. exists e. reflexivity.
Qed.

Definition link_disk : fs :=
  fun _ => Content (s "# see http://prod.corp.io/x" ++ [newline]).
Definition link_issue : issue :=
  (1, s "# see http://prod.corp.io/x", s "http://prod.corp.io/x").

Lemma link_issue_found :
  In link_issue (fst (find_hardcoded_urls link_disk (s "a.py"))).
Proof. vm_compute. left. reflexivity. Qed.

Lemma url_finding_anatomy_witness :
  url_shape link_disk (s "a.py") link_issue.
Proof.
  exact (url_finding_anatomy link_disk (s "a.py") link_issue
           link_issue_found).
Defined.

(** X7. [is_in_comment] without regular expressions: a line counts as
    a comment exactly when, after its leading white space, it starts with
    a hash sign, two slashes, a slash and a star, a star, or the opening
    of an HTML comment. *)
Theorem comment_line_by_prefix (line : str) :
  is_in_comment line
  = existsb (fun marker => startswith marker (lstrip line)) COMMENT_MARKERS.
Proof.
  unfold is_in_comment.
  assert (Hc : forall c x,
             is_space c = false ->
             is_some
               (re_match NOFLAGS (Bol +++ Star ws +++ lit_chars (c :: x))
                  line)
             = startswith (c :: x) (lstrip line))
    by (intros c x Hc; exact (match_after_spaces c x line Hc)).
  unfold COMMENT_PATTERNS, COMMENT_MARKERS, lit.
  cbn [existsb map s list_ascii_of_string].
  rewrite !Hc by reflexivity. reflexivity.
Qed.

Lemma printed_url (disk : fs) (a : args) (file_path : str) (i : issue) :
  In file_path (files a) ->
  In i (fst (find_hardcoded_urls disk file_path)) ->
  In (Stdout (IssueLine (line_num i) (url_of i))) (snd (main disk a)) /\
  fst (main disk a) = 1.
Proof.
  intros Hf Hi. split.
  - unfold main, main_loop. cbn [snd].
    destruct (UrlsMain.url_fold_main_step disk (files a)
                {| exit_code := 0; total_issues := 0; trace := [] |})
      as (_ & Ht & _).
    cbn [trace app] in Ht. rewrite Ht. apply in_or_app. left.
    apply in_flat_map. exists file_path. split; [exact Hf|].
    unfold UrlsMain.report. rewrite <- UrlsMain.url_find_per_file.
    destruct (find_hardcoded_urls disk file_path) as [issues err].
    cbn [fst] in Hi. apply in_or_app. right.
    destruct issues as [|i0 issues]; [destruct Hi|].
    right. apply in_flat_map. exists i. split; [exact Hi|].
    left. reflexivity.
  - rewrite UrlsMain.url_exit_code_issues.
    replace (existsb (UrlsMain.has_issues disk) (files a)) with true;
      [reflexivity|].
    symmetry. apply existsb_exists. exists file_path. split; [exact Hf|].
    unfold UrlsMain.has_issues.
    destruct (fst (find_hardcoded_urls disk file_path));
      [destruct Hi | reflexivity].
Qed.

(** X8. The option [--exclude-comments] excludes nothing.  Under it
    every finding of every file given is printed and makes the run exit
    with 1, the findings on comment lines included; and the exit code
    and the output of a run are the same with and without it. *)
Theorem exclude_comments_is_ignored (disk : fs) (paths : list str)
  (file_path : str) (i : issue) :
  In file_path paths ->
  In i (fst (find_hardcoded_urls disk file_path)) ->
  let under := main disk {| files := paths; exclude_comments := true |} in
  In (Stdout (IssueLine (line_num i) (url_of i))) (snd under) /\
  fst under = 1 /\
  under = main disk {| files := paths; exclude_comments := false |}.
Proof.
  intros Hf Hi under.
  destruct (printed_url disk {| files := paths; exclude_comments := true |}
              file_path i Hf Hi) as [Hout Hexit].
  split; [exact Hout|]. split; [exact Hexit | reflexivity].
Qed.

(** The URL of a comment line is printed under the option. *)
Lemma exclude_comments_is_ignored_witness :
  let under := main link_disk {| files := [s "a.py"];
                                 exclude_comments := true |} in
  In (Stdout (IssueLine 1 (s "http://prod.corp.io/x"))) (snd under) /\
  fst under = 1 /\
  under = main link_disk {| files := [s "a.py"];
                            exclude_comments := false |}.
Proof.
  exact (exclude_comments_is_ignored link_disk [s "a.py"] (s "a.py")
           link_issue (or_introl eq_refl) link_issue_found).
Defined.

End UrlExtras.

(** ** The license checker *)

Module LicenseExtras.
Import Text Regex Exn Fs TextFacts ListFacts License.

(** The files [main] checks, and among them those with and without a
    license header. *)
Definition has_header (disk : fs) (file_path : str) : bool :=
  fst (has_license_header disk file_path).

Definition checked (paths : list str) : list str :=
  filter should_check_file paths.

Definition with_header (disk : fs) (paths : list str) : list str :=
  filter (has_header disk) (checked paths).

Definition without_header (disk : fs) (paths : list str) : list str :=
  filter (fun p => negb (has_header disk p)) (checked paths).

Lemma step_counts (disk : fs) (a : args) (st : state) (p : str) :
  let st' := main_step disk a st p in
  checked_files st' = checked_files st + length (checked [p]) /\
  files_with_license st'
  = files_with_license st + length (with_header disk [p]) /\
  files_without_license st'
  = files_without_license st ++ without_header disk [p].
Proof.
  unfold main_step, with_header, without_header, checked, has_header.
  cbn [filter].
  destruct (should_check_file p); cbn [negb filter length].
  2: { rewrite app_nil_r. repeat split; lia. }
  destruct (has_license_header disk p) as [has found]. cbn [fst].
  destruct has; cbn [negb length].
  - destruct (license_type a) as [wanted|].
    + destruct (negb (mem_str wanted found));
        cbn [checked_files files_with_license files_without_license];
        rewrite app_nil_r; repeat split; lia.
    + cbn [checked_files files_with_license files_without_license].
      rewrite app_nil_r. repeat split; lia.
  - cbn [checked_files files_with_license files_without_license].
    repeat split; lia.
Qed.

Lemma loop_counts (disk : fs) (a : args) (l : list str) :
  forall st,
    let st' := fold_left (main_step disk a) l st in
    checked_files st' = checked_files st + length (checked l) /\
    files_with_license st'
    = files_with_license st + length (with_header disk l) /\
    files_without_license st'
    = files_without_license st ++ without_header disk l.
Proof.
  induction l as [|p l IH]; intros st; cbn [fold_left].
  - unfold checked, with_header, without_header. simpl.
    rewrite app_nil_r. repeat split; lia.
  - destruct (IH (main_step disk a st p)) as (Hc & Hw & Hm).
    destruct (step_counts disk a st p) as (Hc1 & Hw1 & Hm1).
    cbv zeta. rewrite Hc, Hw, Hm, Hc1, Hw1, Hm1.
    unfold with_header, without_header, checked.
    rewrite (filter_cons_app should_check_file p l).
    rewrite !filter_app, !length_app. rewrite <- app_assoc.
    repeat split; lia.
Qed.

Lemma loop_trace (disk : fs) (a : args) :
  trace (main_loop disk a)
  = flat_map (fun p => LicenseMain.report (require_license a)
                         (license_type a) p (disk p)) (files a).
Proof.
  unfold main_loop.
  destruct (LicenseMain.license_fold_main_step disk a (files a)
              {| exit_code := 0; checked_files := 0; files_with_license := 0;
                 files_without_license := []; trace := [] |}) as (_ & Ht).
  exact Ht.
Qed.

Lemma main_counts (disk : fs) (a : args) :
  let st := main_loop disk a in
  checked_files st = length (checked (files a)) /\
  files_with_license st = length (with_header disk (files a)) /\
  files_without_license st = without_header disk (files a).
Proof.
  unfold main_loop.
  destruct (loop_counts disk a (files a)
              {| exit_code := 0; checked_files := 0; files_with_license := 0;
                 files_without_license := []; trace := [] |})
    as (Hc & Hw & Hm).
  cbn [checked_files files_with_license files_without_license app plus]
    in Hc, Hw, Hm.
  auto.
Qed.

(** X9. The counts of the summary of the license checker.  The number
    of files checked is the number of arguments that [should_check_file]
    accepts, an argument given twice counting twice; the files without a
    license are those of them whose head shows no license, in the order
    of the arguments; the files with a license are the others, whether
    or not their license is the one [--license-type] asks for; the two
    counts add up to the number of files checked; and these are the
    numbers of the summary that is printed when a file was checked. *)
Theorem license_summary_counts (disk : fs) (a : args) :
  let st := main_loop disk a in
  checked_files st = length (checked (files a)) /\
  files_with_license st = length (with_header disk (files a)) /\
  files_without_license st = without_header disk (files a) /\
  length (checked (files a))
  = length (with_header disk (files a))
    + length (without_header disk (files a)) /\
  (checked (files a) <> [] ->
   In (Summary (length (checked (files a)))
               (length (with_header disk (files a)))
               (length (without_header disk (files a))))
      (snd (main disk a))).
Proof.
  destruct (main_counts disk a) as (Hc & Hw & Hm). cbv zeta.
  repeat split; try assumption.
  - unfold with_header, without_header. apply filter_split_length.
  - intros Hne. unfold main. cbn [snd]. apply in_or_app. right.
    unfold summary. rewrite Hc, Hw, Hm.
    destruct (checked (files a)) as [|p l]; [contradiction|].
    cbn [length Nat.ltb Nat.leb]. left. reflexivity.
Qed.

(** Three arguments: a source file with a notice, a source file
    without, and a text file that is not checked. *)
Definition three_disk : fs :=
  fun p => if str_eqb p (s "a.py") then Content (s "# MIT License")
           else Content (s "print(1)").
Definition three_args : args :=
  {| files := [s "a.py"; s "b.py"; s "notes.txt"];
     require_license := false; license_type := None |}.

Lemma license_summary_counts_witness :
  In (Summary 2 1 1) (snd (main three_disk three_args)).
Proof.
  apply (proj2 (proj2 (proj2 (proj2
           (license_summary_counts three_disk three_args))))).
  vm_compute. discriminate.
Defined.

Lemma found_in_nothing : found_in [] = [].
Proof. vm_compute. reflexivity. Qed.

(** A file whose head is lost: [open] fails on it, or reading it fails
    before the loop of [read_file_head] has got the line after the 20
    it keeps. *)
Definition head_unreadable (f : file) : Prop :=
  (exists e, f = OpenError e) \/
  (exists read e, f = ReadError read e /\ length (readlines read) <= 20).

Lemma head_lost (disk : fs) (file_path : str) :
  head_unreadable (disk file_path) -> read_file_head disk file_path 20 = [].
Proof.
  unfold read_file_head. intros [[e ->] | (read & e & -> & Hlen)].
  - reflexivity.
  - replace (20 <? length (readlines read)) with false; [reflexivity|].
    symmetry. apply Nat.ltb_ge. exact Hlen.
Qed.

(** X10. A source file that cannot be read is a file without a license
    header.  When [open] fails, or reading fails within the first 21
    lines, [read_file_head] swallows the exception, the head is empty,
    and the file is reported and counted as missing its header; under
    [--require-license] the run then exits with 1. *)
Theorem unreadable_source_is_unlicensed (disk : fs) (a : args)
  (file_path : str) :
  head_unreadable (disk file_path) ->
  should_check_file file_path = true ->
  In file_path (files a) ->
  has_license_header disk file_path = (false, []) /\
  In (if require_license a then MissingHeader file_path
      else NoHeaderFound file_path) (snd (main disk a)) /\
  In file_path (files_without_license (main_loop disk a)) /\
  (require_license a = true -> fst (main disk a) = 1).
Proof.
  intros Hd Hs Hin.
  assert (Hh : has_license_header disk file_path = (false, [])).
  { unfold has_license_header. rewrite (head_lost disk file_path Hd).
    rewrite found_in_nothing. reflexivity. }
  assert (Hout : In (if require_license a then MissingHeader file_path
                     else NoHeaderFound file_path) (snd (main disk a))).
  { unfold main. cbn [snd]. apply in_or_app. left. rewrite loop_trace.
    apply in_flat_map. exists file_path. split; [exact Hin|].
    unfold LicenseMain.report, main_step. rewrite Hs. cbn [negb].
    unfold has_license_header.
    rewrite (head_lost (fun _ => disk file_path) file_path Hd).
    rewrite found_in_nothing. cbn. left. reflexivity. }
  split; [exact Hh|]. split; [exact Hout|]. split.
  - destruct (main_counts disk a) as (_ & _ & Hm). cbv zeta in Hm.
    rewrite Hm. unfold without_header, checked.
    apply filter_In. split.
    + apply filter_In. auto.
    + unfold has_header. rewrite Hh. reflexivity.
  - intros Hr. rewrite LicenseMain.exit_code_requires_flag, Hr.
    cbn [andb]. rewrite Hr in Hout.
    replace (existsb LicenseMain.is_finding (snd (main disk a))) with true;
      [reflexivity|].
    symmetry. apply existsb_exists. exists (MissingHeader file_path).
    split; [exact Hout | reflexivity].
Qed.

Definition missing_disk : fs :=
  fun _ => OpenError {| class := FileNotFoundError;
                        text := s "No such file or directory" |}.
Definition strict_args : args :=
  {| files := [s "gone.py"]; require_license := true;
     license_type := None |}.

Lemma unreadable_source_is_unlicensed_witness :
  In (MissingHeader (s "gone.py")) (snd (main missing_disk strict_args)) /\
  fst (main missing_disk strict_args) = 1.
Proof.
  destruct (unreadable_source_is_unlicensed missing_disk strict_args
              (s "gone.py") (or_introl (ex_intro _ _ eq_refl)) eq_refl
              (or_introl eq_refl))
    as (_ & Hout & _ & Hexit).
  split; [exact Hout | exact (Hexit eq_refl)].
Defined.

Lemma report_unchecked (require : bool) (wanted : option str) (p : str)
  (f : file) :
  should_check_file p = false -> LicenseMain.report require wanted p f = [].
Proof.
  intros H. unfold LicenseMain.report, main_step. rewrite H. reflexivity.
Qed.

Definition is_no_source (l : line) : bool :=
  match l with NoSourceFiles => true | _ => false end.

Lemma report_no_source (require : bool) (wanted : option str) (p : str)
  (f : file) :
  existsb is_no_source (LicenseMain.report require wanted p f) = false.
Proof.
  unfold LicenseMain.report, main_step.
  destruct (should_check_file p); [|reflexivity]. cbn [negb].
  destruct (has_license_header (fun _ => f) p) as [has found].
  destruct has; [|destruct require; reflexivity].
  cbn [license_type]. destruct wanted as [w|]; [|reflexivity].
  destruct (negb (mem_str w found)); reflexivity.
Qed.

Lemma summary_no_source (a : args) (st : state) :
  existsb is_no_source (summary a st) = negb (0 <? checked_files st).
Proof.
  unfold summary. destruct (0 <? checked_files st); [|reflexivity].
  cbn [existsb is_no_source orb negb].
  destruct (files_without_license st) as [|m ms]; [reflexivity|].
  destruct (require_license a); [reflexivity|].
  cbn [existsb is_no_source orb]. rewrite existsb_app.
  replace (existsb is_no_source (map AddTo (firstn 5 (m :: ms))))
    with false.
  - destruct (5 <? _); reflexivity.
  - symmetry. induction (firstn 5 (m :: ms)); simpl; auto.
Qed.

(** X11. When no argument is a source file to check, the license checker
    prints the one line that says so and exits with 0, whatever the
    options; and that line is printed in no other case. *)
Theorem no_source_file_to_check (disk : fs) (a : args) :
  (checked (files a) = [] -> main disk a = (0, [NoSourceFiles])) /\
  (In NoSourceFiles (snd (main disk a)) -> checked (files a) = []).
Proof.
  destruct (main_counts disk a) as (Hc & _ & _). cbv zeta in Hc.
  split.
  - intros Hnone.
    assert (Ht : trace (main_loop disk a) = []).
    { rewrite loop_trace. apply flat_map_nil_all. intros p Hp.
      apply report_unchecked.
      exact (filter_nil_all should_check_file (files a) Hnone p Hp). }
    assert (Hs : summary a (main_loop disk a) = [NoSourceFiles]).
    { unfold summary. rewrite Hc, Hnone. reflexivity. }
    pose proof (LicenseMain.exit_code_requires_flag disk a) as He.
    unfold main in *. cbn [fst snd] in He. rewrite Ht, Hs in *.
    cbn [app existsb LicenseMain.is_finding orb] in He.
    rewrite andb_false_r in He. rewrite He. reflexivity.
  - intros Hin.
    assert (Hex : existsb is_no_source (snd (main disk a)) = true).
    { apply existsb_exists. exists NoSourceFiles. auto. }
    unfold main in Hex. cbn [snd] in Hex.
    rewrite existsb_app, loop_trace, existsb_flat_map in Hex.
    rewrite (existsb_false_all
               (fun x => existsb is_no_source
                           (LicenseMain.report (require_license a)
                              (license_type a) x (disk x)))) in Hex
      by (intros p _; apply report_no_source).
    cbn [orb] in Hex. rewrite summary_no_source, Hc in Hex.
    destruct (checked (files a)); [reflexivity | discriminate].
Qed.

(** Only a text file is given. *)
Lemma no_source_file_to_check_witness :
  main three_disk {| files := [s "notes.txt"]; require_license := true;
                     license_type := None |}
  = (0, [NoSourceFiles]).
Proof.
  apply (proj1 (no_source_file_to_check three_disk _)).
  vm_compute. reflexivity.
Defined.

Lemma skipped_not_required (x : str) :
  mem_str x SKIP_EXTENSIONS = true ->
  mem_str x HEADER_REQUIRED_EXTENSIONS = false.
Proof.
  intros H. apply mem_str_In in H. unfold SKIP_EXTENSIONS in H.
  cbn [map In] in H.
  repeat (destruct H as [<- | H]; [vm_compute; reflexivity|]).
  destruct H.
Qed.

(** X12. The table [SKIP_EXTENSIONS] of the license checker has no effect:
    a file is checked exactly when no component of its path is a skipped
    directory and its suffix, as it is written, is one of
    [HEADER_REQUIRED_EXTENSIONS]. *)
Theorem skip_extensions_have_no_effect (file_path : str) :
  should_check_file file_path
  = negb (existsb (fun part => mem_str part SKIP_DIRECTORIES)
                  (Pathlib.parts file_path))
    && mem_str (Pathlib.suffix file_path) HEADER_REQUIRED_EXTENSIONS.
Proof.
  unfold should_check_file.
  destruct (existsb _ (Pathlib.parts file_path)); [reflexivity|].
  cbn [negb andb].
  destruct (mem_str (Pathlib.suffix file_path) SKIP_EXTENSIONS) eqn:E;
    [|reflexivity].
  symmetry. apply skipped_not_required. exact E.
Qed.

End LicenseExtras.

(** ** The scanners with a severity filter *)

Module SeverityExtras.
Import Text Regex Exn Fs TextFacts ListFacts LineFacts SeverityScan.

(** The options of a run with [--severity name], or without it. *)
Definition at_severity (o : option string) : args :=
  {| files := []; severity_option := option_map s o; json := false;
     exclude_safe_contexts := false |}.

Lemma level_positive (name : str) : 1 <= level name.
Proof.
  unfold level, severity_levels. cbn [lookup].
  repeat match goal with
         | |- context [if ?c then _ else _] => destruct c
         end; lia.
Qed.

Lemma keep_monotone (PATTERNS : list (str * entry)) (a b : args)
  (i : issue) :
  min_severity a <= min_severity b ->
  keep PATTERNS b i = true -> keep PATTERNS a i = true.
Proof.
  unfold keep. intros Hab.
  destruct (lookup (pattern_name i) PATTERNS) as [info|]; [|reflexivity].
  rewrite !Nat.leb_le. lia.
Qed.

(** X13. The severity filter of the three scanners.  [--severity low]
    reports what a run without the option reports; raising the level
    only removes findings; and a finding whose name is no key of the
    pattern table passes at every level. *)
Theorem severity_filter_only_removes (PATTERNS : list (str * entry))
  (issues : list issue) :
  filtered PATTERNS (at_severity (Some "low"%string)) issues = issues /\
  filtered PATTERNS (at_severity None) issues = issues /\
  incl (filtered PATTERNS (at_severity (Some "high"%string)) issues)
       (filtered PATTERNS (at_severity (Some "medium"%string)) issues) /\
  incl (filtered PATTERNS (at_severity (Some "medium"%string)) issues)
       issues /\
  (forall o i,
      In i issues -> lookup (pattern_name i) PATTERNS = None ->
      In i (filtered PATTERNS (at_severity o) issues)).
Proof.
  split; [|split; [|split; [|split]]].
  - unfold filtered. cbn [at_severity severity_option option_map].
    apply filter_all. intros i _. unfold keep.
    destruct (lookup (pattern_name i) PATTERNS) as [info|]; [|reflexivity].
    apply Nat.leb_le. apply level_positive.
  - reflexivity.
  - unfold filtered. cbn [at_severity severity_option option_map].
    intros i Hi. apply filter_In in Hi. destruct Hi as [Hin Hk].
    apply filter_In. split; [exact Hin|].
    apply (keep_monotone PATTERNS _ (at_severity (Some "high"%string)));
      [|exact Hk].
    vm_compute. lia.
  - unfold filtered. cbn [at_severity severity_option option_map].
    intros i Hi. apply filter_In in Hi. tauto.
  - intros o i Hin Hnone. unfold filtered.
    destruct (severity_option (at_severity o)); [|exact Hin].
    apply filter_In. split; [exact Hin|]. unfold keep. rewrite Hnone.
    reflexivity.
Qed.

(** *** The JSON document *)

Lemma lookup_assign_same {V} (k : str) (v : V) (table : list (str * V)) :
  lookup k (assign k v table) = Some v.
Proof.
  induction table as [|[k' w] table IH]; simpl.
  - replace (str_eqb k k) with true; [reflexivity|].
    symmetry. apply str_eqb_eq. reflexivity.
  - destruct (str_eqb k' k) eqn:E; simpl; rewrite E; [reflexivity|exact IH].
Qed.

Lemma lookup_assign_other {V} (k k0 : str) (v : V)
  (table : list (str * V)) :
  k0 <> k -> lookup k0 (assign k v table) = lookup k0 table.
Proof.
  intros Hne. induction table as [|[k' w] table IH]; simpl.
  - destruct (str_eqb k k0) eqn:E; [|reflexivity].
    apply str_eqb_eq in E. congruence.
  - destruct (str_eqb k' k) eqn:E; simpl.
    + apply str_eqb_eq in E. subst k'.
      destruct (str_eqb k k0) eqn:E0; [|reflexivity].
      apply str_eqb_eq in E0. congruence.
    + rewrite IH. reflexivity.
Qed.

Lemma assign_keys {V} (k : str) (v : V) (table : list (str * V)) :
  map fst (assign k v table)
  = if mem_str k (map fst table) then map fst table
    else map fst table ++ [k].
Proof.
  induction table as [|[k' w] table IH]; simpl; [reflexivity|].
  unfold mem_str in *. cbn [existsb].
  replace (str_eqb k k') with (str_eqb k' k).
  2: { destruct (str_eqb k' k) eqn:E1, (str_eqb k k') eqn:E2;
         try reflexivity.
       - apply str_eqb_eq in E1. subst.
         assert (H : str_eqb k k = true) by (apply str_eqb_eq; reflexivity).
         congruence.
       - apply str_eqb_eq in E2. subst.
         assert (H : str_eqb k' k' = true) by (apply str_eqb_eq; reflexivity).
         congruence. }
  destruct (str_eqb k' k) eqn:E; simpl; [reflexivity|].
  rewrite IH. destruct (existsb (str_eqb k) (map fst table)); reflexivity.
Qed.

Lemma assign_NoDup {V} (k : str) (v : V) (table : list (str * V)) :
  NoDup (map fst table) -> NoDup (map fst (assign k v table)).
Proof.
  intros H. rewrite assign_keys.
  destruct (mem_str k (map fst table)) eqn:E; [exact H|].
  apply NoDup_app; [exact H | repeat constructor; intros [] |].
  intros x Hx [<- | []].
  apply mem_str_In in Hx. congruence.
Qed.

Section Main.
Variable check : fs -> str -> list issue * list line.
Variable PATTERNS : list (str * entry).
Variable excluded : str -> bool.

Lemma json_fold (disk : fs) (a : args) (l : list str) :
  json a = true ->
  forall st,
    NoDup (map fst (all_results st)) ->
    let st' := fold_left (main_step check PATTERNS excluded disk a) l st in
    NoDup (map fst (all_results st')) /\
    forall p,
      lookup p (all_results st')
      = if mem_str p l
           && SeverityMain.nonempty
                (SeverityMain.kept check PATTERNS excluded disk a p)
        then Some (SeverityMain.kept check PATTERNS excluded disk a p)
        else lookup p (all_results st).
Proof.
  intros Hj. induction l as [|q l IH]; intros st Hnd; cbn [fold_left].
  - split; [exact Hnd|]. intros p. reflexivity.
  - pose proof (SeverityMain.step_kept check PATTERNS excluded disk a st q)
      as Hstep.
    set (kept := SeverityMain.kept check PATTERNS excluded disk a) in *.
    assert (Hnd' : NoDup (map fst (all_results
                     (main_step check PATTERNS excluded disk a st q)))).
    { rewrite Hstep. destruct (kept q); cbn [all_results]; [exact Hnd|].
      rewrite Hj. apply assign_NoDup. exact Hnd. }
    destruct (IH _ Hnd') as (H1 & H3). cbv zeta.
    split; [exact H1|].
    intros p. rewrite H3. unfold mem_str. cbn [existsb].
    fold (mem_str p l).
    destruct (SeverityMain.nonempty (kept p)) eqn:En.
    + rewrite !andb_true_r.
      destruct (mem_str p l); [rewrite orb_true_r; reflexivity|].
      rewrite orb_false_r. rewrite Hstep.
      destruct (str_eqb p q) eqn:Epq.
      * apply str_eqb_eq in Epq. subst q.
        destruct (kept p) eqn:Ek; [discriminate En|].
        cbn [all_results]. rewrite Hj. apply lookup_assign_same.
      * destruct (kept q); [reflexivity|].
        cbn [all_results]. rewrite Hj. apply lookup_assign_other.
        intros ->. assert (H : str_eqb q q = true)
          by (apply str_eqb_eq; reflexivity). congruence.
    + rewrite !andb_false_r. rewrite Hstep.
      destruct (kept q) eqn:Ek; [reflexivity|].
      cbn [all_results]. rewrite Hj. apply lookup_assign_other.
      intros ->. rewrite Ek in En. discriminate En.
Qed.

(** What a run under [--json] writes: to stderr the messages of the
    checks, in the order of the arguments, and to stdout the document
    alone, a map from the paths with findings to their findings. *)
Definition json_run (disk : fs) (a : args) : Prop :=
  let doc := all_results (main_loop check PATTERNS excluded disk a) in
  let out := snd (main check PATTERNS excluded disk a) in
  out
  = flat_map (SeverityMain.errors check excluded disk a) (files a)
    ++ [JsonDump doc] /\
  filter (fun l => negb (to_stderr l)) out = [JsonDump doc] /\
  NoDup (map fst doc) /\
  forall p,
    lookup p doc
    = if mem_str p (files a)
         && SeverityMain.nonempty
              (SeverityMain.kept check PATTERNS excluded disk a p)
      then Some (SeverityMain.kept check PATTERNS excluded disk a p)
      else None.

Hypothesis check_stderr :
  forall disk p, forallb to_stderr (snd (check disk p)) = true.

Lemma errors_off_stdout (disk : fs) (a : args) (l : list str) :
  filter (fun l => negb (to_stderr l))
         (flat_map (SeverityMain.errors check excluded disk a) l) = [].
Proof.
  induction l as [|p l IH]; cbn [flat_map]; [reflexivity|].
  rewrite filter_app, IH, app_nil_r.
  pose proof (SeverityMain.errors_stderr check excluded check_stderr
                disk a p) as H.
  induction (SeverityMain.errors check excluded disk a p) as [|x err IHe];
    [reflexivity|].
  cbn [forallb] in H. apply andb_true_iff in H. destruct H as [Hx He].
  cbn [filter]. rewrite Hx. cbn [negb]. exact (IHe He).
Qed.

Lemma json_run_holds (disk : fs) (a : args) :
  json a = true -> json_run disk a.
Proof.
  intros Hj. unfold json_run, main, main_loop.
  destruct (json_fold disk a (files a) Hj
              {| exit_code := 0; total_issues := 0; all_results := [];
                 trace := [] |} (NoDup_nil _)) as (H1 & H3).
  destruct (SeverityMain.fold_step check PATTERNS excluded disk a (files a)
              {| exit_code := 0; total_issues := 0; all_results := [];
                 trace := [] |}) as (_ & Ht & _).
  cbv zeta in *. cbn [snd]. cbn [trace app] in Ht.
  rewrite Hj, Ht, (SeverityMain.report_json check PATTERNS excluded
                     disk a (files a) Hj).
  split; [reflexivity|]. split; [|split; [exact H1 | exact H3]].
  rewrite filter_app, errors_off_stdout. reflexivity.
Qed.

End Main.

(** X14. The JSON document.  Under [--json] the three scanners write to
    stdout the document and nothing else; what else they write are the
    messages of their checks on stderr, in the order of the arguments.
    The keys of the document are distinct; and the value of a path is
    the list of the findings kept for that path, when the path is an
    argument and that list is not empty, the path being no key of the
    document otherwise. *)
Theorem json_document_is_a_map (disk : fs) (a : args) :
  json a = true ->
  json_run Verbose.check_verbose_flags Verbose.VERBOSE_PATTERNS
    Verbose.is_safe_context disk a /\
  json_run Dotnet.check_dotnet_security Dotnet.DOTNET_SECURITY_PATTERNS
    (fun _ => false) disk a /\
  forall safe_load,
    json_run (Ansible.check_ansible_security safe_load)
      Ansible.ANSIBLE_SECURITY_PATTERNS (fun _ => false) disk a.
Proof.
  intros Hj. split; [|split; [|intros safe_load]];
    apply json_run_holds; try exact Hj; intros d p.
  - apply SeverityMain.verbose_stderr.
  - apply SeverityMain.dotnet_stderr.
  - apply SeverityMain.ansible_stderr.
Qed.

(** A run with [--json] over a file with a debug flag, given twice, and
    a file that is missing. *)
Definition debug_disk : fs :=
  fun p => if str_eqb p (s "app.py")
           then Content (s "import x" ++ [newline] ++ s "debug = True")
           else OpenError ScannerClaims.no_such_file.
Definition json_twice : args :=
  {| files := [s "app.py"; s "gone.py"; s "app.py"];
     severity_option := None; json := true;
     exclude_safe_contexts := false |}.

Lemma json_document_is_a_map_witness :
  snd (Verbose.main debug_disk json_twice)
  = [ ErrorAnalyzing (s "gone.py") (text ScannerClaims.no_such_file);
      JsonDump [(s "app.py",
                 fst (Verbose.check_verbose_flags debug_disk
                        (s "app.py")))] ].
Proof.
  destruct (json_document_is_a_map debug_disk json_twice eq_refl)
    as ((H & _) & _).
  unfold Verbose.main. rewrite H. vm_compute. reflexivity.
Defined.

(** *** The findings of a scan of the lines *)

Lemma in_scan_patterns (PATTERNS : list (str * entry))
  (muted : entry -> bool) (n : nat) (line : str) (i : issue) :
  In i (scan_patterns PATTERNS muted n line) <->
  exists name info pattern,
    In (name, info) PATTERNS /\ In pattern (patterns info) /\
    is_some (re_search IGNORECASE pattern line) = true /\
    muted info = false /\
    i = (n, strip line, name, description info).
Proof.
  unfold scan_patterns. rewrite in_flat_map. split.
  - intros ([name info] & Hin & Hi). apply in_flat_map in Hi.
    destruct Hi as (pattern & Hp & Hi).
    destruct (is_some (re_search IGNORECASE pattern line)) eqn:Eh;
      [|destruct Hi].
    destruct (muted info) eqn:Em; [destruct Hi|].
    destruct Hi as [<- | []]. exists name, info, pattern. auto.
  - intros (name & info & pattern & Hin & Hp & Eh & Em & ->).
    exists (name, info). split; [exact Hin|]. apply in_flat_map.
    exists pattern. split; [exact Hp|]. rewrite Eh, Em. left. reflexivity.
Qed.

Fixpoint distinct (l : list str) : bool :=
  match l with
  | [] => true
  | x :: l' => negb (mem_str x l') && distinct l'
  end.

Lemma distinct_NoDup (l : list str) : distinct l = true -> NoDup l.
Proof.
  induction l as [|x l IH]; simpl; [constructor|].
  intros H. apply andb_true_iff in H. destruct H as [Hx Hl].
  constructor; [|exact (IH Hl)].
  intros Hin. apply mem_str_In in Hin. rewrite Hin in Hx. discriminate.
Qed.

Lemma lookup_in {V} (table : list (str * V)) (k : str) (v : V) :
  NoDup (map fst table) -> In (k, v) table -> lookup k table = Some v.
Proof.
  induction table as [|[k' w] table IH]; simpl; [intros _ []|].
  intros Hnd [H | H].
  - inversion H; subst.
    replace (str_eqb k k) with true; [reflexivity|].
    symmetry. apply str_eqb_eq. reflexivity.
  - inversion Hnd; subst. destruct (str_eqb k' k) eqn:E.
    + apply str_eqb_eq in E. subst k'. exfalso. apply H2.
      apply in_map_iff. exists (k, v). auto.
    + apply IH; assumption.
Qed.

Lemma verbose_keys_distinct : NoDup (map fst Verbose.VERBOSE_PATTERNS).
Proof. apply distinct_NoDup. vm_compute. reflexivity. Qed.

Definition number (i : issue) : nat := fst (fst (fst i)).
Definition content_of (i : issue) : str := snd (fst (fst i)).

(** What a finding of detect-verbose-flags.py is made of. *)
Definition verbose_shape (disk : fs) (file_path : str) (i : issue) : Prop :=
  exists content line info pattern,
    disk file_path = Content content /\
    Verbose.should_check_file file_path = true /\
    1 <= number i /\
    nth_error (split newline content) (number i - 1) = Some line /\
    content_of i = strip line /\
    content_of i <> [] /\
    startswith (s "#") (content_of i) = false /\
    lookup (pattern_name i) Verbose.VERBOSE_PATTERNS = Some info /\
    snd i = description info /\
    In pattern (patterns info) /\
    is_some (re_search IGNORECASE pattern line) = true /\
    (Verbose.is_safe_context file_path = true ->
     str_eqb (severity info) (s "low") = false).

(** X15. The anatomy of a finding of detect-verbose-flags.py.  The file
    has a name the script checks and could be read; the line number is
    that of a line of its text; the line content is that line stripped,
    is not empty and does not start with a hash sign; the name is a key
    of the pattern table, the description is that of its entry, and a
    pattern of the entry is found in the line; and in a safe context the
    severity of the entry is not low. *)
Theorem verbose_finding_anatomy (disk : fs) (file_path : str) (i : issue) :
  In i (fst (Verbose.check_verbose_flags disk file_path)) ->
  verbose_shape disk file_path i.
Proof.
  unfold verbose_shape, Verbose.check_verbose_flags.
  destruct (Verbose.should_check_file file_path) eqn:Es; [|intros []].
  cbn [negb].
  destruct (disk file_path) as [content|e|read e];
    [|intros []|intros []].
  cbn [fst]. intros Hi. apply in_flat_map in Hi.
  destruct Hi as ([n line] & Hnl & Hi).
  cbn [fst snd] in Hi. unfold Verbose.scan_line in Hi.
  destruct (is_nil (strip line)) eqn:En; [destruct Hi|].
  destruct (startswith (s "#") (strip line)) eqn:Eh; [destruct Hi|].
  cbn [orb] in Hi. apply in_scan_patterns in Hi.
  destruct Hi as (name & info & pattern & Hin & Hp & Hhit & Hm & ->).
  apply in_enumerate in Hnl. destruct Hnl as [Hn Hnth].
  exists content, line, info, pattern.
  cbn [number content_of pattern_name fst snd].
  repeat split; try assumption.
  - intros H. rewrite H in En. discriminate.
  - apply lookup_in; [exact verbose_keys_distinct | exact Hin].
  - intros Hsafe. rewrite Hsafe in Hm. exact Hm.
Qed.

Definition flag_issue : issue :=
  (2, s "debug = True", s "debug_flags",
   s "Debug/verbose logging enabled - should be disabled in production").

Lemma flag_issue_found :
  In flag_issue (fst (Verbose.check_verbose_flags debug_disk (s "app.py"))).
Proof. vm_compute. left. reflexivity. Qed.

Lemma verbose_finding_anatomy_witness :
  verbose_shape debug_disk (s "app.py") flag_issue.
Proof.
  exact (verbose_finding_anatomy debug_disk (s "app.py") flag_issue
           flag_issue_found).
Defined.

(** X16. The findings of detect-verbose-flags.py come in the order of
    the lines, with line numbers between 1 and the number of fields that
    [split] cuts the text into. *)
Theorem verbose_findings_in_line_order (disk : fs) (file_path : str) :
  StronglySorted le
    (map number (fst (Verbose.check_verbose_flags disk file_path))) /\
  forall i content,
    In i (fst (Verbose.check_verbose_flags disk file_path)) ->
    disk file_path = Content content ->
    1 <= number i <= length (split newline content).
Proof.
  unfold Verbose.check_verbose_flags.
  destruct (Verbose.should_check_file file_path); cbn [negb];
    [|split; [constructor | intros i content []]].
  destruct (disk file_path) as [text|e|read e];
    [|split; [constructor | intros i content []]
     |split; [constructor | intros i content []]].
  cbn [fst].
  destruct (numbered_scan_sorted number
              (Verbose.scan_line (Verbose.is_safe_context file_path))
              (split newline text)) with (k := 1) as [Hs Hb].
  { intros n x i Hi. unfold Verbose.scan_line in Hi.
    destruct (_ || _); [destruct Hi|].
    apply in_scan_patterns in Hi.
    destruct Hi as (name & info & pattern & _ & _ & _ & _ & ->).
    reflexivity. }
  split; [exact Hs|].
  intros i content Hi Hc. inversion Hc; subst. apply Hb in Hi. lia.
Qed.

End SeverityExtras.

(** ** The .NET scanner *)

Module DotnetExtras.
Import Text Regex Exn Fs TextFacts SeverityScan SeverityExtras.

(** The finding [analyze_config_file] makes of a line with a secret. *)
Definition config_secret (n : nat) (line : str) : issue :=
  (n, strip line, s "config_secrets",
   s "Potential hardcoded secret in configuration file").

Lemma config_secret_found (disk : fs) (file_path content : str) (n : nat)
  (line : str) :
  disk file_path = Content content ->
  Dotnet.should_check_file file_path = true ->
  existsb (fun config => contains config (lower (Pathlib.name file_path)))
          Dotnet.CONFIG_FILES = true ->
  In (n, line) (enumerate 1 (split newline content)) ->
  existsb (fun keyword => contains keyword (lower line))
          Dotnet.SECRET_KEYWORDS = true ->
  existsb (fun safe => contains safe (lower line)) Dotnet.SAFE_MARKERS
  = false ->
  In (config_secret n line)
     (fst (Dotnet.check_dotnet_security disk file_path)).
Proof.
  intros Hd Hs Hc Hnl Hk Hm. unfold Dotnet.check_dotnet_security.
  rewrite Hs, Hd, Hc. cbn [negb fst]. apply in_or_app. left.
  unfold Dotnet.analyze_config_file. apply in_flat_map.
  exists (n, line). split; [exact Hnl|]. cbn [fst snd].
  unfold Dotnet.config_line. rewrite Hk, Hm. left. reflexivity.
Qed.

(** X17. The severity filter does not reach the secrets of a
    configuration file.  A line of a .NET configuration file that holds
    password=, pwd=, secret= or key= and none of the markers of a
    placeholder is reported as config_secrets at every level of
    [--severity], and the run exits with 1: the name is no key of the
    pattern table, so it has no severity to compare. *)
Theorem config_secrets_pass_every_filter (disk : fs) (a : args)
  (file_path content : str) (n : nat) (line : str) :
  disk file_path = Content content ->
  Dotnet.should_check_file file_path = true ->
  existsb (fun config => contains config (lower (Pathlib.name file_path)))
          Dotnet.CONFIG_FILES = true ->
  In (n, line) (enumerate 1 (split newline content)) ->
  existsb (fun keyword => contains keyword (lower line))
          Dotnet.SECRET_KEYWORDS = true ->
  existsb (fun safe => contains safe (lower line)) Dotnet.SAFE_MARKERS
  = false ->
  In file_path (files a) ->
  In (config_secret n line)
     (filtered Dotnet.DOTNET_SECURITY_PATTERNS a
        (fst (Dotnet.check_dotnet_security disk file_path))) /\
  fst (Dotnet.main disk a) = 1.
Proof.
  intros Hd Hs Hc Hnl Hk Hm Hf.
  pose proof (config_secret_found disk file_path content n line
                Hd Hs Hc Hnl Hk Hm) as Hin.
  assert (Hkept : In (config_secret n line)
                     (filtered Dotnet.DOTNET_SECURITY_PATTERNS a
                        (fst (Dotnet.check_dotnet_security disk
                                file_path)))).
  { unfold filtered. destruct (severity_option a); [|exact Hin].
    apply filter_In. split; [exact Hin|]. reflexivity. }
  split; [exact Hkept|].
  unfold Dotnet.main, main, main_loop. cbn [fst].
  destruct (SeverityMain.fold_step Dotnet.check_dotnet_security
              Dotnet.DOTNET_SECURITY_PATTERNS (fun _ => false) disk a
              (files a)
              {| exit_code := 0; total_issues := 0; all_results := [];
                 trace := [] |}) as (He & _).
  rewrite He.
  replace (existsb _ (files a)) with true; [reflexivity|].
  symmetry. apply existsb_exists. exists file_path. split; [exact Hf|].
  unfold SeverityMain.has_issues, SeverityMain.kept.
  rewrite andb_false_r.
  destruct (filtered _ a _); [destruct Hkept | reflexivity].
Qed.

Definition config_disk : fs :=
  fun _ => Content (s "<add key=" ++ [dquote] ++ s "db" ++ [dquote]
                    ++ s " value=" ++ [dquote] ++ s "Password=hunter2"
                    ++ [dquote] ++ s "/>").
Definition high_args : args :=
  {| files := [s "Web.config"]; severity_option := Some (s "high");
     json := false; exclude_safe_contexts := false |}.

Lemma config_secrets_pass_every_filter_witness :
  fst (Dotnet.main config_disk high_args) = 1.
Proof.
  refine (proj2 (config_secrets_pass_every_filter config_disk high_args
                   (s "Web.config") _ 1 _ eq_refl _ _
                   (or_introl eq_refl) _ _ (or_introl eq_refl)));
    vm_compute; reflexivity.
Defined.

Lemma config_secrets_is_no_pattern_name :
  mem_str (s "config_secrets") (map fst Dotnet.DOTNET_SECURITY_PATTERNS)
  = false.
Proof. vm_compute. reflexivity. Qed.

(** X18. The settings of an environment miss the analysis of
    configuration files.  [check_dotnet_security] runs
    [analyze_config_file] only when web.config, app.config,
    appsettings.json or the name appsettings.*.json, asterisk included,
    is a part of the lowered file name.  For every other file each
    finding carries the name of an entry of the pattern table and a
    pattern of that entry is found in its line, so none is a
    config_secrets finding, whatever the lines hold. *)
Theorem environment_settings_miss_config_analysis (disk : fs)
  (file_path : str) (i : issue) :
  existsb (fun config => contains config (lower (Pathlib.name file_path)))
          Dotnet.CONFIG_FILES = false ->
  In i (fst (Dotnet.check_dotnet_security disk file_path)) ->
  pattern_name i <> s "config_secrets" /\
  exists content line info pattern,
    disk file_path = Content content /\
    nth_error (split newline content) (number i - 1) = Some line /\
    In (pattern_name i, info) Dotnet.DOTNET_SECURITY_PATTERNS /\
    snd i = description info /\
    In pattern (patterns info) /\
    is_some (re_search IGNORECASE pattern line) = true.
Proof.
  intros Hc. unfold Dotnet.check_dotnet_security. rewrite Hc.
  destruct (Dotnet.should_check_file file_path); [|intros []].
  cbn [negb app].
  destruct (disk file_path) as [content|e|read e];
    [|intros []|intros []].
  cbn [fst]. intros Hi. apply in_flat_map in Hi.
  destruct Hi as ([n line] & Hnl & Hi).
  cbn [fst snd] in Hi. unfold Dotnet.scan_line in Hi.
  destruct (is_nil (strip line)); [destruct Hi|].
  apply in_scan_patterns in Hi.
  destruct Hi as (name & info & pattern & Hin & Hp & Hhit & _ & ->).
  apply in_enumerate in Hnl. destruct Hnl as [Hn Hnth].
  cbn [number pattern_name fst snd]. split.
  - intros ->.
    assert (Hk : In (s "config_secrets")
                   (map fst Dotnet.DOTNET_SECURITY_PATTERNS)).
    { apply in_map_iff. exists (s "config_secrets", info). auto. }
    apply mem_str_In in Hk.
    rewrite config_secrets_is_no_pattern_name in Hk. discriminate.
  - exists content, line, info, pattern.
    repeat split; assumption.
Qed.

Definition production_disk : fs :=
  fun _ => Content (s "Password=hunter2" ++ [newline]
                    ++ s "<compilation debug=" ++ [dquote] ++ s "true"
                    ++ [dquote] ++ s ">").

Definition production_issue : issue :=
  (2, s "<compilation debug=" ++ [dquote] ++ s "true" ++ [dquote] ++ s ">",
   s "debug_info", s "Debug mode enabled in production config").

Lemma environment_settings_miss_config_analysis_witness :
  Dotnet.should_check_file (s "appsettings.Production.json") = true /\
  pattern_name production_issue <> s "config_secrets".
Proof.
  split; [vm_compute; reflexivity|].
  refine (proj1 (environment_settings_miss_config_analysis production_disk
                   (s "appsettings.Production.json") production_issue
                   _ _)).
  - vm_compute. reflexivity.
  - vm_compute. left. reflexivity.
Defined.

End DotnetExtras.

(** ** The Ansible scanner *)

Module AnsibleExtras.
Import Text Regex Exn Fs TextFacts ListFacts SeverityScan RegexSemantics
  Ansible.

(** The characters of the payload of a vault: the digits and a to f. *)
Definition is_hex (c : ascii) : bool := is_digit c || between 97 102 c.
Definition not_hex (c : ascii) : bool := negb (is_hex c).

(** Every pattern of the table needs a character that is no lower-case
    hexadecimal digit. *)
Lemma patterns_need_more_than_hex :
  forallb (fun e : str * entry =>
             forallb (needs not_hex IGNORECASE) (patterns (snd e)))
          ANSIBLE_SECURITY_PATTERNS = true.
Proof. vm_compute. reflexivity. Qed.

Lemma hex_line_is_clean (n : nat) (line : str) :
  forallb is_hex line = true -> scan_line n line = [].
Proof.
  intros Hh. unfold scan_line. destruct (_ || _); [reflexivity|].
  unfold scan_patterns. apply flat_map_nil_all. intros [name info] Hin.
  apply flat_map_nil_all. intros pattern Hp.
  pose proof patterns_need_more_than_hex as H.
  rewrite forallb_forall in H. specialize (H _ Hin). cbn [snd] in H.
  rewrite forallb_forall in H. specialize (H _ Hp).
  rewrite (search_needs not_hex IGNORECASE pattern line H); [reflexivity|].
  rewrite <- Hh. apply forallb_pointwise. intros c. unfold not_hex.
  apply negb_involutive.
Qed.

Lemma split_fields (sep : ascii) (t : str) :
  forall field, In field (split sep t) ->
                forall c, In c field -> In c t /\ ascii_eqb c sep = false.
Proof.
  induction t as [|x t IH]; intros field Hf c Hc; simpl in Hf.
  - destruct Hf as [<- | []]. destruct Hc.
  - destruct (ascii_eqb x sep) eqn:E.
    + destruct Hf as [<- | Hf]; [destruct Hc|].
      destruct (IH field Hf c Hc) as [H1 H2]. split; [right|]; assumption.
    + destruct (split sep t) as [|f fs] eqn:Es.
      * destruct Hf as [<- | []]. destruct Hc as [<- | []].
        split; [left; reflexivity | exact E].
      * destruct Hf as [<- | Hf].
        -- destruct Hc as [<- | Hc]; [split; [left; reflexivity | exact E]|].
           destruct (IH f (or_introl eq_refl) c Hc) as [H1 H2].
           split; [right|]; assumption.
        -- destruct (IH field (or_intror Hf) c Hc) as [H1 H2].
           split; [right|]; assumption.
Qed.

Lemma split_after_line (a b : str) :
  forallb not_newline a = true ->
  split newline (a ++ newline :: b) = a :: split newline b.
Proof.
  induction a as [|x a IH]; intros Ha; simpl.
  - reflexivity.
  - simpl in Ha. apply andb_true_iff in Ha. destruct Ha as [Hx Ha].
    unfold not_newline in Hx. destruct (ascii_eqb x newline);
      [discriminate|].
    rewrite (IH Ha). reflexivity.
Qed.

Lemma scan_enumerate_empty (lines : list str) :
  (forall n line, In line lines -> scan_line n line = []) ->
  forall k,
    flat_map (fun nl : nat * str => scan_line (fst nl) (snd nl))
             (enumerate k lines) = [].
Proof.
  intros H. induction lines as [|l lines IH]; intros k; simpl;
    [reflexivity|].
  rewrite (H k l (or_introl eq_refl)). apply IH.
  intros n line Hl. apply H. right. exact Hl.
Qed.

(** The first line of a file that ansible-vault has encrypted. *)
Definition vault_header : str := s "$ANSIBLE_VAULT;1.1;AES256".

Lemma header_is_clean : scan_line 1 vault_header = [].
Proof. vm_compute. reflexivity. Qed.

(** X19. A file that ansible-vault has encrypted (its header line, then
    lines of lower-case hexadecimal digits) gets no finding from the
    vault check and none from the scan of its lines, whatever its name:
    the list is empty, and nothing is written, for a name that does not
    end in .yml or .yaml, and for the other names the list holds at most
    what [analyze_yaml_structure] returns for the data loaded from the
    text. *)
Theorem encrypted_vault_is_clean (safe_load : str -> loaded) (disk : fs)
  (file_path payload : str) :
  disk file_path = Content (vault_header ++ newline :: payload) ->
  forallb (fun c => is_hex c || ascii_eqb c newline) payload = true ->
  (is_yaml_name file_path = false ->
   check_ansible_security safe_load disk file_path = ([], [])) /\
  (forall i,
      In i (fst (check_ansible_security safe_load disk file_path)) ->
      exists as_str yaml_issues,
        safe_load (vault_header ++ newline :: payload)
        = Data true as_str (Return yaml_issues) /\
        In i yaml_issues).
Proof.
  intros Hd Hp.
  set (content := vault_header ++ newline :: payload) in *.
  assert (Hv : check_vault_encryption file_path content = []).
  { unfold check_vault_encryption.
    destruct (existsb _ SENSITIVE_FILES); [|reflexivity].
    replace (startswith (s "$ANSIBLE_VAULT") content) with true;
      reflexivity. }
  assert (Hl : flat_map (fun nl : nat * str => scan_line (fst nl) (snd nl))
                        (enumerate 1 (split newline content)) = []).
  { unfold content. rewrite split_after_line by (vm_compute; reflexivity).
    cbn [enumerate flat_map fst snd]. rewrite header_is_clean.
    apply scan_enumerate_empty. intros n line Hin.
    apply hex_line_is_clean. apply forallb_forall. intros c Hc.
    destruct (split_fields newline payload line Hin c Hc) as [Hcp Hnl].
    rewrite forallb_forall in Hp. specialize (Hp c Hcp).
    rewrite Hnl, orb_false_r in Hp. exact Hp. }
  unfold check_ansible_security.
  destruct (is_ansible_file file_path); cbn [negb];
    [|split; [reflexivity | intros i []]].
  rewrite Hd, Hv, Hl. cbn [app].
  destruct (is_yaml_name file_path).
  - split; [discriminate|].
    destruct (analyze_yaml_content safe_load content) as [[|]|e];
      [|intros i [] | intros i []].
    unfold yaml_block.
    destruct (safe_load content) as [|e|[|] as_str [yaml_issues|e]];
      try (intros i []).
    cbn [fst app]. intros i Hi. exists as_str, yaml_issues. auto.
  - split; [reflexivity | intros i []].
Qed.

Definition vault_disk : fs :=
  fun _ => Content (vault_header ++ newline
                    :: s "6231636465666162" ++ newline :: s "0f9e").

Lemma encrypted_vault_is_clean_witness :
  check_ansible_security (fun _ => YAMLError) vault_disk
    (s "group_vars/all/vault") = ([], []).
Proof.
  apply (proj1 (encrypted_vault_is_clean (fun _ => YAMLError) vault_disk
                  (s "group_vars/all/vault")
                  (s "6231636465666162" ++ newline :: s "0f9e")
                  eq_refl eq_refl)).
  reflexivity.
Defined.

(** X20. The YAML library is consulted for the names that end in .yml or
    .yaml only; and for those names it is a gate: unless
    [analyze_yaml_content] answers True, the file gets no finding at
    all, not even that of the vault check. *)
Theorem yaml_names_pass_a_gate :
  (forall safe_load safe_load' disk file_path,
      is_yaml_name file_path = false ->
      check_ansible_security safe_load disk file_path
      = check_ansible_security safe_load' disk file_path) /\
  (forall safe_load disk file_path content,
      disk file_path = Content content ->
      is_yaml_name file_path = true ->
      analyze_yaml_content safe_load content <> Return true ->
      fst (check_ansible_security safe_load disk file_path) = []).
Proof.
  split.
  - intros sl sl' disk p Hy. unfold check_ansible_security.
    rewrite Hy. reflexivity.
  - intros sl disk p content Hd Hy Ha. unfold check_ansible_security.
    destruct (is_ansible_file p); [|reflexivity]. cbn [negb].
    rewrite Hd, Hy.
    destruct (analyze_yaml_content sl content) as [[|]|e];
      [contradiction | reflexivity | reflexivity].
Qed.

(** A file of secrets in YAML without one of the indicator words. *)
Lemma yaml_names_pass_a_gate_witness :
  fst (check_ansible_security (fun _ => Data true (s "{'db': 'hunter2'}")
                                             (Return []))
         (fun _ => Content (s "db: hunter2")) (s "group_vars/secrets.yml"))
  = [].
Proof.
  apply (proj2 yaml_names_pass_a_gate _ _ _ (s "db: hunter2"));
    [reflexivity | reflexivity |].
  vm_compute. discriminate.
Defined.

End AnsibleExtras.

(** ** The structure check of the Ansible scanner *)

Module AnsibleYamlExtras.
Import Text Exn TextFacts SeverityScan AnsibleYaml.
Import SeverityExtras.

Definition number (i : issue) : nat := fst (fst (fst i)).

(** A task the loop flags: a dict with one of the sensitive modules
    among its keys and no true [no_log]. *)
Definition flagged (task : pyobj) : Prop :=
  exists d, task = PyDict d /\
    existsb (fun module => has_key module d) sensitive_modules = true /\
    (forall v, get (s "no_log") d = Some v -> truthy v = false).

Lemma in_check_task (k : nat) (task : pyobj) (i : issue) :
  In i (check_task k task) ->
  number i = k + 1 /\ pattern_name i = s "missing_no_log" /\ flagged task.
Proof.
  unfold check_task. destruct task as [t|l|d|n b it]; try (intros []).
  destruct (existsb _ sensitive_modules) eqn:Es; [|intros []].
  destruct (get (s "no_log") d) as [v|] eqn:Eg.
  - destruct (truthy v) eqn:Et; [intros []|]. cbn [negb].
    intros [<- | []]. repeat split. exists d. repeat split; auto.
    intros v' Hv. congruence.
  - cbn [negb]. intros [<- | []]. repeat split. exists d.
    repeat split; auto. intros v Hv. congruence.
Qed.

Lemma tasks_scan (ts : list pyobj) :
  forall k,
    let issues := flat_map (fun it : nat * pyobj =>
                              check_task (fst it) (snd it))
                           (enumerate k ts) in
    StronglySorted lt (map number issues) /\
    forall i, In i issues ->
      k + 1 <= number i <= k + length ts /\
      pattern_name i = s "missing_no_log" /\
      exists task, nth_error ts (number i - (k + 1)) = Some task /\
                   flagged task.
Proof.
  induction ts as [|t ts IH]; intros k; cbn [enumerate flat_map].
  - split; [constructor | intros i []].
  - destruct (IH (S k)) as [Hs Hb]. cbv zeta. cbn [fst snd]. split.
    + rewrite map_app.
      assert (Hhead : forall a, In a (map number (check_task k t)) ->
                                a = k + 1).
      { intros a Ha. apply in_map_iff in Ha. destruct Ha as (i & <- & Hi).
        apply in_check_task in Hi. tauto. }
      assert (Hone : length (check_task k t) <= 1).
      { unfold check_task. destruct t as [x|x|d|x b it];
          try (cbn [length]; lia).
        repeat match goal with
               | |- context [if ?c then _ else _] => destruct c
               end; cbn [length]; lia. }
      destruct (check_task k t) as [|i0 [|i1 rest]] eqn:Ec;
        [exact Hs | | simpl in Hone; lia].
      cbn [map app]. constructor; [exact Hs|].
      apply Forall_forall. intros b Hb'. apply in_map_iff in Hb'.
      destruct Hb' as (i & <- & Hi). apply Hb in Hi.
      rewrite (Hhead (number i0)) by (left; reflexivity). lia.
    + intros i Hi. apply in_app_or in Hi. destruct Hi as [Hi | Hi].
      * apply in_check_task in Hi. destruct Hi as (Hn & Hp & Hf).
        rewrite Hn. cbn [length]. split; [lia|]. split; [exact Hp|].
        exists t. replace (k + 1 - (k + 1)) with 0 by lia. auto.
      * apply Hb in Hi. destruct Hi as (Hn & Hp & task & Ht & Hf).
        cbn [length]. split; [lia|]. split; [exact Hp|].
        exists task. split; [|exact Hf].
        replace (number i - (k + 1)) with (S (number i - (S k + 1)))
          by lia.
        exact Ht.
Qed.

(** X21. [analyze_yaml_structure].  It raises only when the value of
    the key tasks of a dict cannot be iterated over, with the TypeError
    of that value.  What it returns otherwise is empty unless the data is
    a dict with the key tasks; every issue is named missing_no_log; its
    number is the position, counted from 1, of a task among the tasks
    (not a line of the file), the task being a dict with a sensitive
    module among its keys and without a true no_log; and the numbers
    increase strictly. *)
Theorem yaml_structure_findings (data : pyobj) (file_path : str) :
  match analyze_yaml_structure data file_path with
  | Return issues =>
      StronglySorted lt (map number issues) /\
      forall i, In i issues ->
        pattern_name i = s "missing_no_log" /\
        exists d tasks ts task,
          data = PyDict d /\ get (s "tasks") d = Some tasks /\
          iterate tasks = Return ts /\
          1 <= number i <= length ts /\
          nth_error ts (number i - 1) = Some task /\ flagged task
  | Raise e =>
      exists d tasks,
        data = PyDict d /\ get (s "tasks") d = Some tasks /\
        iterate tasks = Raise e
  end.
Proof.
  unfold analyze_yaml_structure.
  destruct data as [t|l|d|n b it];
    try (split; [constructor | intros i []]).
  destruct (get (s "tasks") d) as [tasks|] eqn:Eg;
    [|split; [constructor | intros i []]].
  destruct (iterate tasks) as [ts|e] eqn:Ei; cbn [bind].
  - destruct (tasks_scan ts 0) as [Hs Hb]. split; [exact Hs|].
    intros i Hi. apply Hb in Hi. destruct Hi as (Hn & Hp & task & Ht & Hf).
    split; [exact Hp|]. exists d, tasks, ts, task.
    cbn [plus] in *. repeat split; auto; lia.
  - exists d, tasks. auto.
Qed.

(** A dict with two tasks, the second one a call of uri without
    no_log. *)
Definition two_tasks : pyobj :=
  PyDict
    [ (PyStr (s "hosts"), PyStr (s "all"));
      (PyStr (s "tasks"),
       PyList [ PyDict [ (PyStr (s "debug"), PyStr (s "msg=hi")) ];
                PyDict [ (PyStr (s "name"), PyStr (s "fetch"));
                         (PyStr (s "uri"), PyDict []) ] ]) ].
Definition second_task : issue :=
  (2, s "Task with ['uri'] should use no_log", s "missing_no_log",
   s "Sensitive task should use no_log to prevent credential exposure").

Lemma yaml_structure_findings_witness :
  analyze_yaml_structure two_tasks (s "site.yml") = Return [second_task] /\
  pattern_name second_task = s "missing_no_log".
Proof.
  split; [reflexivity|].
  exact (proj1 (proj2 (yaml_structure_findings two_tasks (s "site.yml"))
                  second_task (or_introl eq_refl))).
Defined.

End AnsibleYamlExtras.
